(** * TPI programmer for ATtiny4/5/9/10/20/40: frame codec, register access,
      device identification and the streaming Intel-HEX loader.

    The firmware (TPI_Programmer.ino) runs on an 8-bit AVR host: [char] is a
    signed 8-bit integer, [int] and [unsigned int] are 16 bits wide,
    [uint8_t] is 8 bits and [uint64_t] 64 bits.  Integers are modelled as [Z]
    with the truncations written out at every assignment. *)

From Stdlib Require Import ZArith List Bool Lia.
From Stdlib Require String Ascii.
Import ListNotations String.StringSyntax.
Delimit Scope string_scope with string.
Local Open Scope Z_scope.

(** ** Machine integers *)

Definition u8 (x : Z) : Z := x mod 256.
Definition u16 (x : Z) : Z := x mod 65536.
Definition u64 (x : Z) : Z := x mod 2 ^ 64.

(** Conversion of a received byte (0..255) to the host's signed [char]. *)
Definition to_char (x : Z) : Z :=
  let b := u8 x in if b <? 128 then b else b - 256.

(** ** Instruction set and constants (the [#define]s) *)

Definition SLD : Z := 0x20.
Definition SLDp : Z := 0x24.
Definition SST : Z := 0x60.
Definition SSTp : Z := 0x64.
Definition SSTPRH : Z := 0x69.
Definition SSTPRL : Z := 0x68.
Definition SKEY : Z := 0xE0.
Definition NVM_PROGRAM_ENABLE : Z := 0x1289AB45CDD888FF.

Definition NVMCMD : Z := 0x33.
Definition NVMCSR : Z := 0x32.
Definition NVM_NOP : Z := 0x00.
Definition NVM_CHIP_ERASE : Z := 0x10.
Definition NVM_SECTION_ERASE : Z := 0x14.
Definition NVM_WORD_WRITE : Z := 0x1D.

Definition Tiny4_5 : Z := 10.
Definition Tiny9 : Z := 1.
Definition Tiny10 : Z := 1.
Definition Tiny20 : Z := 2.
Definition Tiny40 : Z := 4.
Definition Tiny102 : Z := 1.
Definition Tiny104 : Z := 1.

Definition TimeOut : Z := 1.
Definition HexError : Z := 2.
Definition TooLarge : Z := 3.
Definition Checksum : Z := 4.

(** ** Program state

    [serial] holds the characters that are still to arrive on the serial
    port, in order, as the byte values [Serial.read()] returns; every listed
    character arrives before a timeout can fire, and after the last one
    nothing arrives any more.

    [miso] holds the bytes the SPI peripheral reads back on the transfers
    whose result the firmware keeps (the transfers of [tpi_receive_byte]);
    once the list is used up the line stays idle (0xff).  [mosi] is the
    sequence of bytes clocked out so far, oldest first.

    [adrs], [type], [progSize] and [data] are the firmware's globals. *)

Record state : Type := mkState {
  serial : list Z;
  miso : list Z;
  mosi : list Z;
  adrs : Z;
  type : Z;
  progSize : Z;
  data : list Z
}.

Definition set_serial (v : list Z) (s : state) : state :=
  mkState v (miso s) (mosi s) (adrs s) (type s) (progSize s) (data s).
Definition set_miso (v : list Z) (s : state) : state :=
  mkState (serial s) v (mosi s) (adrs s) (type s) (progSize s) (data s).
Definition set_mosi (v : list Z) (s : state) : state :=
  mkState (serial s) (miso s) v (adrs s) (type s) (progSize s) (data s).
Definition set_adrs (v : Z) (s : state) : state :=
  mkState (serial s) (miso s) (mosi s) v (type s) (progSize s) (data s).
Definition set_type (v : Z) (s : state) : state :=
  mkState (serial s) (miso s) (mosi s) (adrs s) v (progSize s) (data s).
Definition set_progSize (v : Z) (s : state) : state :=
  mkState (serial s) (miso s) (mosi s) (adrs s) (type s) v (data s).
Definition set_data (v : list Z) (s : state) : state :=
  mkState (serial s) (miso s) (mosi s) (adrs s) (type s) (progSize s) v.

(** ** Outcomes of a call

    A call returns ([Ret]), leaves [writeProgram] early with [return false]
    after reporting a failure ([Abort]), or never returns because it spins
    in a busy-wait whose condition can no longer change ([Hang]).
    [OutOfFuel] marks the exhaustion of the recursion bound of a modelled
    loop, and [OutOfBounds] an index outside the 16-byte [data] array. *)

Inductive wait : Type :=
| SerialWait      (* while(Serial.available()<1){} in Sread *)
| StartBitWait.   (* do { b1 = SPI.transfer(0xff); } while (0xff == b1) *)

Inductive failure : Type :=
| ERROR_data (i : Z)
| program_error (byte expected read : Z).

Inductive outcome (A : Type) : Type :=
| Ret (a : A) (s : state)
| Abort (f : failure) (s : state)
| Hang (w : wait) (s : state)
| OutOfBounds (s : state)
| OutOfFuel.

Arguments Ret {A} a s.
Arguments Abort {A} f s.
Arguments Hang {A} w s.
Arguments OutOfBounds {A} s.
Arguments OutOfFuel {A}.

Definition M (A : Type) : Type := state -> outcome A.

Definition ret {A : Type} (a : A) : M A := fun s => Ret a s.

Definition bind {A B : Type} (m : M A) (k : A -> M B) : M B :=
  fun s =>
    match m s with
    | Ret a s' => k a s'
    | Abort f s' => Abort f s'
    | Hang w s' => Hang w s'
    | OutOfBounds s' => OutOfBounds s'
    | OutOfFuel => OutOfFuel
    end.

Notation "x <- m ;; k" := (bind m (fun x => k))
  (at level 61, m at next level, right associativity).
Notation "m ;; k" := (bind m (fun _ => k))
  (at level 61, right associativity).

Definition get {A : Type} (f : state -> A) : M A := fun s => Ret (f s) s.
Definition modify (f : state -> state) : M unit := fun s => Ret tt (f s).
Definition abort {A : Type} (f : failure) : M A := fun s => Abort f s.
Definition hang {A : Type} (w : wait) : M A := fun s => Hang w s.

(** ** SPI peripheral *)

(** [SPI.transfer(x)] where the firmware keeps the byte read back. *)
Definition SPI_transfer (x : Z) : M Z :=
  fun s =>
    Ret (u8 (hd 0xff (miso s)))
        (set_mosi (mosi s ++ [x]) (set_miso (tl (miso s)) s)).

(** [SPI.transfer(x);] as a statement: the byte read back is dropped. *)
Definition SPI_transfer_ (x : Z) : M unit :=
  modify (fun s => set_mosi (mosi s ++ [x]) s).

(** ** Frame codec *)

Definition parity (data : Z) : Z :=
  let par := data in
  let par := Z.lxor par (Z.shiftr par 4) in
  let par := Z.lxor par (Z.shiftr par 2) in
  let par := Z.lxor par (Z.shiftr par 1) in
  par.

(** The two bytes handed to [SPI.transfer] by [tpi_send_byte]. *)
Definition frame_lo (data : Z) : Z := u8 (Z.lor 0x03 (Z.shiftl data 3)).
Definition frame_hi (data : Z) : Z :=
  u8 (Z.lor (Z.lor 0xf0 (Z.shiftl (parity data) 3)) (Z.shiftr data 5)).

Definition tpi_send_byte (data : Z) : M unit :=
  let data := u8 data in
  SPI_transfer_ (frame_lo data) ;;
  SPI_transfer_ (frame_hi data).

(** The [do ... while (0xff == b1)] loop.  Each further turn has used up one
    idle byte of [miso]; when [miso] is used up the line stays idle and the
    loop never ends. *)
Fixpoint wait_start_bit (fuel : nat) : M Z :=
  match fuel with
  | O => hang StartBitWait
  | S n =>
      b1 <- SPI_transfer 0xff ;;
      if 0xff =? b1 then wait_start_bit n else ret b1
  end.

(** The [while (0x7f != b1)] loop. *)
Fixpoint realign (fuel : nat) (b1 b2 : Z) : option Z :=
  match fuel with
  | O => None
  | S n =>
      if 0x7f =? b1 then Some b2
      else
        let b2 := u8 (Z.shiftl b2 1) in
        let b2 := if Z.land 0x80 b1 =? 0 then b2 else Z.lor b2 1 in
        let b1 := u8 (Z.shiftl b1 1) in
        let b1 := Z.lor b1 0x01 in
        realign n b1 b2
  end.

Definition tpi_receive_byte : M Z :=
  fun s =>
    (b1 <- wait_start_bit (length (miso s)) ;;
     b2 <- SPI_transfer 0xff ;;
     (if 0x0f =? Z.land 0x0f b1 then (_ <- SPI_transfer 0xff ;; ret tt) else ret tt) ;;
     match realign 8 b1 b2 with
     | Some b => ret b
     | None => fun _ => OutOfFuel
     end) s.

(** ** Register access layer *)

Fixpoint send_skey_loop (fuel : nat) (nvm_key : Z) : M unit :=
  match fuel with
  | O => fun _ => OutOfFuel
  | S n =>
      if nvm_key =? 0 then ret tt
      else
        tpi_send_byte (Z.land nvm_key 0xFF) ;;
        send_skey_loop n (Z.shiftr nvm_key 8)
  end.

Definition send_skey (nvm_key : Z) : M unit :=
  tpi_send_byte SKEY ;;
  send_skey_loop 9 (u64 nvm_key).

Definition setPointer (address : Z) : M unit :=
  let address := u16 address in
  modify (set_adrs address) ;;
  tpi_send_byte SSTPRL ;;
  tpi_send_byte (Z.land address 0xff) ;;
  tpi_send_byte SSTPRH ;;
  tpi_send_byte (Z.land (Z.shiftr address 8) 0xff).

Definition writeIO (address value : Z) : M unit :=
  tpi_send_byte
    (Z.lor (Z.lor 0x90 (Z.land address 0x0F)) (Z.shiftl (Z.land address 0x30) 1)) ;;
  tpi_send_byte value.

Definition readIO (address : Z) : M Z :=
  tpi_send_byte
    (Z.lor (Z.lor 0x10 (Z.land address 0x0F)) (Z.shiftl (Z.land address 0x30) 1)) ;;
  tpi_receive_byte.

Definition writeCSS (address value : Z) : M unit :=
  tpi_send_byte (Z.lor 0xC0 address) ;;
  tpi_send_byte value.

Definition readCSS (address : Z) : M Z :=
  tpi_send_byte (Z.lor 0x80 address) ;;
  tpi_receive_byte.

(** ** Device identification *)

Definition checkID : M String.string :=
  setPointer 0x3FC0 ;;
  tpi_send_byte SLDp ;;
  id1 <- tpi_receive_byte ;;
  tpi_send_byte SLDp ;;
  id2 <- tpi_receive_byte ;;
  tpi_send_byte SLDp ;;
  id3 <- tpi_receive_byte ;;
  if (id1 =? 0x1E) && (id2 =? 0x8F) && (id3 =? 0x0A) then
    modify (set_type Tiny4_5) ;; ret "ATtiny4"%string
  else if (id1 =? 0x1E) && (id2 =? 0x8F) && (id3 =? 0x09) then
    modify (set_type Tiny4_5) ;; ret "ATtiny5"%string
  else if (id1 =? 0x1E) && (id2 =? 0x90) && (id3 =? 0x08) then
    modify (set_type Tiny9) ;; ret "ATtiny9"%string
  else if (id1 =? 0x1E) && (id2 =? 0x90) && (id3 =? 0x03) then
    modify (set_type Tiny10) ;; ret "ATtiny10"%string
  else if (id1 =? 0x1E) && (id2 =? 0x91) && (id3 =? 0x0f) then
    modify (set_type Tiny20) ;; ret "ATtiny20"%string
  else if (id1 =? 0x1E) && (id2 =? 0x92) && (id3 =? 0x0e) then
    modify (set_type Tiny40) ;; ret "ATtiny40"%string
  else if (id1 =? 0x1E) && (id2 =? 0x90) && (id3 =? 0x0c) then
    modify (set_type Tiny102) ;; ret "ATtiny102"%string
  else if (id1 =? 0x1E) && (id2 =? 0x90) && (id3 =? 0x0b) then
    modify (set_type Tiny104) ;; ret "ATtiny104"%string
  else
    ret "Unknown chip"%string.

(** ** Serial port *)

(** [Sread]: waits for a character without any bound, then returns it as a
    [char]. *)
Definition Sread : M Z :=
  fun s =>
    match serial s with
    | [] => Hang SerialWait s
    | c :: rest => Ret (to_char c) (set_serial rest s)
    end.

(** [while(Serial.available() < 1){ if(millis()-startTime > timeout){
    ERROR_data(TimeOut); return false; } }]: with a character pending the
    loop is not entered; with none ever arriving the elapsed time passes the
    limit. *)
Definition wait_available : M unit :=
  fun s =>
    match serial s with
    | [] => Abort (ERROR_data TimeOut) s
    | _ :: _ => Ret tt s
    end.

(** ** Hex field decoder *)

(** A 16-bit [int] with wrap-around. *)
Definition s16 (x : Z) : Z :=
  let m := u16 x in if m <? 32768 then m else m - 65536.

(** The [do ... while] loop, which stops at the NUL that ends the buffer; the
    buffer is returned as the loop leaves it.  The end of the list stands
    for the end of the array. *)
Fixpoint asciiHexToUShort_loop (str : list Z) (result : Z) : Z * list Z :=
  match str with
  | [] => (result, [])
  | c :: rest =>
      let c :=
        if (48 <=? c) && (c <=? 57) then to_char (c - 48 + 0x0)
        else if (65 <=? c) && (c <=? 70) then to_char (c - 65 + 0xA)
        else c in
      let result := s16 (Z.shiftl result 4 + c) in
      match rest with
      | [] => (result, [c])
      | next :: _ =>
          if next =? 0 then (result, c :: rest)
          else
            let (r, rest') := asciiHexToUShort_loop rest result in
            (r, c :: rest')
      end
  end.

Definition asciiHexToUShort (str : list Z) : Z * list Z :=
  let (result, str') := asciiHexToUShort_loop str 0 in
  (u16 result, str').

(** ** HEX stream loader *)

(** The locals of [writeProgram] that live across the record loop. *)
Record locals : Type := mkLocals {
  temp : list Z;
  addr : list Z;
  checkSum : Z;
  someth : Z;
  currentByte : Z;
  linelength : Z;
  fileEnd : bool
}.

Definition set_temp (v : list Z) (l : locals) : locals :=
  mkLocals v (addr l) (checkSum l) (someth l) (currentByte l) (linelength l) (fileEnd l).
Definition set_checkSum (v : Z) (l : locals) : locals :=
  mkLocals (temp l) (addr l) v (someth l) (currentByte l) (linelength l) (fileEnd l).
Definition set_currentByte (v : Z) (l : locals) : locals :=
  mkLocals (temp l) (addr l) (checkSum l) (someth l) v (linelength l) (fileEnd l).

(** [uint8_t data[16]] *)
Fixpoint upd (n : nat) (v : Z) (l : list Z) : list Z :=
  match l, n with
  | [], _ => []
  | _ :: t, O => v :: t
  | h :: t, S n' => h :: upd n' v t
  end.

Definition data_get (i : Z) : M Z :=
  fun s =>
    if (0 <=? i) && (i <? 16) then Ret (nth (Z.to_nat i) (data s) 0) s
    else OutOfBounds s.

Definition data_set (i v : Z) : M unit :=
  fun s =>
    if (0 <=? i) && (i <? 16) then Ret tt (set_data (upd (Z.to_nat i) v (data s)) s)
    else OutOfBounds s.

(** [while((readIO(NVMCSR) & (1<<7)) != 0x00){}] *)
Fixpoint nvm_busy_wait (fuel : nat) : M unit :=
  match fuel with
  | O => fun _ => OutOfFuel
  | S n =>
      v <- readIO NVMCSR ;;
      if negb (Z.land v (Z.shiftl 1 7) =? 0x00) then nvm_busy_wait n else ret tt
  end.

(** Every turn of the loop that ends uses up a byte of [miso]. *)
Definition nvm_wait : M unit :=
  fun s => nvm_busy_wait (S (length (miso s))) s.

Definition eraseChip : M unit :=
  setPointer 0x4001 ;;
  writeIO NVMCMD NVM_CHIP_ERASE ;;
  tpi_send_byte SSTp ;;
  tpi_send_byte 0xAA ;;
  tpi_send_byte SSTp ;;
  tpi_send_byte 0xAA ;;
  tpi_send_byte SSTp ;;
  tpi_send_byte 0xAA ;;
  tpi_send_byte SSTp ;;
  tpi_send_byte 0xAA ;;
  nvm_wait.

(** [for(int i = 0; i<2 * words; i+=2)], [n] turns left. *)
Fixpoint write_words (n : nat) (i : Z) : M unit :=
  match n with
  | O => ret tt
  | S n' =>
      tpi_send_byte SSTp ;;
      lo <- data_get i ;;
      tpi_send_byte lo ;;
      tpi_send_byte SSTp ;;
      hi <- data_get (i + 1) ;;
      tpi_send_byte hi ;;
      SPI_transfer_ 0xff ;;
      SPI_transfer_ 0xff ;;
      write_words n' (i + 2)
  end.

(** [for (int c = 0; c < 2 * words; c++)], [n] turns left. *)
Fixpoint verify_words (n : nat) (c : Z) : M unit :=
  match n with
  | O => ret tt
  | S n' =>
      tpi_send_byte SLDp ;;
      b <- tpi_receive_byte ;;
      d <- data_get c ;;
      if negb (b =? d) then
        a <- get adrs ;;
        abort (program_error a d b)
      else verify_words n' (c + 1)
  end.

(** The body of [if( currentByte == 2 * words )]. *)
Definition program_group (words : Z) (l : locals) : M locals :=
  let l := set_currentByte 0 l in
  a <- get adrs ;;
  setPointer a ;;
  writeIO NVMCMD NVM_WORD_WRITE ;;
  write_words (Z.to_nat words) 0 ;;
  nvm_wait ;;
  writeIO NVMCMD NVM_NOP ;;
  SPI_transfer_ 0xff ;;
  SPI_transfer_ 0xff ;;
  a <- get adrs ;;
  setPointer a ;;
  verify_words (Z.to_nat (2 * words)) 0 ;;
  modify (fun s => set_adrs (u16 (adrs s + 2 * words)) s) ;;
  ret l.

(** [while(currentByte < 2 * words)] appending zeros. *)
Fixpoint pad_group (fuel : nat) (words : Z) (l : locals) : M locals :=
  if currentByte l <? 2 * words then
    match fuel with
    | O => fun _ => OutOfFuel
    | S n =>
        data_set (currentByte l) 0 ;;
        pad_group n words (set_currentByte (u16 (currentByte l + 1)) l)
    end
  else ret l.

(** [char words = (type!=Tiny4_5?type:1);] *)
Definition words_of (type : Z) : Z :=
  if negb (type =? Tiny4_5) then type else 1.

(** [(type!=Tiny4_5?type*1024:512)] *)
Definition capacity (type : Z) : Z :=
  if negb (type =? Tiny4_5) then type * 1024 else 512.

(** The body of [for(int k=0; k<linelength; k++)] (lines 578-645): one
    data byte. *)
Definition data_byte (words : Z) (l : locals) : M locals :=
  wait_available ;;
  t0 <- Sread ;;
  t1 <- Sread ;;
  let (v, temp') := asciiHexToUShort [t0; t1; 0] in
  data_set (currentByte l) (u8 v) ;;
  d <- data_get (currentByte l) ;;
  let l :=
    mkLocals temp' (addr l) (u8 (checkSum l + d)) (someth l)
             (u16 (currentByte l + 1)) (linelength l) (fileEnd l) in
  modify (fun s => set_progSize (u16 (progSize s + 1)) s) ;;
  size <- get progSize ;;
  ty <- get type ;;
  if size >? capacity ty then abort (ERROR_data TooLarge)
  else
    l <- (if fileEnd l then pad_group (Z.to_nat (2 * words)) words l else ret l) ;;
    if currentByte l =? 2 * words then program_group words l else ret l.

(** [for(int k=0; k<linelength; k++)], [n] turns left. *)
Fixpoint read_data (n : nat) (words : Z) (l : locals) : M locals :=
  match n with
  | O => ret l
  | S n' =>
      l <- data_byte words l ;;
      read_data n' words l
  end.

(** [for (int i = 0; i<=linelength; i++)] of a type-2 record, [n] turns
    left (lines 568-572). *)
Fixpoint skip_record (n : nat) (l : locals) : M locals :=
  match n with
  | O => ret l
  | S n' =>
      t0 <- Sread ;;
      t1 <- Sread ;;
      let (v, temp') := asciiHexToUShort [t0; t1; 0] in
      skip_record n' (set_checkSum (u8 (checkSum l + v)) (set_temp temp' l))
  end.

(** The AVR instructions of the inline assembly: [com] is the one's
    complement of a register, [inc] adds one. *)
Definition com (r : Z) : Z := u8 (0xFF - r).
Definition inc (r : Z) : Z := u8 (r + 1).

(** Lines 648-675: the checksum field and its check. *)
Definition read_checksum (l : locals) : M locals :=
  wait_available ;;
  t0 <- Sread ;;
  t1 <- Sread ;;
  let checkSum' := inc (com (checkSum l)) in
  let (v, temp') := asciiHexToUShort [t0; t1; 0] in
  let someth' := u8 v in
  let l :=
    mkLocals temp' (addr l) checkSum' someth' (currentByte l) (linelength l)
             (fileEnd l) in
  if negb (checkSum' =? someth') then abort (ERROR_data Checksum) else ret l.

(** Lines 535-540: the colon that starts a record, after at most one other
    character. *)
Definition expect_colon : M unit :=
  c <- Sread ;;
  if negb (c =? 58) then
    c' <- Sread ;;
    if negb (c' =? 58) then abort (ERROR_data HexError) else ret tt
  else ret tt.

(** Lines 541-565: the length, address and type fields. *)
Definition read_fields (l : locals) : M locals :=
  t0 <- Sread ;;
  t1 <- Sread ;;
  let (v, _) := asciiHexToUShort [t0; t1; 0] in
  let linelength' := u8 v in
  let checkSum' := linelength' in
  a0 <- Sread ;;
  a1 <- Sread ;;
  let (v, _) := asciiHexToUShort [a0; a1; 0] in
  let checkSum' := u8 (checkSum' + v) in
  a2 <- Sread ;;
  a3 <- Sread ;;
  let (v, _) := asciiHexToUShort [a2; a3; 0] in
  let checkSum' := u8 (checkSum' + v) in
  let (v, addr') := asciiHexToUShort [a0; a1; a2; a3; 0] in
  modify (set_adrs (u16 (v + 0x4000))) ;;
  a <- get adrs ;;
  let currentByte' :=
    if negb (linelength' =? 0x00) && (a =? 0x4000) then 0 else currentByte l in
  t0 <- Sread ;;
  t1 <- Sread ;;
  let (v, temp') := asciiHexToUShort [t0; t1; 0] in
  let someth' := u8 v in
  let checkSum' := u8 (checkSum' + someth') in
  let fileEnd' := if someth' =? 1 then true else fileEnd l in
  ret (mkLocals temp' addr' checkSum' someth' currentByte' linelength' fileEnd').

(** Lines 526-565: the start of a record up to its type field. *)
Definition read_header (l : locals) : M locals :=
  wait_available ;;
  expect_colon ;;
  read_fields l.

(** One turn of [while(!fileEnd)]. *)
Definition read_record (words : Z) (l : locals) : M locals :=
  l <- read_header l ;;
  if someth l =? 2 then skip_record (Z.to_nat (linelength l + 1)) l
  else
    l <- read_data (Z.to_nat (linelength l)) words l ;;
    read_checksum l.

(** [while(!fileEnd)]: every turn that ends reads at least one character. *)
Fixpoint record_loop (fuel : nat) (words : Z) (l : locals) : M locals :=
  if fileEnd l then ret l
  else
    match fuel with
    | O => fun _ => OutOfFuel
    | S n =>
        l <- read_record words l ;;
        record_loop n words l
    end.

Definition writeProgram_locals : locals :=
  mkLocals [48; 48; 0] [48; 48; 48; 48; 0] 0 0 0 0 false.

(** [writeProgram] returns [true] on success; every [return false] is an
    [Abort]. *)
Definition writeProgram : M bool :=
  modify (set_progSize 0) ;;
  eraseChip ;;
  ty <- get type ;;
  let words := words_of ty in
  n <- get (fun s => length (serial s)) ;;
  record_loop (S n) words writeProgram_locals ;;
  ret true.

(** ** Characters, hex digits and records, for stating properties *)

Definition chars (str : String.string) : list Z :=
  map (fun a => Z.of_nat (Ascii.nat_of_ascii a)) (String.list_ascii_of_string str).

Arguments chars str%_string.

(** ** The line seen from the receiver

    A TPI frame is 1 start bit (0), 8 data bits least significant first,
    1 parity bit and 2 stop bits (1); the idle line is 1.  SPI runs
    LSB first, so bit [i] of transfer [k] is bit [8k+i] of the line. *)

Definition bit (x : Z) (i : nat) : bool := Z.testbit x (Z.of_nat i).

Definition even_parity (d : Z) : bool :=
  fold_right xorb false (map (bit d) (seq 0 8)).

Definition frame_bits (d : Z) : list bool :=
  false :: map (bit d) (seq 0 8) ++ [even_parity d; true; true].

Definition transfer_at (line : list bool) (k : nat) : Z :=
  fold_right (fun i acc => (if nth (8 * k + i) line true then 1 else 0) + 2 * acc)
             0 (seq 0 8).

Definition capture (n : nat) (line : list bool) : list Z :=
  map (transfer_at line) (seq 0 n).

(** [gap] idle bits, then the frame of [d]. *)
Definition line (gap : nat) (d : Z) : list bool :=
  repeat true gap ++ frame_bits d.

(** The transfers [tpi_receive_byte] completes while the target sends [d]
    after [gap] idle bits: the all-idle ones, the one with the start bit,
    the next one, and a third one when the start bit came in the upper half. *)
Definition answer (gap : nat) (d : Z) : list Z :=
  capture (gap / 8 + (if gap mod 8 <? 4 then 2 else 3))%nat (line gap d).

(** The SPI bytes of a sequence of frames sent with [tpi_send_byte]. *)
Definition frames (l : list Z) : list Z :=
  flat_map (fun d => [frame_lo (u8 d); frame_hi (u8 d)]) l.

(** ** Auxiliary definitions for the statements *)

(** What [tpi_receive_byte] does once the start bit shows up. *)
Definition received (b1 b2 : Z) (m : list Z) (s : state) : outcome Z :=
  match realign 8 b1 b2 with
  | Some b =>
      if 0x0f =? Z.land 0x0f b1
      then Ret b (set_mosi (mosi s ++ [0xff; 0xff; 0xff]) (set_miso (tl m) s))
      else Ret b (set_mosi (mosi s ++ [0xff; 0xff]) (set_miso m s))
  | None => OutOfFuel
  end.

(** The start bit in each of the eight positions of a transfer. *)
Definition answer_check (g : nat) (d : Z) : bool :=
  match answer g d with
  | [b1; b2] =>
      (0 <=? b1) && (b1 <? 255) && (0 <=? b2) && (b2 <? 256)
      && negb (0x0f =? Z.land 0x0f b1)
      && match realign 8 b1 b2 with Some b => b =? d | None => false end
  | [b1; b2; b3] =>
      (0 <=? b1) && (b1 <? 255) && (0 <=? b2) && (b2 <? 256)
      && (0x0f =? Z.land 0x0f b1)
      && match realign 8 b1 b2 with Some b => b =? d | None => false end
  | _ => false
  end.

(** The value a call returns, if it returns. *)
Definition returned {A : Type} (o : outcome A) : option A :=
  match o with
  | Ret a _ => Some a
  | _ => None
  end.

(** The number of data bits that are set. *)
Definition weight (d : Z) : nat :=
  length (filter (fun b : bool => b) (map (bit d) (seq 0 8))).

(** For one byte: the two transfers of [tpi_send_byte] are the frame as the
    line carries it, and the parity bit is the even parity of the data. *)
Definition encoder_check (d : Z) : bool :=
  match answer 2 d with
  | [lo; hi] => (lo =? frame_lo d) && (hi =? frame_hi d)
  | _ => false
  end
  && Bool.eqb (Z.testbit (frame_hi d) 3) (even_parity d)
  && Nat.even (weight d + Nat.b2n (Z.testbit (frame_hi d) 3)).

(** The [n] low bytes of [key], least significant first. *)
Definition le_bytes (n : nat) (key : Z) : list Z :=
  map (fun i => Z.land (Z.shiftr key (8 * Z.of_nat i)) 0xFF) (seq 0 n).

(** The claim of the key sequence for one key: the key opcode, then the
    eight key bytes, least significant first. *)
Definition emits_eight_key_bytes (key : Z) : Prop :=
  forall s : state,
    send_skey key s =
    Ret tt (set_mosi (mosi s ++ frames (SKEY :: le_bytes 8 key)) s).

(** The table of known signatures: name printed and [type] selected. *)
Definition signatures : list (Z * Z * Z * (String.string * Z)) :=
  [ (0x1E, 0x8F, 0x0A, ("ATtiny4"%string, Tiny4_5));
    (0x1E, 0x8F, 0x09, ("ATtiny5"%string, Tiny4_5));
    (0x1E, 0x90, 0x08, ("ATtiny9"%string, Tiny9));
    (0x1E, 0x90, 0x03, ("ATtiny10"%string, Tiny10));
    (0x1E, 0x91, 0x0f, ("ATtiny20"%string, Tiny20));
    (0x1E, 0x92, 0x0e, ("ATtiny40"%string, Tiny40));
    (0x1E, 0x90, 0x0c, ("ATtiny102"%string, Tiny102));
    (0x1E, 0x90, 0x0b, ("ATtiny104"%string, Tiny104)) ].

(** The name and the type of the table's first entry with these three
    signature bytes. *)
Definition lookup_signature (id1 id2 id3 : Z) : option (String.string * Z) :=
  option_map snd
    (find (fun e => let '(a, b, c, _) := e in (id1 =? a) && (id2 =? b) && (id3 =? c))
          signatures).

(** What [asciiHexToUShort] makes of one character: the digit value of
    '0'-'9' and 'A'-'F', the character code itself otherwise. *)
Definition digit_value (c : Z) : Z :=
  if (48 <=? c) && (c <=? 57) then c - 48
  else if (65 <=? c) && (c <=? 70) then c - 55
  else c.

(** The value decoded from two received characters. *)
Definition hex_field (c0 c1 : Z) : Z :=
  fst (asciiHexToUShort [to_char c0; to_char c1; 0]).

(** The value decoded from the four address characters. *)
Definition addr_field (a0 a1 a2 a3 : Z) : Z :=
  fst (asciiHexToUShort [to_char a0; to_char a1; to_char a2; to_char a3; 0]).

(** The locals after the header of a record whose fields are the
    characters [t0 t1] (length), [a0 a1 a2 a3] (address) and [y0 y1] (type). *)
Definition header_locals (l : locals) (t0 t1 a0 a1 a2 a3 y0 y1 : Z) : locals :=
  let len := u8 (hex_field t0 t1) in
  let ty := u8 (hex_field y0 y1) in
  mkLocals (snd (asciiHexToUShort [to_char y0; to_char y1; 0]))
           (snd (asciiHexToUShort [to_char a0; to_char a1; to_char a2; to_char a3; 0]))
           (u8 (u8 (u8 (len + hex_field a0 a1) + hex_field a2 a3) + ty))
           ty
           (if negb (len =? 0x00) && (u16 (addr_field a0 a1 a2 a3 + 0x4000) =? 0x4000)
            then 0 else currentByte l)
           len
           (if ty =? 1 then true else fileEnd l).

(** An outcome other than the hex file format error. *)
Definition hex_error_free {A : Type} (o : outcome A) : Prop :=
  match o with
  | Abort (ERROR_data i) _ => i <> HexError
  | _ => True
  end.

(** The serial stream, the device type, the byte count and the data
    buffer are the same in both states. *)
Definition host_same (s s' : state) : Prop :=
  serial s' = serial s /\ type s' = type s /\ progSize s' = progSize s
  /\ data s' = data s.

(** A call that, when it returns, has touched the SPI link and the pointer
    mirror only. *)
Definition link_only {A : Type} (m : M A) : Prop :=
  forall s a s', m s = Ret a s' -> host_same s s'.

(** The characters of a sequence of two-character fields. *)
Definition field_chars (fields : list (Z * Z)) : list Z :=
  flat_map (fun f => [fst f; snd f]) fields.

(** The sum of the values decoded from a sequence of fields. *)
Definition fields_sum (fields : list (Z * Z)) : Z :=
  fold_right (fun f acc => hex_field (fst f) (snd f) + acc) 0 fields.

(** The character of a hex digit, upper case. *)
Definition hex_digit (n : Z) : Z := if n <? 10 then 48 + n else 55 + n.

(** The two characters of a byte. *)
Definition hex2 (b : Z) : list Z := [hex_digit (b / 16); hex_digit (b mod 16)].

(** The fields of a sequence of bytes. *)
Definition hex_fields (bytes : list Z) : list (Z * Z) :=
  map (fun b => (hex_digit (b / 16), hex_digit (b mod 16))) bytes.

(** The sum of the bytes of a record: length, address high, address low,
    type and payload. *)
Definition record_sum (len off ty : Z) (payload : list Z) : Z :=
  len + off / 256 + off mod 256 + ty + fold_right Z.add 0 payload.

(** The portable two's complement, [(~sum + 1) & 0xFF]. *)
Definition twos_complement (sum : Z) : Z := Z.land (Z.lnot sum + 1) 0xFF.

(** The characters of a record with the given length field, address, type,
    payload and checksum field. *)
Definition record_chars (len off ty : Z) (payload : list Z) (ck : Z) : list Z :=
  58 :: hex2 len ++ hex2 (off / 256) ++ hex2 (off mod 256) ++ hex2 ty
     ++ flat_map hex2 payload ++ hex2 ck.

(** A record whose length field and checksum are right. *)
Definition valid_record (off ty : Z) (payload : list Z) : list Z :=
  record_chars (Z.of_nat (length payload)) off ty payload
    (twos_complement (record_sum (Z.of_nat (length payload)) off ty payload)).

(** The claim for the records of type [ty]: the payload is read, nothing
    of it reaches the buffer, the byte count or the target. *)
Definition payload_skipped (ty : Z) : Prop :=
  forall (words : Z) (l : locals) (s : state) (off : Z) (payload rest : list Z),
    0 <= off < 65536 ->
    Forall (fun b => 0 <= b < 256) payload ->
    (length payload < 256)%nat ->
    serial s = valid_record off ty payload ++ rest ->
    exists l' s',
      read_record words l s = Ret l' s'
      /\ serial s' = rest /\ miso s' = miso s /\ mosi s' = mosi s
      /\ data s' = data s /\ progSize s' = progSize s.

(** For one byte: its two hex digits are read back as the byte. *)
Definition hex_check (b : Z) : bool :=
  (hex_field (hex_digit (b / 16)) (hex_digit (b mod 16)) =? b).

(** Nothing, or one character that is not a colon, before a record. *)
Definition stray (lead : list Z) : Prop :=
  lead = [] \/ exists c, lead = [c] /\ to_char c <> 58.

(** For two bytes: their four hex digits are read back as the 16-bit
    value. *)
Definition addr_check (hi lo : Z) : bool :=
  addr_field (hex_digit (hi / 16)) (hex_digit (hi mod 16))
             (hex_digit (lo / 16)) (hex_digit (lo mod 16)) =? 256 * hi + lo.

(** The locals after the header of a record given by its values. *)
Definition record_locals (l : locals) (len off ty : Z) (t a : list Z) : locals :=
  mkLocals t a (u8 (len + off / 256 + off mod 256 + ty)) ty
           (if negb (len =? 0x00) && (off =? 0) then 0 else currentByte l)
           len
           (if ty =? 1 then true else fileEnd l).

(** A record up to its checksum field: the header and the data bytes. *)
Definition read_to_checksum (words : Z) (l : locals) : M locals :=
  l <- read_header l ;;
  read_data (Z.to_nat (linelength l)) words l.

(** The claim for the records of type [ty]: after such a record loading
    goes on only if its checksum field is the two's complement of the sum
    of its bytes. *)
Definition checksum_decides (ty : Z) : Prop :=
  forall (words : Z) (l l' : locals) (s s' : state) (off : Z)
         (payload : list Z) (ck : Z) (rest : list Z),
    0 <= off < 65536 ->
    Forall (fun b => 0 <= b < 256) payload ->
    (length payload < 256)%nat ->
    0 <= ck < 256 ->
    length (data s) = 16%nat ->
    serial s = record_chars (Z.of_nat (length payload)) off ty payload ck ++ rest ->
    read_record words l s = Ret l' s' ->
    ck = twos_complement (record_sum (Z.of_nat (length payload)) off ty payload).

(** The claim for a stream that stops after the characters [received] of a
    record: loading aborts with the timeout error. *)
Definition stall_times_out (received : list Z) : Prop :=
  forall (words : Z) (l : locals) (s : state),
    serial s = received ->
    exists s', read_record words l s = Abort (ERROR_data TimeOut) s'.

(** The answers of a target to the polls of the busy bit: the statuses
    [busy], which have the bit set, then a status with the bit clear. *)
Definition status_answers (gap : nat) (busy : list Z) : list Z :=
  flat_map (answer gap) busy ++ answer gap 0.

(** A status with the busy bit (bit 7) set. *)
Definition busy_status (b : Z) : Prop := 128 <= b < 256.

(** The answers of a target that programs a group: the statuses while it
    is busy and when it is done, then the bytes of the group as they are
    loaded back. *)
Definition group_answers (gap : nat) (busy grp : list Z) : list Z :=
  status_answers gap busy ++ flat_map (answer gap) grp.

(** The answers of the target during a run of data bytes, and the bytes
    left in the buffer after it: [acc] holds the bytes of the group being
    filled, a group has [G] bytes. *)
Fixpoint bytes_answers (gap : nat) (busy : list Z) (G : nat) (acc bytes : list Z)
  : list Z * list Z :=
  match bytes with
  | [] => ([], acc)
  | b :: bytes' =>
      if (length (acc ++ [b]) =? G)%nat then
        let (m, a) := bytes_answers gap busy G [] bytes' in
        (group_answers gap busy (acc ++ [b]) ++ m, a)
      else bytes_answers gap busy G (acc ++ [b]) bytes'
  end.

(** Between two data bytes, before the end-of-file record: the buffer
    holds the bytes [acc] of the group being filled. *)
Definition loader_inv (G : nat) (l : locals) (s : state) (acc : list Z) : Prop :=
  fileEnd l = false
  /\ currentByte l = Z.of_nat (length acc)
  /\ firstn (length acc) (data s) = acc
  /\ (length acc < G)%nat
  /\ length (data s) = 16%nat
  /\ Forall (fun b => 0 <= b < 256) acc.

(** The bytes in the buffer when the data of a record start: a record with
    data at offset 0 starts the buffer afresh. *)
Definition record_acc (acc : list Z) (off : Z) (payload : list Z) : list Z :=
  if negb (Z.of_nat (length payload) =? 0x00) && (off =? 0) then [] else acc.

(** The end-of-file record, ":00000001FF". *)
Definition eof_record : list Z := record_chars 0 0 1 [] 0xFF.

(** The data records [recs], given as offset and payload, each followed by
    the line end [nl]. *)
Definition hex_lines (nl : list Z) (recs : list (Z * list Z)) : list Z :=
  flat_map (fun r => valid_record (fst r) 0 (snd r) ++ nl) recs.

(** The number of data bytes of the records. *)
Definition total_bytes (recs : list (Z * list Z)) : Z :=
  Z.of_nat (length (concat (map snd recs))).

(** The answers of the target during the records. *)
Fixpoint records_answers (gap : nat) (busy : list Z) (G : nat) (acc : list Z)
         (recs : list (Z * list Z)) : list Z :=
  match recs with
  | [] => []
  | (off, payload) :: recs' =>
      let (m, acc') := bytes_answers gap busy G (record_acc acc off payload) payload in
      m ++ records_answers gap busy G acc' recs'
  end.

(** A record the loader is meant for: a 16-bit offset and at most 255
    bytes. *)
Definition data_record_ok (r : Z * list Z) : Prop :=
  0 <= fst r < 65536
  /\ (length (snd r) < 256)%nat
  /\ Forall (fun b => 0 <= b < 256) (snd r).

(** A file of 32 records of 16 bytes, the 512 bytes of an ATtiny4/5. *)
Definition file512 : list (Z * list Z) :=
  map (fun i => (16 * Z.of_nat i, repeat (Z.of_nat i) 16)) (seq 0 32).

(** [file512] and one more record of one byte. *)
Definition file513 : list (Z * list Z) := file512 ++ [(0x200, [0xAB])].

(** A programming session of an ATtiny4/5: the file on the serial port,
    each line ended by a line feed, and a target that answers every poll
    busy twice before it is ready. *)
Definition session (recs : list (Z * list Z)) : state :=
  mkState (hex_lines [10] recs ++ eof_record ++ [])
          (status_answers 1 [0x80; 0xC1]
             ++ records_answers 1 [0x80; 0xC1] (Z.to_nat (2 * words_of Tiny4_5)) [] recs
             ++ [])
          [] 0 Tiny4_5 0 (repeat 0xFF 16).

(** A call that does not reach its recursion bound and, when it returns,
    has not lengthened what is still to come on the serial port and on the
    SPI link. *)
Definition bounded {A : Type} (m : M A) : Prop :=
  forall s,
    m s <> OutOfFuel
    /\ forall a s', m s = Ret a s' ->
                    (length (serial s') <= length (serial s))%nat
                    /\ (length (miso s') <= length (miso s))%nat.

(** For one first transfer other than 0xff: [realign] finds the start bit
    within its eight steps and returns a byte, whatever the second
    transfer is. *)
Definition realign_check (b1 : Z) : bool :=
  (b1 =? 0xff)
  || forallb (fun i => match realign 8 b1 (Z.of_nat i) with
                       | Some b => (0 <=? b) && (b <? 256)
                       | None => false
                       end) (seq 0 256).

(** For one status: bit 7 set makes the test of [nvm_busy_wait] true. *)
Definition busy_check (b : Z) : bool :=
  (b <? 128) || negb (Z.land b (Z.shiftl 1 7) =? 0x00).

(** A line on which the target never pulls a start bit: every transfer
    still to come reads back idle. *)
Definition silent (s : state) : Prop := Forall (fun b => b = 0xff) (miso s).

(** The opcode of the SOUT instruction for an I/O address, as [writeIO]
    forms it. *)
Definition SOUT (address : Z) : Z :=
  Z.lor (Z.lor 0x90 (Z.land address 0x0F)) (Z.shiftl (Z.land address 0x30) 1).

(** The opcode of the SIN instruction for an I/O address, as [readIO]
    forms it. *)
Definition SIN (address : Z) : Z :=
  Z.lor (Z.lor 0x10 (Z.land address 0x0F)) (Z.shiftl (Z.land address 0x30) 1).

(** For one address byte: the opcodes carry the low six address bits in
    bits 6, 5, 3, 2, 1 and 0, bit 4 is set, bit 7 tells SOUT from SIN and
    the two high address bits are dropped. *)
Definition opcode_check (a : Z) : bool :=
  (SOUT a =? 0x90 + 32 * (a mod 64 / 16) + a mod 64 mod 16)
  && (SIN a =? 0x10 + 32 * (a mod 64 / 16) + a mod 64 mod 16).

(** The line when the target sends the data bits of [d] with the parity
    bit [p] and the stop bits [s1] and [s2] after [gap] idle bits. *)
Definition line_with (gap : nat) (d : Z) (p s1 s2 : bool) : list bool :=
  repeat true gap ++ false :: map (bit d) (seq 0 8) ++ [p; s1; s2].

(** The transfers [tpi_receive_byte] completes on such a line. *)
Definition answer_with (gap : nat) (d : Z) (p s1 s2 : bool) : list Z :=
  capture (gap / 8 + (if gap mod 8 <? 4 then 2 else 3))%nat (line_with gap d p s1 s2).

(** For one position of the start bit and one byte: the byte comes back
    with every parity bit and every pair of stop bits. *)
Definition answer_with_check (g : nat) (d : Z) : bool :=
  forallb (fun p => forallb (fun s1 => forallb (fun s2 =>
    match answer_with g d p s1 s2 with
    | [b1; b2] =>
        (0 <=? b1) && (b1 <? 255) && (0 <=? b2) && (b2 <? 256)
        && negb (0x0f =? Z.land 0x0f b1)
        && match realign 8 b1 b2 with Some b => b =? d | None => false end
    | [b1; b2; b3] =>
        (0 <=? b1) && (b1 <? 255) && (0 <=? b2) && (b2 <? 256)
        && (0x0f =? Z.land 0x0f b1)
        && match realign 8 b1 b2 with Some b => b =? d | None => false end
    | _ => false
    end) [false; true]) [false; true]) [false; true].

(** An outcome other than an index outside [data]. *)
Definition in_bounds {A : Type} (o : outcome A) : Prop :=
  match o with
  | OutOfBounds _ => False
  | _ => True
  end.

(** A call that stays inside [data] and, when it returns, has left the
    device type and the byte count as they were. *)
Definition tidy {A : Type} (m : M A) : Prop :=
  forall s,
    in_bounds (m s)
    /\ forall a s', m s = Ret a s' -> type s' = type s /\ progSize s' = progSize s.

(** No device identified, no byte counted: [type] is still zero, as the
    start-up code leaves it. *)
Definition unknown (s : state) : Prop := type s = 0 /\ progSize s = 0.

(** The SPI bytes of setting the pointer to [a]. *)
Definition pointer_frames (a : Z) : list Z :=
  frames [SSTPRL; Z.land a 0xff; SSTPRH; Z.land (Z.shiftr a 8) 0xff].

(** The SPI bytes of the words of a group as [write_words] sends them: per
    word two stores with post-increment, low byte first, and two idle
    bytes. *)
Fixpoint word_frames (grp : list Z) : list Z :=
  match grp with
  | lo :: hi :: rest => frames [SSTp; lo; SSTp; hi] ++ [0xff; 0xff] ++ word_frames rest
  | _ => []
  end.

(** The SPI bytes of reading the I/O register [address] once per status
    in [sts], the target answering after [gap] idle bits. *)
Definition polls (address : Z) (gap : nat) (sts : list Z) : list Z :=
  flat_map (fun v => frames [SIN address] ++ repeat 0xff (length (answer gap v))) sts.

(** The SPI bytes of loading the bytes [bytes] with post-increment. *)
Definition loads (gap : nat) (bytes : list Z) : list Z :=
  flat_map (fun b => frames [SLDp] ++ repeat 0xff (length (answer gap b))) bytes.

(** The SPI bytes of the chip erase up to its status polls. *)
Definition erase_frames : list Z :=
  pointer_frames 0x4001
    ++ frames [SOUT NVMCMD; NVM_CHIP_ERASE;
               SSTp; 0xAA; SSTp; 0xAA; SSTp; 0xAA; SSTp; 0xAA].

(** The SPI bytes of programming and verifying the group [grp] at the
    address [a]. *)
Definition group_frames (gap : nat) (busy : list Z) (a : Z) (grp : list Z) : list Z :=
  pointer_frames a
    ++ frames [SOUT NVMCMD; NVM_WORD_WRITE]
    ++ word_frames grp
    ++ polls NVMCSR gap (busy ++ [0])
    ++ frames [SOUT NVMCMD; NVM_NOP] ++ [0xff; 0xff]
    ++ pointer_frames a
    ++ loads gap grp.

(** The levels of a pin, as [Arduino.h] defines them. *)
Definition HIGH : Z := 0x1.
Definition LOW : Z := 0x0.

(** [#define HVReset 9] *)
Definition HVReset : Z := 9.

(** [const char SSN = LOW;] *)
Definition SSN : Z := LOW.

(** A pin by its number, or the slave-select pin [SS] of the board. *)
Inductive pin : Type :=
| Pin (n : Z)
| SS.

(** What the firmware does to the console, the pins and the set-up of the
    SPI peripheral, one constructor per call.  The text of a message is
    given by its characters; [Serial_println []] is [Serial.println()]. *)
Inductive event : Type :=
| Serial_print (text : list Z)
| Serial_println (text : list Z)
| Serial_print_HEX (n : Z)
| digitalWrite (p : pin) (val : Z)
| delay (ms : Z)
| SPI_begin
| SPI_setBitOrder_LSBFIRST
| SPI_setDataMode_SPI_MODE0
| SPI_setClockDivider_SPI_CLOCK_DIV32
| SPI_end
| DDRB_and (mask : Z)
| PORTB_and (mask : Z).

(** The logical negation of C. *)
Definition not_ (x : Z) : Z := if x =? 0 then 1 else 0.

(** [hvReset]: the calls of [digitalWrite] it makes, for the settings
    [HVP] and [HVON].  The write to [SS] follows the [if] and its [else]:
    it is made on both paths. *)
Definition hvReset (HVP HVON highLow : Z) : list event :=
  let (writes, highLow) :=
    if negb (HVP =? 0) then
      let highLow := if negb (HVON =? 0) then not_ highLow else highLow in
      ([digitalWrite (Pin HVReset) highLow], highLow)
    else
      ([], if negb (SSN =? 0) then not_ highLow else highLow) in
  writes ++ [digitalWrite SS highLow].

Definition quickReset (HVP HVON : Z) : list event :=
  [Serial_println (chars "Reset.")]
    ++ hvReset HVP HVON HIGH
    ++ [delay 1]
    ++ hvReset HVP HVON LOW
    ++ [delay 10]
    ++ hvReset HVP HVON HIGH.

(** The [for] loop of [outHex], [count] counting down: a zero is printed
    for every leading nibble that is zero. *)
Fixpoint outHex_zeros (fuel : nat) (n count : Z) : list event :=
  match fuel with
  | O => []
  | S fuel' =>
      if count >? 0 then
        if Z.land (Z.shiftr n (count * 4)) 0x0f =? 0 then
          Serial_print (chars "0") :: outHex_zeros fuel' n (to_char (count - 1))
        else []
      else []
  end.

(** [outHex(n, l)]: [n] is an [unsigned int], [l] and the counter are
    [char]s, so the loop makes fewer than 128 turns. *)
Definition outHex (n l : Z) : list event :=
  outHex_zeros 128 (u16 n) (to_char (l - 1)) ++ [Serial_print_HEX (u16 n)].

(** The characters [Serial.print(n, HEX)] writes: the digits of [n] in
    base 16, upper case, most significant first and without leading
    zeros, one digit for zero. *)
Fixpoint hex_digits (fuel : nat) (n : Z) (acc : list Z) : list Z :=
  match fuel with
  | O => acc
  | S fuel' =>
      let acc := hex_digit (n mod 16) :: acc in
      if n / 16 =? 0 then acc else hex_digits fuel' (n / 16) acc
  end.

(** The characters an event puts on the console; [println] ends the line
    with a carriage return and a line feed. *)
Definition written (e : event) : list Z :=
  match e with
  | Serial_print text => text
  | Serial_println text => text ++ [13; 10]
  | Serial_print_HEX n => hex_digits 16 n []
  | _ => []
  end.

Definition console (log : list event) : list Z := flat_map written log.

(** A call that uses the link and the console takes the events so far and
    gives them back with its own added. *)
Definition P (A : Type) : Type := list event -> M (A * list event).

Definition retP {A : Type} (a : A) : P A := fun log => ret (a, log).

Definition bindP {A B : Type} (m : P A) (k : A -> P B) : P B :=
  fun log => bind (m log) (fun r => k (fst r) (snd r)).

Definition lift {A : Type} (m : M A) : P A :=
  fun log => bind m (fun a => ret (a, log)).

Definition emit (evs : list event) : P unit := fun log => ret (tt, log ++ evs).

Declare Scope board_scope.
Delimit Scope board_scope with board.

Notation "x <- m ;; k" := (bindP m (fun x => k))
  (at level 61, m at next level, right associativity) : board_scope.
Notation "m ;; k" := (bindP m (fun _ => k))
  (at level 61, right associativity) : board_scope.

(** [while((readCSS(0x00) & 0x02) < 1){}]: every turn that ends uses up a
    byte of [miso]. *)
Fixpoint nvm_enable_wait (fuel : nat) : M unit :=
  match fuel with
  | O => fun _ => OutOfFuel
  | S n =>
      v <- readCSS 0x00 ;;
      if Z.land v 0x02 <? 1 then nvm_enable_wait n else ret tt
  end.

Definition start_tpi (HVP HVON : Z) : P unit :=
  (emit [Serial_println (chars "Initializing...");
         SPI_begin;
         SPI_setBitOrder_LSBFIRST;
         SPI_setDataMode_SPI_MODE0;
         SPI_setClockDivider_SPI_CLOCK_DIV32] ;;
   emit (hvReset HVP HVON LOW) ;;
   emit [delay 1] ;;
   lift (SPI_transfer_ 0xff) ;;
   lift (SPI_transfer_ 0xff) ;;
   lift (SPI_transfer_ 0xff) ;;
   lift (writeCSS 0x02 0x04) ;;
   lift (send_skey NVM_PROGRAM_ENABLE) ;;
   lift (fun s => nvm_enable_wait (S (length (miso s))) s) ;;
   emit [Serial_println (chars "NVM enabled")])%board.

Definition finish (HVP HVON : Z) : P unit :=
  (lift (writeCSS 0x00 0x00) ;;
   lift (SPI_transfer_ 0xff) ;;
   lift (SPI_transfer_ 0xff) ;;
   emit (hvReset HVP HVON HIGH) ;;
   emit [delay 1; SPI_end; DDRB_and 0xC3; PORTB_and 0xC3])%board.

(** The two boxes of [dumpConfig]: a fuse is shown ticked when its bit
    is zero. *)
Definition box_empty : list Z := [10] ++ chars "  [ ] ".
Definition box_ticked : list Z := [10] ++ chars "  [" ++ [0xE2; 0x88; 0x9A] ++ chars "] ".

(** The three fuses as [dumpConfig] prints them for the configuration
    byte [b]. *)
Definition config_flags (b : Z) : list event :=
  [Serial_print (if negb (Z.land b 0x04 =? 0) then box_empty else box_ticked);
   Serial_print (chars "Output clock to PB2");
   Serial_print (if negb (Z.land b 0x02 =? 0) then box_empty else box_ticked);
   Serial_print (chars "Watch dog timer always on");
   Serial_print (if negb (Z.land b 0x01 =? 0) then box_empty else box_ticked);
   Serial_print (chars "Disable external reset on PB3");
   Serial_println (chars " ")].

(** [dumpConfig]; the byte it leaves in the global [b] is returned. *)
Definition dumpConfig : P Z :=
  (lift (modify (set_adrs 0x3F40)) ;;
   a <- lift (get adrs) ;;
   lift (setPointer a) ;;
   emit [Serial_print (chars "Current config state: ")] ;;
   lift (tpi_send_byte SLDp) ;;
   b <- lift tpi_receive_byte ;;
   emit [Serial_print (chars "0x")] ;;
   emit (outHex b 2) ;;
   emit (config_flags b) ;;
   retP b)%board.

(** The wait of the section erase in [setConfig], whose body is the
    statement after it: [while((readIO(NVMCSR) & (1<<7)) != 0x00)
    writeIO(NVMCMD, NVM_NOP);]. *)
Fixpoint section_erase_wait (fuel : nat) : M unit :=
  match fuel with
  | O => fun _ => OutOfFuel
  | S n =>
      v <- readIO NVMCSR ;;
      if negb (Z.land v (Z.shiftl 1 7) =? 0x00) then
        writeIO NVMCMD NVM_NOP ;;
        section_erase_wait n
      else ret tt
  end.

Definition setConfig (val : bool) : P unit :=
  (dumpConfig ;;
   lift (setPointer 0x3F40) ;;
   lift (tpi_send_byte SLD) ;;
   b <- lift tpi_receive_byte ;;
   emit [Serial_print ([10] ++ chars "Input one of these letters to ");
         Serial_println (if val then chars "activate it" else chars "deactivate it");
         Serial_println (chars " c = system clock output");
         Serial_println (chars " w = watchdog timer on");
         Serial_println (chars " r = disable reset");
         Serial_println (chars " x = cancel. don't change anything")] ;;
   comnd <- lift Sread ;;
   lift (setPointer 0x3F40) ;;
   (if negb val && ((comnd =? 99) || (comnd =? 119) || (comnd =? 114)) then
      lift (writeIO NVMCMD NVM_SECTION_ERASE) ;;
      lift (tpi_send_byte SSTp) ;;
      lift (tpi_send_byte 0xFF) ;;
      lift (tpi_send_byte SSTp) ;;
      lift (tpi_send_byte 0xFF) ;;
      lift (fun s => section_erase_wait (S (length (miso s))) s) ;;
      lift (SPI_transfer_ 0xff) ;;
      lift (SPI_transfer_ 0xff) ;;
      lift (setPointer 0x3F40)
    else retP tt) ;;
   lift (writeIO NVMCMD NVM_WORD_WRITE) ;;
   (if comnd =? 99 then
      lift (tpi_send_byte SSTp) ;;
      (if val then lift (tpi_send_byte (Z.land b 0xFB))
       else lift (tpi_send_byte (Z.lor b 0x04))) ;;
      lift (tpi_send_byte SSTp) ;;
      lift (tpi_send_byte 0xFF)
    else if comnd =? 119 then
      lift (tpi_send_byte SSTp) ;;
      (if val then lift (tpi_send_byte (Z.land b 0xFD))
       else lift (tpi_send_byte (Z.lor b 0x02))) ;;
      lift (tpi_send_byte SSTp) ;;
      lift (tpi_send_byte 0xFF)
    else if comnd =? 114 then
      lift (tpi_send_byte SSTp) ;;
      (if val then lift (tpi_send_byte (Z.land b 0xFE))
       else lift (tpi_send_byte (Z.lor b 0x01))) ;;
      lift (tpi_send_byte SSTp) ;;
      lift (tpi_send_byte 0xFF)
    else if comnd =? 120 then retP tt
    else emit [Serial_println (chars "received unknown command. Cancelling")]) ;;
   lift nvm_wait ;;
   lift (writeIO NVMCMD NVM_NOP) ;;
   lift (SPI_transfer_ 0xff) ;;
   lift (SPI_transfer_ 0xff) ;;
   (if (comnd =? 99) || (comnd =? 119) || (comnd =? 114) then
      emit ([Serial_print ([10] ++ chars "Successfully ");
             Serial_print (if val then chars "Set " else chars "Cleared ");
             Serial_print [34]]
              ++ (if comnd =? 119 then [Serial_print (chars "Watchdog")]
                  else if comnd =? 99 then [Serial_print (chars "Clock Output")]
                  else if comnd =? 114 then [Serial_print (chars "Reset")]
                  else [])
              ++ [Serial_println ([34] ++ chars " Flag")]) ;;
      dumpConfig ;;
      retP tt
    else retP tt))%board.

(** The areas of the memory that [dumpMemory] prints. *)
Definition shown (len adrs : Z) : bool :=
  ((0x0000 <=? adrs) && (adrs <=? 0x005F))
  || ((0x3F00 <=? adrs) && (adrs <=? 0x3F01))
  || ((0x3F40 <=? adrs) && (adrs <=? 0x3F41))
  || ((0x3F80 <=? adrs) && (adrs <=? 0x3F81))
  || ((0x3FC0 <=? adrs) && (adrs <=? 0x3FC3))
  || ((0x4000 <=? adrs) && (adrs <=? u16 (len - 1))).

(** What [dumpMemory] prints for the byte [b] read at [adrs]: at the start
    of an area its title and the column numbers, at the start of a row the
    address, then the byte. *)
Definition dump_entry (len adrs b : Z) : list event :=
  if shown len adrs then
    (if (0x00 =? adrs) || (0x3f00 =? adrs) || (0x3F40 =? adrs) || (0x3F80 =? adrs)
        || (0x3FC0 =? adrs) || (0x4000 =? adrs)
     then
       (if adrs =? 0x0000 then [Serial_print (chars "registers, SRAM")] else [])
         ++ (if adrs =? 0x3F00 then [Serial_print ([10; 10] ++ chars "NVM lock")] else [])
         ++ (if adrs =? 0x3F40 then [Serial_print ([10; 10] ++ chars "configuration")]
             else [])
         ++ (if adrs =? 0x3F80 then [Serial_print ([10; 10] ++ chars "calibration")]
             else [])
         ++ (if adrs =? 0x3FC0 then [Serial_print ([10; 10] ++ chars "device ID")] else [])
         ++ (if adrs =? 0x4000 then [Serial_print ([10; 10] ++ chars "program")] else [])
         ++ [Serial_println []]
         ++ repeat (Serial_print (chars " ")) 5
         ++ flat_map (fun i => [Serial_print (chars " +"); Serial_print_HEX (Z.of_nat i)])
                     (seq 0 16)
     else [])
      ++ (if 0 =? Z.land 0x000f adrs then
            [Serial_println []] ++ outHex adrs 4 ++ [Serial_print (chars ": ")]
          else [])
      ++ outHex b 2
      ++ [Serial_print (chars " ")]
  else [].

(** The body of [while(adrs < len)]. *)
Definition dumpMemory_step (len : Z) : P unit :=
  (lift (tpi_send_byte SLDp) ;;
   b <- lift tpi_receive_byte ;;
   a <- lift (get adrs) ;;
   emit (dump_entry len a b) ;;
   lift (modify (fun s => set_adrs (u16 (adrs s + 1)) s)) ;;
   a <- lift (get adrs) ;;
   if a =? 0x0060 then lift (setPointer 0x3F00) else retP tt)%board.

(** [while(adrs < len)]: [adrs] grows in every turn. *)
Fixpoint dumpMemory_loop (fuel : nat) (len : Z) : P unit :=
  (a <- lift (get adrs) ;;
   if a <? len then
     match fuel with
     | O => lift (fun _ => OutOfFuel)
     | S n => dumpMemory_step len ;; dumpMemory_loop n len
     end
   else retP tt)%board.

Definition dumpMemory : P unit :=
  (lift (setPointer 0x0000) ;;
   emit [Serial_println (chars "Current memory state:")] ;;
   ty <- lift (get type) ;;
   let len := if negb (ty =? Tiny4_5) then u16 (s16 (0x400 * ty)) else 0x200 in
   let len := u16 (len + 0x4000) in
   dumpMemory_loop (Z.to_nat 65536) len ;;
   emit [Serial_println (chars " ")])%board.

(** The levels written to the pin [p], in order. *)
Definition levels (p : pin) (log : list event) : list Z :=
  flat_map (fun e =>
              match e, p with
              | digitalWrite SS v, SS => [v]
              | digitalWrite (Pin n) v, Pin m => if n =? m then [v] else []
              | _, _ => []
              end) log.

(** Equality of two lists of numbers. *)
Fixpoint same (x y : list Z) : bool :=
  match x, y with
  | [], [] => true
  | a :: x', b :: y' => (a =? b) && same x' y'
  | _, _ => false
  end.

(** For one byte: [outHex] with two nibbles prints its two hex digits. *)
Definition outHex2_check (b : Z) : bool := same (console (outHex b 2)) (hex2 b).

(** For two bytes: [outHex] with four nibbles prints the four hex digits
    of the 16-bit value. *)
Definition outHex4_check (hi lo : Z) : bool :=
  same (console (outHex (256 * hi + lo) 4)) (hex2 hi ++ hex2 lo).

(** The SPI bytes of reading the control and status register [address]
    once per status in [sts]. *)
Definition css_polls (address : Z) (gap : nat) (sts : list Z) : list Z :=
  flat_map (fun v => frames [Z.lor 0x80 address] ++ repeat 0xff (length (answer gap v)))
           sts.

(** A status of the TPI with the NVM-enable bit (bit 1) clear. *)
Definition not_enabled (v : Z) : Prop := 0 <= v < 256 /\ Z.land v 0x02 = 0.

(** The SPI bytes of [dumpConfig]: the pointer set to the configuration
    byte and one load. *)
Definition config_read (gap : nat) (b : Z) : list Z :=
  pointer_frames 0x3F40 ++ loads gap [b].

(** What [dumpConfig] prints for the configuration byte [b]. *)
Definition config_report (b : Z) : list event :=
  [Serial_print (chars "Current config state: "); Serial_print (chars "0x")]
    ++ outHex b 2 ++ config_flags b.

(** The SPI bytes of the status polls of the section erase: after every
    busy status the no-operation command is written. *)
Definition erase_polls (gap : nat) (busy : list Z) : list Z :=
  flat_map (fun v => polls NVMCSR gap [v] ++ frames [SOUT NVMCMD; NVM_NOP]) busy
    ++ polls NVMCSR gap [0].

(** The SPI bytes of the section erase of [setConfig]. *)
Definition section_erase_frames (gap : nat) (busy : list Z) : list Z :=
  frames [SOUT NVMCMD; NVM_SECTION_ERASE; SSTp; 0xFF; SSTp; 0xFF]
    ++ erase_polls gap busy
    ++ [0xff; 0xff]
    ++ pointer_frames 0x3F40.

(** The letter of a fuse and the mask of its bit. *)
Definition fuse (comnd mask : Z) : Prop :=
  (comnd = 99 /\ mask = 0x04) \/ (comnd = 119 /\ mask = 0x02)
  \/ (comnd = 114 /\ mask = 0x01).

(** For one configuration byte: clearing or setting the bit of a mask
    leaves the other seven bits as they are. *)
Definition fuse_check (b : Z) : bool :=
  forallb (fun mask =>
             (Z.land (Z.land b (0xFF - mask)) (0xFF - mask) =? Z.land b (0xFF - mask))
             && (Z.land (Z.land b (0xFF - mask)) mask =? 0)
             && (Z.land (Z.lor b mask) (0xFF - mask) =? Z.land b (0xFF - mask))
             && (Z.land (Z.lor b mask) mask =? mask))
          [0x04; 0x02; 0x01].

(** What [dumpMemory] prints for the bytes [bytes] read from [adrs] on. *)
Fixpoint entries (len adrs : Z) (bytes : list Z) : list event :=
  match bytes with
  | [] => []
  | b :: rest => dump_entry len adrs b ++ entries len (adrs + 1) rest
  end.

(** The end of the memory [dumpMemory] reads, for a device type. *)
Definition dump_end (ty : Z) : Z :=
  0x4000 + (if ty =? Tiny4_5 then 0x200 else 0x400 * ty).
(** * Properties *)

(** ** Ranges *)

Lemma u8_range (x : Z) : 0 <= u8 x < 256.
Proof. unfold u8. apply Z.mod_pos_bound. lia. Qed.

Lemma u8_small (x : Z) : 0 <= x < 256 -> u8 x = x.
Proof. intros H. unfold u8. apply Z.mod_small. exact H. Qed.

Lemma u16_small (x : Z) : 0 <= x < 65536 -> u16 x = x.
Proof. intros H. unfold u16. apply Z.mod_small. exact H. Qed.

(** A property checked on every number below a bound holds below it. *)
Lemma forallb_below (n : nat) (f : nat -> bool) :
  forallb f (seq 0 n) = true -> forall i, (i < n)%nat -> f i = true.
Proof.
  intros H i Hi. rewrite forallb_forall in H. apply H.
  apply in_seq. lia.
Qed.

Lemma byte_cases (f : Z -> bool) :
  forallb (fun i => f (Z.of_nat i)) (seq 0 256) = true ->
  forall d, 0 <= d < 256 -> f d = true.
Proof.
  intros H d Hd.
  pose proof (forallb_below 256 _ H (Z.to_nat d)) as E. cbv beta in E.
  rewrite Z2Nat.id in E by lia. apply E. lia.
Qed.

(** ** State bookkeeping *)

Lemma tpi_send_byte_eq (d : Z) (s : state) :
  tpi_send_byte d s = Ret tt (set_mosi (mosi s ++ frames [d]) s).
Proof.
  destruct s. unfold tpi_send_byte, SPI_transfer_, modify, bind, frames.
  cbn [mosi set_mosi serial miso adrs type progSize data flat_map app].
  rewrite <- app_assoc. reflexivity.
Qed.

Lemma frames_app (a b : list Z) : frames (a ++ b) = frames a ++ frames b.
Proof. unfold frames. apply flat_map_app. Qed.

(** ** Frame reception *)

Lemma wait_start_bit_idle (n : nat) (m : list Z) (s : state) :
  miso s = 0xff :: m ->
  wait_start_bit (S n) s =
  wait_start_bit n (set_mosi (mosi s ++ [0xff]) (set_miso m s)).
Proof.
  intros H. destruct s as [ser mi mo ad ty ps da]. cbn in H. subst.
  reflexivity.
Qed.

Lemma wait_start_bit_found (n : nat) (b1 : Z) (m : list Z) (s : state) :
  miso s = b1 :: m -> 0 <= b1 < 255 ->
  wait_start_bit (S n) s =
  Ret b1 (set_mosi (mosi s ++ [0xff]) (set_miso m s)).
Proof.
  intros H Hb. destruct s as [ser mi mo ad ty ps da]. cbn in H. subst.
  cbn [wait_start_bit]. unfold bind, SPI_transfer.
  cbn [miso mosi hd tl set_miso set_mosi serial adrs type progSize data].
  rewrite u8_small by lia.
  destruct (0xff =? b1) eqn:E; [apply Z.eqb_eq in E; lia|]. reflexivity.
Qed.

Lemma tpi_receive_byte_idle (m : list Z) (s : state) :
  miso s = 0xff :: m ->
  tpi_receive_byte s = tpi_receive_byte (set_mosi (mosi s ++ [0xff]) (set_miso m s)).
Proof.
  intros H. destruct s as [ser mi mo ad ty ps da]. cbn in H. subst.
  reflexivity.
Qed.

Lemma tpi_receive_byte_start (b1 b2 : Z) (m : list Z) (s : state) :
  miso s = b1 :: b2 :: m -> 0 <= b1 < 255 -> 0 <= b2 < 256 ->
  tpi_receive_byte s = received b1 b2 m s.
Proof.
  intros H Hb1 Hb2. unfold tpi_receive_byte, bind at 1.
  rewrite H. cbn [length].
  rewrite (wait_start_bit_found _ b1 (b2 :: m)) by assumption.
  destruct s as [ser mi mo ad ty ps da]. cbn in H. subst. unfold received, bind, SPI_transfer, ret.
  cbn [miso mosi hd tl set_miso set_mosi serial adrs type progSize data].
  rewrite (u8_small b2) by lia.
  destruct (0x0f =? Z.land 0x0f b1); destruct (realign 8 b1 b2);
    cbn [miso mosi hd tl set_miso set_mosi serial adrs type progSize data];
    rewrite <- ?app_assoc; reflexivity.
Qed.

(** Eight more idle bits put one all-idle transfer in front. *)
Lemma transfer_at_idle8 (g : nat) (l : list bool) (k : nat) :
  transfer_at (repeat true (8 + g) ++ l) (S k) = transfer_at (repeat true g ++ l) k.
Proof.
  assert (E : forall i, nth (8 * S k + i) (repeat true (8 + g) ++ l) true =
                        nth (8 * k + i) (repeat true g ++ l) true).
  { intros i. replace (8 * S k + i)%nat with (8 + (8 * k + i))%nat by lia.
    reflexivity. }
  unfold transfer_at. cbn [fold_right seq]. rewrite !E. reflexivity.
Qed.

Lemma answer_idle8 (g : nat) (d : Z) : answer (8 + g) d = 0xff :: answer g d.
Proof.
  unfold answer, line.
  replace ((8 + g) / 8)%nat with (S (g / 8)).
  2:{ change (8 + g)%nat with (1 * 8 + g)%nat. rewrite Nat.div_add_l by lia. reflexivity. }
  replace ((8 + g) mod 8)%nat with (g mod 8)%nat.
  2:{ rewrite <- (Nat.Div0.mod_add g 1 8). f_equal. lia. }
  unfold capture. cbn [Nat.add seq map]. f_equal.
  rewrite <- seq_shift, map_map.
  apply map_ext. intros k. apply transfer_at_idle8.
Qed.

Lemma answer_check_all :
  forallb (fun g => forallb (fun i => answer_check g (Z.of_nat i)) (seq 0 256))
          (seq 0 8) = true.
Proof. vm_compute. reflexivity. Qed.

Lemma tpi_receive_byte_answer (g : nat) (d : Z) (rest : list Z) (s : state) :
  0 <= d < 256 ->
  miso s = answer g d ++ rest ->
  tpi_receive_byte s =
  Ret d (set_mosi (mosi s ++ repeat 0xff (length (answer g d))) (set_miso rest s)).
Proof.
  intros Hd. revert s.
  induction g as [g IH] using (well_founded_induction lt_wf). intros s Hm.
  destruct (Nat.lt_ge_cases g 8) as [Hg|Hg].
  - pose proof (forallb_below 8 _ answer_check_all g Hg) as C. cbv beta in C.
    pose proof (byte_cases _ C d Hd) as C'. clear C.
    unfold answer_check in C'.
    destruct (answer g d) as [|b1 [|b2 [|b3 [|? ?]]]]; try discriminate.
    + apply andb_prop in C' as [C' R]. apply andb_prop in C' as [C' N].
      apply andb_prop in C' as [C' B4]. apply andb_prop in C' as [C' B3].
      apply andb_prop in C' as [B1 B2].
      rewrite (tpi_receive_byte_start b1 b2 rest) by (auto; lia).
      unfold received. destruct (realign 8 b1 b2) as [b|]; [|discriminate].
      apply Z.eqb_eq in R. subst b.
      apply negb_true_iff in N. rewrite N. reflexivity.
    + apply andb_prop in C' as [C' R]. apply andb_prop in C' as [C' N].
      apply andb_prop in C' as [C' B4]. apply andb_prop in C' as [C' B3].
      apply andb_prop in C' as [B1 B2].
      rewrite (tpi_receive_byte_start b1 b2 (b3 :: rest)) by (auto; lia).
      unfold received. destruct (realign 8 b1 b2) as [b|]; [|discriminate].
      apply Z.eqb_eq in R. subst b. rewrite N. reflexivity.
  - replace g with (8 + (g - 8))%nat in * by lia.
    rewrite answer_idle8 in *. cbn [app] in Hm.
    rewrite (tpi_receive_byte_idle (answer (g - 8) d ++ rest)) by exact Hm.
    rewrite (IH (g - 8)%nat) by (try lia; destruct s; reflexivity).
    destruct s as [ser mi mo ad ty ps da].
    cbn [miso mosi set_miso set_mosi serial adrs type progSize data length repeat].
    rewrite <- app_assoc. reflexivity.
Qed.

(** ** Frame codec round trip *)

Lemma encoder_check_all :
  forallb (fun i => encoder_check (Z.of_nat i)) (seq 0 256) = true.
Proof. vm_compute. reflexivity. Qed.

Lemma encoder_answer (d : Z) :
  0 <= d < 256 -> answer 2 d = [frame_lo d; frame_hi d].
Proof.
  intros Hd. pose proof (byte_cases _ encoder_check_all d Hd) as C.
  unfold encoder_check in C.
  apply andb_prop in C as [C _]. apply andb_prop in C as [C _].
  destruct (answer 2 d) as [|lo [|hi [|? ?]]]; try discriminate.
  apply andb_prop in C as [A B].
  apply Z.eqb_eq in A, B. subst. reflexivity.
Qed.

(** C4: for every byte value 0-255, the two transfers [tpi_send_byte]
    clocks out are the frame with two idle bits on each side, decoding them
    with [tpi_receive_byte] gives the byte back, and bit 3 of the second
    transfer (the parity bit) makes the number of ones among the data bits
    and the parity bit even. *)
Theorem frame_codec_roundtrip (d : Z) :
  0 <= d < 256 ->
  (forall s, tpi_send_byte d s =
             Ret tt (set_mosi (mosi s ++ [frame_lo d; frame_hi d]) s))
  /\ (forall s rest,
         miso s = [frame_lo d; frame_hi d] ++ rest ->
         tpi_receive_byte s =
         Ret d (set_mosi (mosi s ++ [0xff; 0xff]) (set_miso rest s)))
  /\ Z.testbit (frame_hi d) 3 = even_parity d
  /\ Nat.even (weight d + Nat.b2n (Z.testbit (frame_hi d) 3)) = true.
Proof.
  intros Hd. pose proof (byte_cases _ encoder_check_all d Hd) as C.
  unfold encoder_check in C.
  apply andb_prop in C as [C W]. apply andb_prop in C as [_ P].
  repeat split.
  - intros s. rewrite tpi_send_byte_eq. unfold frames. cbn [flat_map app].
    rewrite u8_small by exact Hd. reflexivity.
  - intros s rest Hm. rewrite <- (encoder_answer d Hd) in Hm.
    rewrite (tpi_receive_byte_answer 2 d rest s Hd Hm).
    rewrite (encoder_answer d Hd). reflexivity.
  - apply Bool.eqb_prop. exact P.
  - exact W.
Qed.

Lemma frame_codec_roundtrip_witness :
  tpi_receive_byte (mkState [] [frame_lo 0xA7; frame_hi 0xA7; 0x55] [] 0 0 0 []) =
  Ret 0xA7 (mkState [] [0x55] [0xff; 0xff] 0 0 0 []).
Proof.
  apply (proj1 (proj2 (frame_codec_roundtrip 0xA7 ltac:(lia)))).
  reflexivity.
Defined.

(** ** Start-bit realignment *)
(** C7: whatever the number of idle bits before the start bit (0, 3, 7 or
    any other), [tpi_receive_byte] returns the transmitted byte, the same as
    with no idle bit before the start bit, and leaves the transfers after
    the frame unread. *)
Theorem receive_gap_invariant (gap : nat) (d : Z) (rest : list Z) (s s0 : state) :
  0 <= d < 256 ->
  miso s = answer gap d ++ rest ->
  miso s0 = answer 0 d ++ rest ->
  returned (tpi_receive_byte s) = Some d
  /\ returned (tpi_receive_byte s) = returned (tpi_receive_byte s0)
  /\ exists s', tpi_receive_byte s = Ret d s' /\ miso s' = rest.
Proof.
  intros Hd Hm Hm0.
  rewrite (tpi_receive_byte_answer gap d rest s Hd Hm).
  rewrite (tpi_receive_byte_answer 0 d rest s0 Hd Hm0).
  repeat split. eexists. split; [reflexivity|].
  destruct s; reflexivity.
Qed.

Lemma receive_gap_invariant_witness :
  returned (tpi_receive_byte (mkState [] (answer 3 0x5A ++ [1]) [] 0 0 0 [])) = Some 0x5A
  /\ returned (tpi_receive_byte (mkState [] (answer 7 0x5A ++ [1]) [] 0 0 0 [])) = Some 0x5A.
Proof.
  split.
  - apply (proj1 (receive_gap_invariant 3 0x5A [1]
              (mkState [] (answer 3 0x5A ++ [1]) [] 0 0 0 [])
              (mkState [] (answer 0 0x5A ++ [1]) [] 0 0 0 [])
              ltac:(lia) eq_refl eq_refl)).
  - apply (proj1 (receive_gap_invariant 7 0x5A [1]
              (mkState [] (answer 7 0x5A ++ [1]) [] 0 0 0 [])
              (mkState [] (answer 0 0x5A ++ [1]) [] 0 0 0 [])
              ltac:(lia) eq_refl eq_refl)).
Defined.

(** ** Key sequence *)

Lemma le_bytes_S (n : nat) (key : Z) :
  le_bytes (S n) key = Z.land key 0xFF :: le_bytes n (Z.shiftr key 8).
Proof.
  unfold le_bytes. cbn [seq map]. f_equal.
  rewrite <- seq_shift, map_map. apply map_ext. intros i.
  rewrite Z.shiftr_shiftr by lia. do 2 f_equal. lia.
Qed.

Lemma shiftr8_bounds (n : nat) (key : Z) :
  256 ^ Z.of_nat n <= key < 256 ^ Z.of_nat (S n) ->
  256 ^ Z.of_nat n <= 256 * Z.shiftr key 8 + 255 /\ Z.shiftr key 8 < 256 ^ Z.of_nat n.
Proof.
  intros [Hl Hu]. rewrite Z.shiftr_div_pow2 by lia. change (2 ^ 8) with 256.
  rewrite Nat2Z.inj_succ, Z.pow_succ_r in Hu by lia.
  pose proof (Z.div_mod key 256 ltac:(lia)) as E.
  pose proof (Z.mod_pos_bound key 256 ltac:(lia)) as B.
  split; [lia|].
  apply Z.div_lt_upper_bound; lia.
Qed.

Lemma send_skey_loop_bytes (n : nat) :
  forall (fuel : nat) (key : Z) (s : state),
    (n < fuel)%nat ->
    (n = 0%nat -> key = 0) ->
    (n <> 0%nat -> 256 ^ Z.of_nat (n - 1) <= key) ->
    key < 256 ^ Z.of_nat n ->
    send_skey_loop fuel key s =
    Ret tt (set_mosi (mosi s ++ frames (le_bytes n key)) s).
Proof.
  induction n as [|n IH]; intros fuel key s Hf H0 Hl Hu.
  - rewrite (H0 eq_refl). destruct fuel as [|fuel]; [lia|].
    destruct s as [ser mi mo ad ty ps da]. cbn. rewrite app_nil_r. reflexivity.
  - destruct fuel as [|fuel]; [lia|].
    assert (Hp : 0 < 256 ^ Z.of_nat n) by (apply Z.pow_pos_nonneg; lia).
    specialize (Hl ltac:(lia)). replace (S n - 1)%nat with n in Hl by lia.
    cbn [send_skey_loop].
    destruct (key =? 0) eqn:E; [apply Z.eqb_eq in E; lia|].
    unfold bind at 1. rewrite tpi_send_byte_eq.
    pose proof (shiftr8_bounds n key (conj Hl Hu)) as [B1 B2].
    rewrite (IH fuel (Z.shiftr key 8)); try lia.
    + rewrite le_bytes_S. destruct s as [ser mi mo ad ty ps da].
      cbn [miso mosi set_miso set_mosi serial adrs type progSize data].
      rewrite <- app_assoc, <- frames_app. reflexivity.
    + intros ->. change (256 ^ Z.of_nat 0) with 1 in *. lia.
    + intros Hn. destruct n as [|n]; [lia|].
      replace (S n - 1)%nat with n by lia.
      rewrite Nat2Z.inj_succ, Z.pow_succ_r in B1 by lia.
      assert (0 < 256 ^ Z.of_nat n) by (apply Z.pow_pos_nonneg; lia).
      nia.
Qed.

Lemma send_skey_bytes (n : nat) (key : Z) (s : state) :
  (n <= 8)%nat ->
  (n = 0%nat -> key = 0) ->
  (n <> 0%nat -> 256 ^ Z.of_nat (n - 1) <= key) ->
  key < 256 ^ Z.of_nat n ->
  send_skey key s =
  Ret tt (set_mosi (mosi s ++ frames (SKEY :: le_bytes n key)) s).
Proof.
  intros Hn H0 Hl Hu.
  assert (Hk : 0 <= key < 2 ^ 64).
  { assert (256 ^ Z.of_nat n <= 256 ^ 8) by (apply Z.pow_le_mono_r; lia).
    change (2 ^ 64) with (256 ^ 8).
    destruct n as [|n]; [rewrite (H0 eq_refl); lia|].
    assert (0 < 256 ^ Z.of_nat (S n - 1)) by (apply Z.pow_pos_nonneg; lia).
    specialize (Hl ltac:(lia)). lia. }
  unfold send_skey, bind. rewrite tpi_send_byte_eq.
  unfold u64. rewrite Z.mod_small by exact Hk.
  rewrite (send_skey_loop_bytes n 9 key) by (assumption || lia).
  destruct s as [ser mi mo ad ty ps da].
  cbn [miso mosi set_miso set_mosi serial adrs type progSize data].
  rewrite <- app_assoc, <- frames_app. reflexivity.
Qed.

(** C9 (as amended): for every 64-bit key whose most significant byte is
    not zero, [send_skey] emits the key opcode followed by exactly the 8 key
    bytes, least significant byte first. *)
Theorem send_skey_eight_bytes (key : Z) :
  2 ^ 56 <= key < 2 ^ 64 -> emits_eight_key_bytes key.
Proof.
  intros [Hl Hu] s. apply send_skey_bytes.
  - lia.
  - discriminate.
  - intros _. exact Hl.
  - exact Hu.
Qed.

Lemma send_skey_eight_bytes_witness :
  send_skey NVM_PROGRAM_ENABLE (mkState [] [] [] 0 0 0 []) =
  Ret tt (mkState [] []
            (frames [SKEY; 0xFF; 0x88; 0xD8; 0xCD; 0x45; 0xAB; 0x89; 0x12])
            0 0 0 []).
Proof.
  apply (send_skey_eight_bytes NVM_PROGRAM_ENABLE).
  unfold NVM_PROGRAM_ENABLE. lia.
Defined.

(** C9, counterexample: for the key 0xFF the loop stops after one key byte,
    so only the opcode and one byte are sent. *)
Lemma send_skey_short_key :
  send_skey 0xFF (mkState [] [] [] 0 0 0 []) =
  Ret tt (mkState [] [] (frames [SKEY; 0xFF]) 0 0 0 [])
  /\ ~ emits_eight_key_bytes 0xFF.
Proof.
  split; [reflexivity|].
  intros H. specialize (H (mkState [] [] [] 0 0 0 [])).
  vm_compute in H. discriminate H.
Qed.

(** ** Register access *)
Lemma setPointer_eq (address : Z) (s : state) :
  setPointer address s =
  Ret tt (set_mosi
            (mosi s ++ frames [SSTPRL; Z.land (u16 address) 0xff;
                               SSTPRH; Z.land (Z.shiftr (u16 address) 8) 0xff])
            (set_adrs (u16 address) s)).
Proof.
  unfold setPointer, bind, modify. rewrite !tpi_send_byte_eq.
  destruct s as [ser mi mo ad ty ps da].
  cbn [miso mosi set_miso set_mosi set_adrs serial adrs type progSize data].
  rewrite <- !app_assoc, <- !frames_app. reflexivity.
Qed.

Lemma writeIO_eq (address value : Z) (s : state) :
  writeIO address value s =
  Ret tt (set_mosi
            (mosi s ++ frames [Z.lor (Z.lor 0x90 (Z.land address 0x0F))
                                     (Z.shiftl (Z.land address 0x30) 1); value])
            s).
Proof.
  unfold writeIO, bind. rewrite !tpi_send_byte_eq.
  destruct s as [ser mi mo ad ty ps da].
  cbn [miso mosi set_miso set_mosi set_adrs serial adrs type progSize data].
  rewrite <- !app_assoc, <- !frames_app. reflexivity.
Qed.

(** A load with post-increment answered by the target. *)
Lemma load_answer (g : nat) (d : Z) (rest : list Z) (s : state) :
  0 <= d < 256 ->
  miso s = answer g d ++ rest ->
  (tpi_send_byte SLDp ;; tpi_receive_byte) s =
  Ret d (set_mosi (mosi s ++ frames [SLDp] ++ repeat 0xff (length (answer g d)))
                  (set_miso rest s)).
Proof.
  intros Hd Hm. unfold bind. rewrite tpi_send_byte_eq.
  rewrite (tpi_receive_byte_answer g d rest) by (assumption || (destruct s; exact Hm)).
  destruct s as [ser mi mo ad ty ps da].
  cbn [miso mosi set_miso set_mosi set_adrs serial adrs type progSize data].
  rewrite <- !app_assoc. reflexivity.
Qed.

Lemma bind_eq {A B : Type} (m : M A) (k : A -> M B) (s : state) :
  bind m k s =
  match m s with
  | Ret a s' => k a s'
  | Abort f s' => Abort f s'
  | Hang w s' => Hang w s'
  | OutOfBounds s' => OutOfBounds s'
  | OutOfFuel => OutOfFuel
  end.
Proof. reflexivity. Qed.

Lemma bind_ret {A B : Type} (m : M A) (k : A -> M B) (s s' : state) (a : A) :
  m s = Ret a s' -> bind m k s = k a s'.
Proof. intros H. unfold bind. rewrite H. reflexivity. Qed.

(** ** Device identification *)

(** C8: [checkID] sets the pointer to 0x3FC0, reads three bytes with
    post-increment loads and looks them up in the table of 8 signatures: a
    signature of the table selects its [type] and name, any other one
    prints "Unknown chip" and leaves [type] as it was.  0x1E,0x90,0x03 is
    the ATtiny10 (one word per write, 1024 bytes); 0x1E,0x99,0x99 is not in
    the table. *)
Theorem checkID_table (id1 id2 id3 : Z) (g1 g2 g3 : nat) (rest : list Z) (s : state) :
  0 <= id1 < 256 -> 0 <= id2 < 256 -> 0 <= id3 < 256 ->
  miso s = answer g1 id1 ++ answer g2 id2 ++ answer g3 id3 ++ rest ->
  checkID s =
  Ret (match lookup_signature id1 id2 id3 with
       | Some (name, _) => name
       | None => "Unknown chip"%string
       end)
      (mkState (serial s) rest
         (mosi s ++ frames [SSTPRL; 0xC0; SSTPRH; 0x3F]
            ++ frames [SLDp] ++ repeat 0xff (length (answer g1 id1))
            ++ frames [SLDp] ++ repeat 0xff (length (answer g2 id2))
            ++ frames [SLDp] ++ repeat 0xff (length (answer g3 id3)))
         0x3FC0
         (match lookup_signature id1 id2 id3 with
          | Some (_, ty) => ty
          | None => type s
          end)
         (progSize s) (data s))
  /\ length signatures = 8%nat
  /\ lookup_signature 0x1E 0x90 0x03 = Some ("ATtiny10"%string, Tiny10)
  /\ words_of Tiny10 = 1 /\ capacity Tiny10 = 1024
  /\ lookup_signature 0x1E 0x99 0x99 = None.
Proof.
  intros H1 H2 H3 Hm.
  split; [|repeat split].
  unfold checkID.
  rewrite bind_eq, setPointer_eq. cbv beta iota.
  rewrite bind_eq, tpi_send_byte_eq. cbv beta iota.
  destruct s as [ser mi mo ad ty ps da]. cbn in Hm. subst mi.
  cbn [miso mosi set_miso set_mosi set_adrs serial adrs type progSize data].
  rewrite bind_eq.
  rewrite (tpi_receive_byte_answer g1 id1 (answer g2 id2 ++ answer g3 id3 ++ rest))
    by (assumption || reflexivity).
  cbv beta iota.
  cbn [miso mosi set_miso set_mosi set_adrs serial adrs type progSize data].
  rewrite bind_eq, tpi_send_byte_eq. cbv beta iota.
  cbn [miso mosi set_miso set_mosi set_adrs serial adrs type progSize data].
  rewrite bind_eq.
  rewrite (tpi_receive_byte_answer g2 id2 (answer g3 id3 ++ rest))
    by (assumption || reflexivity).
  cbv beta iota.
  cbn [miso mosi set_miso set_mosi set_adrs serial adrs type progSize data].
  rewrite bind_eq, tpi_send_byte_eq. cbv beta iota.
  cbn [miso mosi set_miso set_mosi set_adrs serial adrs type progSize data].
  rewrite bind_eq.
  rewrite (tpi_receive_byte_answer g3 id3 rest) by (assumption || reflexivity).
  cbv beta iota.
  cbn [miso mosi set_miso set_mosi set_adrs serial adrs type progSize data].
  rewrite <- !app_assoc.
  unfold lookup_signature, signatures. cbn [find option_map snd].
  change (u16 0x3FC0) with 0x3FC0.
  change (Z.land 0x3FC0 0xff) with 0xC0.
  change (Z.land (Z.shiftr 0x3FC0 8) 0xff) with 0x3F.
  repeat match goal with
         | |- context [if ?c then _ else _] => destruct c
         end; reflexivity.
Qed.

Lemma checkID_table_witness :
  returned (checkID (mkState [] (answer 3 0x1E ++ answer 0 0x90 ++ answer 5 0x03 ++ [])
                             [] 0 0 0 (repeat 0 16))) = Some "ATtiny10"%string
  /\ returned (checkID (mkState [] (answer 3 0x1E ++ answer 0 0x99 ++ answer 5 0x99 ++ [])
                                [] 0 0 0 (repeat 0 16))) = Some "Unknown chip"%string.
Proof.
  split.
  - rewrite (proj1 (checkID_table 0x1E 0x90 0x03 3 0 5 []
                      (mkState [] (answer 3 0x1E ++ answer 0 0x90 ++ answer 5 0x03 ++ [])
                               [] 0 0 0 (repeat 0 16))
                      ltac:(lia) ltac:(lia) ltac:(lia) eq_refl)).
    reflexivity.
  - rewrite (proj1 (checkID_table 0x1E 0x99 0x99 3 0 5 []
                      (mkState [] (answer 3 0x1E ++ answer 0 0x99 ++ answer 5 0x99 ++ [])
                               [] 0 0 0 (repeat 0 16))
                      ltac:(lia) ltac:(lia) ltac:(lia) eq_refl)).
    reflexivity.
Defined.

(** ** Hex fields *)

Lemma to_char_range (c : Z) : -128 <= to_char c <= 127.
Proof.
  unfold to_char. pose proof (u8_range c).
  destruct (u8 c <? 128) eqn:E; [apply Z.ltb_lt in E|apply Z.ltb_ge in E]; lia.
Qed.

Lemma to_char_small (c : Z) : 0 <= c < 128 -> to_char c = c.
Proof.
  intros H. unfold to_char. rewrite u8_small by lia.
  destruct (c <? 128) eqn:E; [reflexivity|apply Z.ltb_ge in E; lia].
Qed.

Lemma digit_value_range (c : Z) : -128 <= c <= 127 -> -128 <= digit_value c <= 127.
Proof.
  intros H. unfold digit_value.
  destruct ((48 <=? c) && (c <=? 57)) eqn:E1.
  - apply andb_prop in E1 as [A B]. apply Z.leb_le in A, B. lia.
  - destruct ((65 <=? c) && (c <=? 70)) eqn:E2; [|lia].
    apply andb_prop in E2 as [A B]. apply Z.leb_le in A, B. lia.
Qed.

Lemma s16_small (x : Z) : -32768 <= x < 32768 -> s16 x = x.
Proof.
  intros H. unfold s16, u16.
  destruct (Z_lt_le_dec x 0) as [N|N].
  - replace (x mod 65536) with (x + 65536).
    + destruct (x + 65536 <? 32768) eqn:E; [apply Z.ltb_lt in E|]; lia.
    + apply Z.mod_unique with (q := -1); lia.
  - rewrite Z.mod_small by lia.
    destruct (x <? 32768) eqn:E; [reflexivity|apply Z.ltb_ge in E; lia].
Qed.

Lemma u16_s16 (x : Z) : u16 (s16 x) = u16 x.
Proof.
  unfold s16, u16.
  destruct (x mod 65536 <? 32768).
  - apply Z.mod_mod. lia.
  - replace (x mod 65536 - 65536) with (x mod 65536 + (-1) * 65536) by lia.
    rewrite Z.mod_add by lia. apply Z.mod_mod. lia.
Qed.

(** One turn of the loop on a character. *)
Lemma digit_step (c : Z) :
  -128 <= c <= 127 ->
  (if (48 <=? c) && (c <=? 57) then to_char (c - 48 + 0x0)
   else if (65 <=? c) && (c <=? 70) then to_char (c - 65 + 0xA)
   else c) = digit_value c.
Proof.
  intros H. unfold digit_value.
  destruct ((48 <=? c) && (c <=? 57)) eqn:E1.
  - apply andb_prop in E1 as [A B]. apply Z.leb_le in A, B.
    rewrite to_char_small by lia. lia.
  - destruct ((65 <=? c) && (c <=? 70)) eqn:E2; [|reflexivity].
    apply andb_prop in E2 as [A B]. apply Z.leb_le in A, B.
    rewrite to_char_small by lia. lia.
Qed.

(** The decoder on a two-character field: both characters are folded in,
    whatever they are, and the buffer holds their digit values afterwards.
    A NUL as second character ends the loop after the first. *)
Lemma asciiHexToUShort_two (c0 c1 : Z) :
  -128 <= c0 <= 127 -> -128 <= c1 <= 127 ->
  asciiHexToUShort [c0; c1; 0] =
  if c1 =? 0 then (u16 (digit_value c0), [digit_value c0; 0; 0])
  else (u16 (16 * digit_value c0 + digit_value c1),
        [digit_value c0; digit_value c1; 0]).
Proof.
  intros H0 H1. unfold asciiHexToUShort. cbn [asciiHexToUShort_loop].
  rewrite !digit_step by assumption.
  pose proof (digit_value_range c0 H0). pose proof (digit_value_range c1 H1).
  change (Z.shiftl 0 4) with 0. rewrite Z.add_0_l.
  destruct (c1 =? 0) eqn:E.
  - apply Z.eqb_eq in E. subst c1. rewrite u16_s16. reflexivity.
  - change (0 =? 0) with true. cbv iota. rewrite u16_s16.
    rewrite Z.shiftl_mul_pow2 by lia. change (2 ^ 4) with 16.
    rewrite (s16_small (digit_value c0)) by lia.
    do 2 f_equal. lia.
Qed.

(** ** Record header *)

Ltac state_simpl :=
  unfold set_serial, set_miso, set_mosi, set_adrs, set_type, set_progSize, set_data;
  cbn [serial miso mosi adrs type progSize data].

Ltac locals_simpl :=
  unfold set_temp, set_checkSum, set_currentByte;
  cbn [temp addr checkSum someth currentByte linelength fileEnd].

Lemma read_fields_eq (l : locals) (t0 t1 a0 a1 a2 a3 y0 y1 : Z)
      (rest : list Z) (s : state) :
  serial s = t0 :: t1 :: a0 :: a1 :: a2 :: a3 :: y0 :: y1 :: rest ->
  read_fields l s =
  Ret (header_locals l t0 t1 a0 a1 a2 a3 y0 y1)
      (set_adrs (u16 (addr_field a0 a1 a2 a3 + 0x4000)) (set_serial rest s)).
Proof.
  intros Hs. destruct s as [ser mi mo ad ty ps da]. cbn in Hs. subst ser.
  unfold read_fields, header_locals, hex_field, addr_field.
  unfold bind at 1. unfold Sread at 1. state_simpl.
  unfold bind at 1. unfold Sread at 1. state_simpl.
  destruct (asciiHexToUShort [to_char t0; to_char t1; 0]) as [v1 b1].
  unfold bind at 1. unfold Sread at 1. state_simpl.
  unfold bind at 1. unfold Sread at 1. state_simpl.
  destruct (asciiHexToUShort [to_char a0; to_char a1; 0]) as [v2 b2].
  unfold bind at 1. unfold Sread at 1. state_simpl.
  unfold bind at 1. unfold Sread at 1. state_simpl.
  destruct (asciiHexToUShort [to_char a2; to_char a3; 0]) as [v3 b3].
  destruct (asciiHexToUShort [to_char a0; to_char a1; to_char a2; to_char a3; 0])
    as [v4 b4].
  unfold bind at 1. unfold modify at 1. state_simpl.
  unfold bind at 1. unfold get at 1. state_simpl.
  unfold bind at 1. unfold Sread at 1. state_simpl.
  unfold bind at 1. unfold Sread at 1. state_simpl.
  destruct (asciiHexToUShort [to_char y0; to_char y1; 0]) as [v5 b5].
  cbn [fst snd]. reflexivity.
Qed.

(** ** Where a malformed-record error can come from *)

Lemma bind_free {A B : Type} (m : M A) (k : A -> M B) (s : state) :
  hex_error_free (m s) ->
  (forall a s', hex_error_free (k a s')) ->
  hex_error_free (bind m k s).
Proof.
  intros Hm Hk. unfold bind. destruct (m s); auto.
Qed.

Create HintDb hexfree.

Ltac free_step :=
  match goal with
  | |- hex_error_free (bind _ _ _) => apply bind_free; [|intros]
  | |- hex_error_free ((if ?c then _ else _) _) => destruct c
  | |- hex_error_free ((let (_, _) := ?p in _) _) => destruct p
  | |- hex_error_free (match ?x with Some _ => _ | None => _ end _) => destruct x
  | |- hex_error_free (ret _ _) => exact I
  | |- hex_error_free (modify _ _) => exact I
  | |- hex_error_free (get _ _) => exact I
  | |- hex_error_free (hang _ _) => exact I
  | |- hex_error_free OutOfFuel => exact I
  | |- hex_error_free (Ret _ _) => exact I
  | |- hex_error_free (Hang _ _) => exact I
  | |- hex_error_free (OutOfBounds _) => exact I
  | |- hex_error_free (abort (ERROR_data _) _) => now (cbn; unfold HexError)
  | |- hex_error_free (abort (program_error _ _ _) _) => exact I
  | |- _ => solve [auto with hexfree]
  end.

Ltac free := repeat free_step.

Lemma free_SPI_transfer x s : hex_error_free (SPI_transfer x s).
Proof. exact I. Qed.
Lemma free_SPI_transfer_ x s : hex_error_free (SPI_transfer_ x s).
Proof. exact I. Qed.
#[local] Hint Resolve free_SPI_transfer free_SPI_transfer_ : hexfree.

Lemma free_tpi_send_byte d s : hex_error_free (tpi_send_byte d s).
Proof. rewrite tpi_send_byte_eq. exact I. Qed.
#[local] Hint Resolve free_tpi_send_byte : hexfree.

Lemma free_wait_start_bit n s : hex_error_free (wait_start_bit n s).
Proof. revert s. induction n; intros s; cbn [wait_start_bit]; free. Qed.
#[local] Hint Resolve free_wait_start_bit : hexfree.

Lemma free_tpi_receive_byte s : hex_error_free (tpi_receive_byte s).
Proof. unfold tpi_receive_byte. free. Qed.
#[local] Hint Resolve free_tpi_receive_byte : hexfree.

Lemma free_setPointer a s : hex_error_free (setPointer a s).
Proof. rewrite setPointer_eq. exact I. Qed.
Lemma free_writeIO a v s : hex_error_free (writeIO a v s).
Proof. rewrite writeIO_eq. exact I. Qed.
Lemma free_readIO a s : hex_error_free (readIO a s).
Proof. unfold readIO. free. Qed.
#[local] Hint Resolve free_setPointer free_writeIO free_readIO : hexfree.

Lemma free_nvm_busy_wait n s : hex_error_free (nvm_busy_wait n s).
Proof. revert s. induction n; intros s; cbn [nvm_busy_wait]; free. Qed.
#[local] Hint Resolve free_nvm_busy_wait : hexfree.

Lemma free_nvm_wait s : hex_error_free (nvm_wait s).
Proof. unfold nvm_wait. free. Qed.
Lemma free_data_get i s : hex_error_free (data_get i s).
Proof. unfold data_get. destruct ((0 <=? i) && (i <? 16)); exact I. Qed.
Lemma free_data_set i v s : hex_error_free (data_set i v s).
Proof. unfold data_set. destruct ((0 <=? i) && (i <? 16)); exact I. Qed.
Lemma free_Sread s : hex_error_free (Sread s).
Proof. unfold Sread. destruct (serial s); exact I. Qed.
Lemma free_wait_available s : hex_error_free (wait_available s).
Proof. unfold wait_available. destruct (serial s); [now cbn|exact I]. Qed.
#[local] Hint Resolve free_nvm_wait free_data_get free_data_set free_Sread
  free_wait_available : hexfree.

Lemma free_write_words n i s : hex_error_free (write_words n i s).
Proof. revert i s. induction n; intros i s; cbn [write_words]; free. Qed.
Lemma free_verify_words n c s : hex_error_free (verify_words n c s).
Proof. revert c s. induction n; intros c s; cbn [verify_words]; free. Qed.
#[local] Hint Resolve free_write_words free_verify_words : hexfree.

Lemma free_program_group w l s : hex_error_free (program_group w l s).
Proof. unfold program_group. free. Qed.
Lemma free_pad_group n w l s : hex_error_free (pad_group n w l s).
Proof.
  revert l s. induction n; intros l s; cbn [pad_group]; free.
Qed.
#[local] Hint Resolve free_program_group free_pad_group : hexfree.

Lemma free_data_byte w l s : hex_error_free (data_byte w l s).
Proof. unfold data_byte. free. Qed.
#[local] Hint Resolve free_data_byte : hexfree.
Lemma free_read_data n w l s : hex_error_free (read_data n w l s).
Proof. revert l s. induction n; intros l s; cbn [read_data]; free. Qed.
Lemma free_skip_record n l s : hex_error_free (skip_record n l s).
Proof. revert l s. induction n; intros l s; cbn [skip_record]; free. Qed.
Lemma free_read_checksum l s : hex_error_free (read_checksum l s).
Proof. unfold read_checksum. free. Qed.
Lemma free_read_fields l s : hex_error_free (read_fields l s).
Proof. unfold read_fields. free. Qed.
#[local] Hint Resolve free_read_data free_skip_record free_read_checksum
  free_read_fields : hexfree.

Lemma free_not_hex_error {A : Type} (o : outcome A) (s' : state) :
  hex_error_free o -> o <> Abort (ERROR_data HexError) s'.
Proof. intros H E. subst o. cbn in H. auto. Qed.

(** The record after its colon. *)
Lemma free_after_colon (words : Z) (l : locals) (s : state) :
  hex_error_free
    ((l <- read_fields l ;;
      if someth l =? 2 then skip_record (Z.to_nat (linelength l + 1)) l
      else l <- read_data (Z.to_nat (linelength l)) words l ;; read_checksum l) s).
Proof. free. Qed.

Lemma read_record_eq (words : Z) (l : locals) (s : state) :
  read_record words l s =
  (wait_available ;;
   expect_colon ;;
   l <- read_fields l ;;
   if someth l =? 2 then skip_record (Z.to_nat (linelength l + 1)) l
   else l <- read_data (Z.to_nat (linelength l)) words l ;; read_checksum l) s.
Proof.
  unfold read_record, read_header, bind.
  destruct (wait_available s); try reflexivity.
  destruct (expect_colon s0); reflexivity.
Qed.

(** The hex file format error is raised exactly when two characters in a
    row at the start of a record are not colons. *)
Lemma hex_error_iff (words : Z) (l : locals) (s s' : state) :
  read_record words l s = Abort (ERROR_data HexError) s' <->
  exists c c' rest,
    serial s = c :: c' :: rest /\ to_char c <> 58 /\ to_char c' <> 58
    /\ s' = set_serial rest s.
Proof.
  rewrite read_record_eq.
  destruct s as [ser mi mo ad ty ps da].
  unfold bind at 1. unfold wait_available at 1. state_simpl.
  destruct ser as [|c ser].
  { split; [discriminate|]. intros (c & c' & rest & E & _). discriminate E. }
  unfold bind at 1. unfold expect_colon at 1.
  unfold bind at 1. unfold Sread at 1. state_simpl.
  destruct (to_char c =? 58) eqn:Ec; cbn [negb].
  { apply Z.eqb_eq in Ec. unfold ret at 1. split.
    - intros E. exfalso. revert E. apply free_not_hex_error, free_after_colon.
    - intros (c1 & c' & rest & E & N & _). inversion E; subst. contradiction. }
  apply Z.eqb_neq in Ec.
  unfold bind at 1. unfold Sread at 1. state_simpl.
  destruct ser as [|c' ser].
  { split; [discriminate|]. intros (c1 & c2 & rest & E & _). discriminate E. }
  destruct (to_char c' =? 58) eqn:Ec'; cbn [negb].
  { apply Z.eqb_eq in Ec'. unfold ret at 1. split.
    - intros E. exfalso. revert E. apply free_not_hex_error, free_after_colon.
    - intros (c1 & c2 & rest & E & _ & N & _). inversion E; subst. contradiction. }
  apply Z.eqb_neq in Ec'. unfold abort. split.
  - intros E. inversion E; subst. exists c, c', ser. auto.
  - intros (c1 & c2 & rest & E & _ & _ & ->). inversion E; subst. reflexivity.
Qed.

(** C10: the hex file format error is raised if and only if two characters
    in a row at the start of a record are not colons.  The field decoder has
    no error result: of a two-character field it folds in the digit value of
    '0'-'9' and 'A'-'F' and the raw character code of anything else, so that
    "1a" decodes to 0x71; and it leaves the digit values in the caller's
    buffer in place of the characters. *)
Theorem malformed_record_only_by_colon :
  (forall (words : Z) (l : locals) (s s' : state),
      read_record words l s = Abort (ERROR_data HexError) s' <->
      exists c c' rest,
        serial s = c :: c' :: rest /\ to_char c <> 58 /\ to_char c' <> 58
        /\ s' = set_serial rest s)
  /\ (forall c0 c1 : Z,
         -128 <= c0 <= 127 -> -128 <= c1 <= 127 -> c1 <> 0 ->
         asciiHexToUShort [c0; c1; 0] =
         (u16 (16 * digit_value c0 + digit_value c1),
          [digit_value c0; digit_value c1; 0]))
  /\ (forall c : Z, ~ 48 <= c <= 57 -> ~ 65 <= c <= 70 -> digit_value c = c)
  /\ asciiHexToUShort (chars "1a" ++ [0]) = (0x71, [1; 97; 0])
  /\ asciiHexToUShort (chars "1A" ++ [0]) = (0x1A, [1; 10; 0]).
Proof.
  split; [exact hex_error_iff|].
  split.
  { intros c0 c1 H0 H1 N. rewrite asciiHexToUShort_two by assumption.
    destruct (c1 =? 0) eqn:E; [apply Z.eqb_eq in E; contradiction|reflexivity]. }
  split.
  { intros c N1 N2. unfold digit_value.
    destruct ((48 <=? c) && (c <=? 57)) eqn:E1.
    { apply andb_prop in E1 as [A B]. apply Z.leb_le in A, B. lia. }
    destruct ((65 <=? c) && (c <=? 70)) eqn:E2; [|reflexivity].
    apply andb_prop in E2 as [A B]. apply Z.leb_le in A, B. lia. }
  split; reflexivity.
Qed.

Lemma malformed_record_only_by_colon_witness :
  asciiHexToUShort [103; 49; 0] = (u16 (16 * 103 + 1), [103; 1; 0])
  /\ read_record 1 writeProgram_locals
       (mkState (chars "xy:00000001FF") [] [] 0 1 0 (repeat 0 16)) =
     Abort (ERROR_data HexError)
       (mkState (chars ":00000001FF") [] [] 0 1 0 (repeat 0 16)).
Proof.
  split.
  - apply (proj1 (proj2 malformed_record_only_by_colon) 103 49); lia.
  - apply (proj1 malformed_record_only_by_colon).
    exists 120, 121, (chars ":00000001FF").
    repeat split; discriminate.
Defined.

(** ** What the link operations leave alone *)

Lemma host_same_refl (s : state) : host_same s s.
Proof. repeat split. Qed.

Lemma host_same_trans (s1 s2 s3 : state) :
  host_same s1 s2 -> host_same s2 s3 -> host_same s1 s3.
Proof.
  intros (A1 & A2 & A3 & A4) (B1 & B2 & B3 & B4).
  repeat split; congruence.
Qed.

Lemma bind_inv {A B : Type} (m : M A) (k : A -> M B) (s s2 : state) (b : B) :
  bind m k s = Ret b s2 -> exists a s1, m s = Ret a s1 /\ k a s1 = Ret b s2.
Proof.
  unfold bind. destruct (m s) as [a s1| | | |]; try discriminate.
  intros H. exists a, s1. auto.
Qed.

Lemma link_only_bind {A B : Type} (m : M A) (k : A -> M B) :
  link_only m -> (forall a, link_only (k a)) -> link_only (bind m k).
Proof.
  intros Hm Hk s b s2 H. apply bind_inv in H as (a & s1 & H1 & H2).
  eapply host_same_trans; [eapply Hm|eapply Hk]; eassumption.
Qed.

Lemma link_only_ret {A : Type} (a : A) : link_only (ret a).
Proof. intros s b s' H. inversion H; subst. apply host_same_refl. Qed.

Lemma link_only_get {A : Type} (f : state -> A) : link_only (get f).
Proof. intros s b s' H. inversion H; subst. apply host_same_refl. Qed.

Lemma link_only_abort {A : Type} (f : failure) : link_only (@abort A f).
Proof. intros s b s' H. discriminate H. Qed.

Lemma link_only_hang {A : Type} (w : wait) : link_only (@hang A w).
Proof. intros s b s' H. discriminate H. Qed.

Lemma link_only_SPI_transfer (x : Z) : link_only (SPI_transfer x).
Proof. intros s b s' H. inversion H; subst. destruct s; repeat split. Qed.

Lemma link_only_SPI_transfer_ (x : Z) : link_only (SPI_transfer_ x).
Proof. intros s b s' H. inversion H; subst. destruct s; repeat split. Qed.

Lemma link_only_set_adrs (f : state -> Z) :
  link_only (modify (fun s => set_adrs (f s) s)).
Proof. intros s b s' H. inversion H; subst. destruct s; repeat split. Qed.

Lemma link_only_data_get (i : Z) : link_only (data_get i).
Proof.
  intros s b s' H. unfold data_get in H.
  destruct ((0 <=? i) && (i <? 16)); inversion H; subst. apply host_same_refl.
Qed.

Create HintDb link.
#[local] Hint Resolve link_only_ret link_only_get link_only_abort link_only_hang
  link_only_SPI_transfer link_only_SPI_transfer_ link_only_set_adrs
  link_only_data_get : link.

Ltac link_step :=
  match goal with
  | |- link_only (bind _ _) => apply link_only_bind; [|intros]
  | |- link_only (if ?c then _ else _) => destruct c
  | |- link_only (let (_, _) := ?p in _) => destruct p
  | |- link_only (match ?x with Some _ => _ | None => _ end) => destruct x
  | |- link_only (fun _ => OutOfFuel) => intros ? ? ? ?; discriminate
  | |- _ => solve [auto with link]
  end.

Ltac link := repeat link_step.

Lemma link_only_tpi_send_byte (d : Z) : link_only (tpi_send_byte d).
Proof. unfold tpi_send_byte. link. Qed.
#[local] Hint Resolve link_only_tpi_send_byte : link.

Lemma link_only_wait_start_bit (n : nat) : link_only (wait_start_bit n).
Proof. induction n; cbn [wait_start_bit]; link. Qed.
#[local] Hint Resolve link_only_wait_start_bit : link.

Lemma link_only_tpi_receive_byte : link_only tpi_receive_byte.
Proof.
  intros s b s' H. unfold tpi_receive_byte in H. revert H.
  generalize (length (miso s)). intros n. revert s b s'.
  change (link_only
            (b1 <- wait_start_bit n ;;
             b2 <- SPI_transfer 0xff ;;
             (if 0x0f =? Z.land 0x0f b1 then (_ <- SPI_transfer 0xff ;; ret tt) else ret tt) ;;
             match realign 8 b1 b2 with
             | Some b => ret b
             | None => fun _ => OutOfFuel
             end)).
  link.
Qed.
#[local] Hint Resolve link_only_tpi_receive_byte : link.

Lemma link_only_setPointer (a : Z) : link_only (setPointer a).
Proof.
  unfold setPointer. link.
Qed.
Lemma link_only_writeIO (a v : Z) : link_only (writeIO a v).
Proof. unfold writeIO. link. Qed.
Lemma link_only_readIO (a : Z) : link_only (readIO a).
Proof. unfold readIO. link. Qed.
#[local] Hint Resolve link_only_setPointer link_only_writeIO link_only_readIO : link.

Lemma link_only_nvm_busy_wait (n : nat) : link_only (nvm_busy_wait n).
Proof. induction n; cbn [nvm_busy_wait]; link. Qed.
#[local] Hint Resolve link_only_nvm_busy_wait : link.

Lemma link_only_nvm_wait : link_only nvm_wait.
Proof.
  intros s b s' H. unfold nvm_wait in H.
  eapply link_only_nvm_busy_wait; eassumption.
Qed.
Lemma link_only_write_words (n : nat) (i : Z) : link_only (write_words n i).
Proof. revert i. induction n; intros i; cbn [write_words]; link. Qed.
Lemma link_only_verify_words (n : nat) (c : Z) : link_only (verify_words n c).
Proof. revert c. induction n; intros c; cbn [verify_words]; link. Qed.
#[local] Hint Resolve link_only_nvm_wait link_only_write_words
  link_only_verify_words : link.

Lemma link_only_program_group (words : Z) (l : locals) :
  link_only (program_group words l).
Proof. unfold program_group. link. Qed.

Lemma link_only_eraseChip : link_only eraseChip.
Proof. unfold eraseChip. link. Qed.

(** [program_group] gives the locals back with the byte index at zero. *)
Lemma program_group_locals (words : Z) (l l' : locals) (s s' : state) :
  program_group words l s = Ret l' s' -> l' = set_currentByte 0 l.
Proof.
  unfold program_group. intros H.
  repeat (apply bind_inv in H as (? & ? & _ & H)).
  inversion H. reflexivity.
Qed.

(** ** Reading fields *)

Lemma u8_add_l (a b : Z) : u8 (u8 a + b) = u8 (a + b).
Proof. unfold u8. rewrite Zplus_mod_idemp_l. reflexivity. Qed.

Lemma u8_add_r (a b : Z) : u8 (a + u8 b) = u8 (a + b).
Proof. unfold u8. rewrite Zplus_mod_idemp_r. reflexivity. Qed.

Lemma u8_u8 (a : Z) : u8 (u8 a) = u8 a.
Proof. unfold u8. apply Z.mod_mod. lia. Qed.

Lemma upd_length (n : nat) (v : Z) (l : list Z) : length (upd n v l) = length l.
Proof.
  revert n. induction l as [|h t IH]; intros [|n]; cbn; auto.
Qed.

Lemma nth_upd (n : nat) (v : Z) (l : list Z) :
  (n < length l)%nat -> nth n (upd n v l) 0 = v.
Proof.
  revert n. induction l as [|h t IH]; intros [|n] H; cbn in *; try lia; auto.
  apply IH. lia.
Qed.

Lemma field_chars_cons (c0 c1 : Z) (fields : list (Z * Z)) :
  field_chars ((c0, c1) :: fields) = c0 :: c1 :: field_chars fields.
Proof. reflexivity. Qed.

Lemma fields_sum_cons (c0 c1 : Z) (fields : list (Z * Z)) :
  fields_sum ((c0, c1) :: fields) = hex_field c0 c1 + fields_sum fields.
Proof. reflexivity. Qed.

(** The loop of a type-2 record reads [n] fields, whatever they hold, adds
    them to the sum and touches nothing but the field buffer. *)
Lemma skip_record_eq (fields : list (Z * Z)) :
  forall (l : locals) (rest : list Z) (s : state),
    0 <= checkSum l < 256 ->
    serial s = field_chars fields ++ rest ->
    exists t,
      skip_record (length fields) l s =
      Ret (set_checkSum (u8 (checkSum l + fields_sum fields)) (set_temp t l))
          (set_serial rest s).
Proof.
  induction fields as [|[c0 c1] fields IH]; intros l rest s Hc Hs.
  - exists (temp l). cbn in Hs.
    destruct s as [ser mi mo ad ty ps da]. cbn in Hs. subst ser.
    destruct l as [t a cs so cb ll fe]. cbn in Hc.
    cbn [length skip_record fields_sum fold_right]. unfold ret.
    locals_simpl. state_simpl. rewrite Z.add_0_r, u8_small by exact Hc.
    reflexivity.
  - rewrite field_chars_cons in Hs. cbn [length skip_record app] in *.
    destruct s as [ser mi mo ad ty ps da]. cbn [serial] in Hs. subst ser.
    unfold bind at 1. unfold Sread at 1. state_simpl.
    unfold bind at 1. unfold Sread at 1. state_simpl.
    rewrite fields_sum_cons. unfold hex_field at 1.
    destruct (asciiHexToUShort [to_char c0; to_char c1; 0]) as [v t] eqn:E.
    destruct (IH (set_checkSum (u8 (checkSum l + v)) (set_temp t l)) rest
                 (mkState (field_chars fields ++ rest) mi mo ad ty ps da))
      as [t' IH']; [apply u8_range|reflexivity|].
    exists t'. etransitivity; [exact IH'|].
    destruct l as [t0 a cs so cb ll fe]. locals_simpl. state_simpl.
    cbn [fst]. rewrite u8_add_l. do 3 f_equal. lia.
Qed.

(** ** Records as characters *)

Lemma hex_check_all : forallb (fun i => hex_check (Z.of_nat i)) (seq 0 256) = true.
Proof. vm_compute. reflexivity. Qed.

Lemma hex_field_hex (b : Z) :
  0 <= b < 256 -> hex_field (hex_digit (b / 16)) (hex_digit (b mod 16)) = b.
Proof.
  intros H. apply Z.eqb_eq. exact (byte_cases _ hex_check_all b H).
Qed.

Lemma field_chars_hex (bytes : list Z) :
  field_chars (hex_fields bytes) = flat_map hex2 bytes.
Proof.
  induction bytes as [|b bytes IH]; [reflexivity|].
  cbn [hex_fields map]. rewrite field_chars_cons. fold (hex_fields bytes).
  rewrite IH. reflexivity.
Qed.

Lemma fields_sum_hex (bytes : list Z) :
  Forall (fun b => 0 <= b < 256) bytes ->
  fields_sum (hex_fields bytes) = fold_right Z.add 0 bytes.
Proof.
  induction 1 as [|b bytes Hb _ IH]; [reflexivity|].
  cbn [hex_fields map]. rewrite fields_sum_cons. fold (hex_fields bytes).
  rewrite IH, hex_field_hex by exact Hb. reflexivity.
Qed.

Lemma twos_complement_mod (x : Z) : twos_complement x = (- x) mod 256.
Proof.
  unfold twos_complement. change 0xFF with (Z.ones 8).
  rewrite Z.land_ones by lia. change (2 ^ 8) with 256.
  replace (Z.lnot x + 1) with (- x) by (unfold Z.lnot, Z.pred; lia).
  reflexivity.
Qed.

Lemma twos_complement_range (x : Z) : 0 <= twos_complement x < 256.
Proof. rewrite twos_complement_mod. apply Z.mod_pos_bound. lia. Qed.

(** The finalisation by [com] and [inc] is the portable two's complement. *)
Lemma com_inc_twos_complement (x : Z) : inc (com x) = twos_complement x.
Proof.
  rewrite twos_complement_mod. unfold inc, com, u8.
  rewrite Zplus_mod_idemp_l.
  replace (0xFF - x + 1) with (- x + 1 * 256) by lia.
  apply Z.mod_add. lia.
Qed.

(** ** The header of a record *)

Lemma read_header_eq (l : locals) (lead : list Z) (t0 t1 a0 a1 a2 a3 y0 y1 : Z)
      (rest : list Z) (s : state) :
  stray lead ->
  serial s = lead ++ 58 :: t0 :: t1 :: a0 :: a1 :: a2 :: a3 :: y0 :: y1 :: rest ->
  read_header l s =
  Ret (header_locals l t0 t1 a0 a1 a2 a3 y0 y1)
      (set_adrs (u16 (addr_field a0 a1 a2 a3 + 0x4000)) (set_serial rest s)).
Proof.
  intros Hl Hs. destruct s as [ser mi mo ad ty ps da]. cbn [serial] in Hs. subst ser.
  unfold read_header.
  destruct Hl as [->|(c & -> & Hc)]; cbn [app].
  - unfold bind at 1. unfold wait_available at 1. state_simpl.
    unfold bind at 1. unfold expect_colon at 1.
    unfold bind at 1. unfold Sread at 1. state_simpl.
    change (to_char 58 =? 58) with true. cbn [negb]. unfold ret at 1.
    etransitivity; [eapply read_fields_eq; reflexivity|]. reflexivity.
  - unfold bind at 1. unfold wait_available at 1. state_simpl.
    unfold bind at 1. unfold expect_colon at 1.
    unfold bind at 1. unfold Sread at 1. state_simpl.
    apply Z.eqb_neq in Hc. rewrite Hc. cbn [negb].
    unfold bind at 1. unfold Sread at 1. state_simpl.
    change (to_char 58 =? 58) with true. cbn [negb]. unfold ret at 1.
    etransitivity; [eapply read_fields_eq; reflexivity|]. reflexivity.
Qed.

Lemma addr_check_all :
  forallb (fun i => forallb (fun j => addr_check (Z.of_nat i) (Z.of_nat j)) (seq 0 256))
          (seq 0 256) = true.
Proof. vm_compute. reflexivity. Qed.

Lemma addr_field_hex (off : Z) :
  0 <= off < 65536 ->
  addr_field (hex_digit (off / 256 / 16)) (hex_digit ((off / 256) mod 16))
             (hex_digit (off mod 256 / 16)) (hex_digit ((off mod 256) mod 16)) = off.
Proof.
  intros H.
  assert (Hh : 0 <= off / 256 < 256).
  { split; [apply Z.div_pos; lia|apply Z.div_lt_upper_bound; lia]. }
  assert (Hl : 0 <= off mod 256 < 256) by (apply Z.mod_pos_bound; lia).
  pose proof (byte_cases
                (fun hi => forallb (fun j => addr_check hi (Z.of_nat j)) (seq 0 256))
                addr_check_all (off / 256) Hh) as C. cbv beta in C.
  pose proof (byte_cases (addr_check (off / 256)) C (off mod 256) Hl) as C'.
  unfold addr_check in C'.
  apply Z.eqb_eq in C'. rewrite C'.
  pose proof (Z.div_mod off 256 ltac:(lia)). lia.
Qed.

Lemma read_header_record (l : locals) (lead : list Z) (len off ty : Z)
      (payload : list Z) (ck : Z) (rest : list Z) (s : state) :
  stray lead ->
  0 <= len < 256 -> 0 <= off < 65536 -> 0 <= ty < 256 ->
  serial s = lead ++ record_chars len off ty payload ck ++ rest ->
  exists t a,
    read_header l s =
    Ret (record_locals l len off ty t a)
        (set_adrs (u16 (off + 0x4000))
           (set_serial (flat_map hex2 payload ++ hex2 ck ++ rest) s)).
Proof.
  intros Hlead Hlen Hoff Hty Hs.
  assert (Hh : 0 <= off / 256 < 256).
  { split; [apply Z.div_pos; lia|apply Z.div_lt_upper_bound; lia]. }
  assert (Hl : 0 <= off mod 256 < 256) by (apply Z.mod_pos_bound; lia).
  unfold record_chars in Hs. unfold hex2 at 1 2 3 4 in Hs.
  cbn [app] in Hs. rewrite <- !app_assoc in Hs.
  rewrite (read_header_eq l lead _ _ _ _ _ _ _ _ _ s Hlead Hs).
  unfold header_locals. rewrite !hex_field_hex, addr_field_hex by assumption.
  rewrite (u8_small len), (u8_small ty) by assumption.
  eexists. eexists. unfold record_locals. f_equal. f_equal.
  - rewrite u8_add_l, <- Z.add_assoc, u8_add_l. f_equal. lia.
  - replace (u16 (off + 0x4000) =? 0x4000) with (off =? 0); [reflexivity|].
    unfold u16. destruct (off =? 0) eqn:E.
    + apply Z.eqb_eq in E. subst off. reflexivity.
    + apply Z.eqb_neq in E. symmetry. apply Z.eqb_neq.
      destruct (Z_lt_le_dec off (65536 - 0x4000)).
      * rewrite Z.mod_small by lia. lia.
      * replace (off + 0x4000) with (off + 0x4000 - 65536 + 1 * 65536) by lia.
        rewrite Z.mod_add by lia. rewrite Z.mod_small by lia. lia.
Qed.

(** ** Records of type 2 *)
Lemma skip_type2_record (words : Z) (l : locals) (s : state)
        (lead : list Z) (off : Z) (payload : list Z) (ck : Z) (rest : list Z) :
  stray lead ->
  0 <= off < 65536 ->
  (length payload < 256)%nat ->
  serial s = lead ++ record_chars (Z.of_nat (length payload)) off 2 payload ck ++ rest ->
  exists l' s',
    read_record words l s = Ret l' s'
    /\ serial s' = rest /\ miso s' = miso s /\ mosi s' = mosi s
    /\ data s' = data s /\ progSize s' = progSize s
    /\ fileEnd l' = fileEnd l.
Proof.
  intros Hlead Hoff Hlen Hs.
  destruct (read_header_record l lead (Z.of_nat (length payload)) off 2 payload ck rest s)
    as (t & a & Hh); try assumption; try lia.
  unfold read_record. unfold bind at 1. rewrite Hh.
  unfold record_locals at 1. cbn [someth]. change (2 =? 2) with true. cbv iota.
  unfold record_locals at 1. cbn [linelength].
  replace (Z.to_nat (Z.of_nat (length payload) + 1))
    with (length (hex_fields payload ++ [(hex_digit (ck / 16), hex_digit (ck mod 16))])).
  2:{ rewrite length_app. unfold hex_fields. rewrite length_map. cbn [length]. lia. }
  match goal with
  | |- context [skip_record _ ?l0 ?s0] =>
      destruct (skip_record_eq
                  (hex_fields payload ++ [(hex_digit (ck / 16), hex_digit (ck mod 16))])
                  l0 rest s0) as [t' Hk]
  end.
  - unfold record_locals. cbn [checkSum]. apply u8_range.
  - destruct s as [ser mi mo ad ty ps da]. state_simpl.
    unfold field_chars. rewrite flat_map_app. fold (field_chars (hex_fields payload)).
    rewrite field_chars_hex. rewrite <- app_assoc. reflexivity.
  - eexists. eexists. split; [exact Hk|].
    destruct s as [ser mi mo ad ty ps da]. state_simpl. locals_simpl.
    unfold record_locals. cbn [fileEnd]. change (2 =? 1) with false.
    repeat split.
Qed.

(** C2 (as amended): of a record of type 0x02 the loader reads the
    declared-length payload and the checksum field (length + 1 fields in
    one loop, the checksum not being compared), and none of it reaches the
    data buffer, the byte count or the target. *)
Theorem type2_record_skipped (words : Z) (l : locals) (s : state)
        (lead : list Z) (off : Z) (payload : list Z) (ck : Z) (rest : list Z) :
  stray lead ->
  0 <= off < 65536 ->
  (length payload < 256)%nat ->
  serial s = lead ++ record_chars (Z.of_nat (length payload)) off 2 payload ck ++ rest ->
  exists l' s',
    read_record words l s = Ret l' s'
    /\ serial s' = rest /\ miso s' = miso s /\ mosi s' = mosi s
    /\ data s' = data s /\ progSize s' = progSize s
    /\ fileEnd l' = fileEnd l.
Proof. exact (skip_type2_record words l s lead off payload ck rest). Qed.

Lemma type2_record_skipped_witness :
  exists l' s',
    read_record 1 writeProgram_locals
      (mkState (chars ":020000021200EA:00000001FF") [] [] 0 1 0 (repeat 0 16)) =
    Ret l' s'
    /\ serial s' = chars ":00000001FF" /\ miso s' = [] /\ mosi s' = []
    /\ data s' = repeat 0 16 /\ progSize s' = 0 /\ fileEnd l' = false.
Proof.
  apply (type2_record_skipped 1 writeProgram_locals
           (mkState (chars ":020000021200EA:00000001FF") [] [] 0 1 0 (repeat 0 16))
           [] 0 [0x12; 0x00] 0xEA (chars ":00000001FF")).
  - left. reflexivity.
  - lia.
  - cbn. lia.
  - reflexivity.
Defined.

(** The claim holds for the valid records of type 2. *)
Lemma payload_skipped_type2 : payload_skipped 2.
Proof.
  intros words l s off payload rest Hoff Hp Hlen Hs.
  destruct (skip_type2_record words l s [] off payload _ rest
              (or_introl eq_refl) Hoff Hlen Hs)
    as (l' & s' & H & H1 & H2 & H3 & H4 & H5 & _).
  exists l', s'. auto 10.
Qed.

(** C2, counterexample: a valid record of type 0x04 with the payload 00 00,
    sent to an ATtiny10 whose answers are those of a target that programs
    and verifies: the two payload bytes are counted, programmed at 0x4000
    and read back. *)
Lemma type4_payload_programmed :
  let s := mkState (chars ":020000040000FA") (answer 0 0 ++ answer 0 0 ++ answer 0 0)
                   [] 0 Tiny10 0 (repeat 0xFF 16) in
  (exists l' s',
      read_record (words_of Tiny10) writeProgram_locals s = Ret l' s'
      /\ progSize s' = 2 /\ miso s' = []
      /\ firstn 22 (mosi s') =
         frames [SSTPRL; 0x00; SSTPRH; 0x40; 0xF3; NVM_WORD_WRITE;
                 SSTp; 0x00; SSTp; 0x00] ++ [0xff; 0xff]
      /\ firstn 2 (data s') = [0; 0])
  /\ ~ payload_skipped 4.
Proof.
  split.
  - eexists. eexists. split; [vm_compute; reflexivity|].
    repeat split.
  - intros H.
    destruct (H (words_of Tiny10) writeProgram_locals
                (mkState (chars ":020000040000FA")
                         (answer 0 0 ++ answer 0 0 ++ answer 0 0)
                         [] 0 Tiny10 0 (repeat 0xFF 16))
                0 [0; 0] [])
      as (l' & s' & E & _ & _ & _ & _ & P).
    + lia.
    + repeat constructor; lia.
    + cbn. lia.
    + reflexivity.
    + vm_compute in E. inversion E; subst. discriminate P.
Qed.

(** ** The checksum field *)
Lemma read_checksum_eq (l : locals) (c0 c1 : Z) (rest : list Z) (s : state) :
  serial s = c0 :: c1 :: rest ->
  read_checksum l s =
  if twos_complement (checkSum l) =? u8 (hex_field c0 c1)
  then Ret (mkLocals (snd (asciiHexToUShort [to_char c0; to_char c1; 0])) (addr l)
                     (twos_complement (checkSum l)) (u8 (hex_field c0 c1))
                     (currentByte l) (linelength l) (fileEnd l))
           (set_serial rest s)
  else Abort (ERROR_data Checksum) (set_serial rest s).
Proof.
  intros Hs. destruct s as [ser mi mo ad ty ps da]. cbn [serial] in Hs. subst ser.
  unfold read_checksum.
  unfold bind at 1. unfold wait_available at 1. state_simpl.
  unfold bind at 1. unfold Sread at 1. state_simpl.
  unfold bind at 1. unfold Sread at 1. state_simpl.
  unfold hex_field. rewrite com_inc_twos_complement.
  destruct (asciiHexToUShort [to_char c0; to_char c1; 0]) as [v t].
  cbn [fst snd].
  destruct (twos_complement (checkSum l) =? u8 v); reflexivity.
Qed.

(** ** The data bytes of a record *)
(** Padding changes the byte index and the data buffer only. *)
Lemma pad_group_frame (n : nat) (words : Z) :
  forall (l l' : locals) (s s' : state),
    pad_group n words l s = Ret l' s' ->
    serial s' = serial s /\ miso s' = miso s /\ mosi s' = mosi s
    /\ type s' = type s /\ progSize s' = progSize s
    /\ length (data s') = length (data s)
    /\ l' = set_currentByte (currentByte l') l.
Proof.
  induction n as [|n IH]; intros l l' s s' H; cbn [pad_group] in H.
  - destruct (currentByte l <? 2 * words); [discriminate|].
    inversion H; subst. destruct l'; repeat split.
  - destruct (currentByte l <? 2 * words).
    + apply bind_inv in H as ([] & s1 & H1 & H2).
      unfold data_set in H1.
      destruct ((0 <=? currentByte l) && (currentByte l <? 16)); [|discriminate].
      inversion H1; subst s1. apply IH in H2.
      destruct s as [ser mi mo ad ty ps da]. revert H2. state_simpl.
      rewrite upd_length. destruct l as [t a cs so cb ll fe]. locals_simpl.
      intros (A1 & A2 & A3 & A4 & A5 & A6 & A7). repeat split; assumption.
    + inversion H; subst. destruct l'; repeat split.
Qed.

Lemma data_byte_eq (words : Z) (l : locals) (c0 c1 : Z)
      (ser mi mo : list Z) (ad ty ps : Z) (da : list Z) :
  data_byte words l (mkState (c0 :: c1 :: ser) mi mo ad ty ps da) =
  if (0 <=? currentByte l) && (currentByte l <? 16) then
    let da' := upd (Z.to_nat (currentByte l)) (u8 (hex_field c0 c1)) da in
    let l1 :=
      mkLocals (snd (asciiHexToUShort [to_char c0; to_char c1; 0])) (addr l)
               (u8 (checkSum l + nth (Z.to_nat (currentByte l)) da' 0)) (someth l)
               (u16 (currentByte l + 1)) (linelength l) (fileEnd l) in
    let s1 := mkState ser mi mo ad ty (u16 (ps + 1)) da' in
    if u16 (ps + 1) >? capacity ty then Abort (ERROR_data TooLarge) s1
    else
      (l2 <- (if fileEnd l1 then pad_group (Z.to_nat (2 * words)) words l1 else ret l1) ;;
       if currentByte l2 =? 2 * words then program_group words l2 else ret l2) s1
  else OutOfBounds (mkState ser mi mo ad ty ps da).
Proof.
  unfold data_byte.
  unfold bind at 1. unfold wait_available at 1. state_simpl.
  unfold bind at 1. unfold Sread at 1. state_simpl.
  unfold bind at 1. unfold Sread at 1. state_simpl.
  unfold hex_field.
  destruct (asciiHexToUShort [to_char c0; to_char c1; 0]) as [v t]. cbn [fst snd].
  unfold bind at 1. unfold data_set at 1. state_simpl.
  destruct ((0 <=? currentByte l) && (currentByte l <? 16)) eqn:E; [|reflexivity].
  unfold bind at 1. unfold data_get at 1. state_simpl. rewrite E.
  unfold bind at 1. unfold modify at 1. state_simpl.
  unfold bind at 1. unfold get at 1. state_simpl.
  unfold bind at 1. unfold get at 1. state_simpl.
  cbv zeta.
  destruct (u16 (ps + 1) >? capacity ty); reflexivity.
Qed.

(** A data byte that is processed without a failure: its two characters
    are gone, its value is in the sum. *)
Lemma data_byte_inv (words : Z) (l l1 : locals) (s s1 : state)
      (c0 c1 : Z) (more : list Z) :
  length (data s) = 16%nat ->
  serial s = c0 :: c1 :: more ->
  data_byte words l s = Ret l1 s1 ->
  serial s1 = more
  /\ checkSum l1 = u8 (checkSum l + hex_field c0 c1)
  /\ length (data s1) = 16%nat
  /\ fileEnd l1 = fileEnd l /\ linelength l1 = linelength l
  /\ someth l1 = someth l
  /\ type s1 = type s
  /\ progSize s1 = u16 (progSize s + 1).
Proof.
  intros Hd Hs H. destruct s as [ser mi mo ad ty ps da].
  cbn [serial] in Hs. cbn [data] in Hd. subst ser.
  rewrite data_byte_eq in H.
  destruct ((0 <=? currentByte l) && (currentByte l <? 16)) eqn:E; [|discriminate].
  apply andb_prop in E as [E1 E2]. apply Z.leb_le in E1. apply Z.ltb_lt in E2.
  cbv zeta in H.
  destruct (u16 (ps + 1) >? capacity ty); [discriminate|].
  rewrite nth_upd in H by lia. rewrite u8_add_r in H.
  apply bind_inv in H as (l2 & s2 & H2 & H3).
  assert (F2 : serial s2 = more /\ type s2 = ty /\ progSize s2 = u16 (ps + 1)
               /\ length (data s2) = 16%nat
               /\ l2 = set_currentByte (currentByte l2)
                         (mkLocals (snd (asciiHexToUShort [to_char c0; to_char c1; 0]))
                                   (addr l) (u8 (checkSum l + hex_field c0 c1))
                                   (someth l) (u16 (currentByte l + 1))
                                   (linelength l) (fileEnd l))).
  { cbn [fileEnd] in H2. destruct (fileEnd l).
    - apply pad_group_frame in H2 as (A1 & _ & _ & A4 & A5 & A6 & A7).
      cbn [serial type progSize data] in *. rewrite upd_length in A6.
      repeat split; try assumption. congruence.
    - inversion H2; subst. cbn [serial type progSize data].
      rewrite upd_length. repeat split; assumption. }
  destruct F2 as (A1 & A2 & A3 & A4 & A5).
  assert (F3 : host_same s2 s1 /\ l1 = set_currentByte (currentByte l1) l2).
  { destruct (currentByte l2 =? 2 * words).
    - split; [eapply link_only_program_group; eassumption|].
      apply program_group_locals in H3. subst l1. destruct l2; reflexivity.
    - inversion H3; subst. split; [apply host_same_refl|].
      destruct l1; reflexivity. }
  destruct F3 as ((B1 & B2 & B3 & B4) & B5).
  rewrite B5, A5. locals_simpl. cbn [type progSize].
  repeat split; try congruence.
Qed.

Lemma read_data_inv (words : Z) (fields : list (Z * Z)) :
  forall (l l1 : locals) (s s1 : state) (rest : list Z),
    length (data s) = 16%nat ->
    0 <= checkSum l < 256 ->
    serial s = field_chars fields ++ rest ->
    read_data (length fields) words l s = Ret l1 s1 ->
    serial s1 = rest
    /\ checkSum l1 = u8 (checkSum l + fields_sum fields)
    /\ length (data s1) = 16%nat
    /\ fileEnd l1 = fileEnd l /\ linelength l1 = linelength l
    /\ someth l1 = someth l
    /\ type s1 = type s.
Proof.
  induction fields as [|[c0 c1] fields IH]; intros l l1 s s1 rest Hd Hc Hs H.
  - cbn in H. inversion H; subst. cbn in Hs.
    cbn [fields_sum fold_right]. rewrite Z.add_0_r, u8_small by exact Hc.
    repeat split; assumption.
  - rewrite field_chars_cons in Hs. cbn [app] in Hs.
    cbn [length read_data] in H.
    apply bind_inv in H as (l2 & s2 & H2 & H3).
    destruct (data_byte_inv words l l2 s s2 c0 c1 _ Hd Hs H2)
      as (A1 & A2 & A3 & A4 & A5 & A6 & A7 & _).
    destruct (IH l2 l1 s2 s1 rest A3) as (B1 & B2 & B3 & B4 & B5 & B6 & B7);
      try assumption.
    { rewrite A2. apply u8_range. }
    rewrite fields_sum_cons.
    repeat split; try congruence.
    rewrite B2, A2, u8_add_l. f_equal. lia.
Qed.

Lemma bind_assoc {A B C : Type} (m : M A) (k : A -> M B) (h : B -> M C) (s : state) :
  bind (bind m k) h s = bind m (fun a => bind (k a) h) s.
Proof. unfold bind. destruct (m s); reflexivity. Qed.

Lemma bind_ext {A B : Type} (m : M A) (k k' : A -> M B) (s : state) :
  (forall a s', k a s' = k' a s') -> bind m k s = bind m k' s.
Proof. intros H. unfold bind. destruct (m s); auto. Qed.

Lemma read_data_app (n m : nat) (words : Z) :
  forall (l : locals) (s : state),
    read_data (n + m) words l s =
    (l' <- read_data n words l ;; read_data m words l') s.
Proof.
  induction n as [|n IH]; intros l s.
  - reflexivity.
  - cbn [Nat.add read_data]. rewrite bind_assoc.
    apply bind_ext. intros l' s'. apply IH.
Qed.

(** ** Checksum validation *)

Lemma twos_complement_u8 (x : Z) : twos_complement (u8 x) = twos_complement x.
Proof.
  rewrite !twos_complement_mod. unfold u8.
  change (- (x mod 256)) with (0 - x mod 256). change (- x) with (0 - x).
  apply Zminus_mod_idemp_r.
Qed.

(** A record of another type than 2, read up to its checksum field. *)
Lemma record_to_checksum (words : Z) (l : locals) (s : state) (lead : list Z)
      (off ty : Z) (payload : list Z) (ck : Z) (rest : list Z) :
  stray lead ->
  0 <= off < 65536 -> 0 <= ty < 256 -> ty <> 2 ->
  Forall (fun b => 0 <= b < 256) payload ->
  (length payload < 256)%nat ->
  0 <= ck < 256 ->
  length (data s) = 16%nat ->
  serial s = lead ++ record_chars (Z.of_nat (length payload)) off ty payload ck ++ rest ->
  read_record words l s = (l1 <- read_to_checksum words l ;; read_checksum l1) s
  /\ forall l1 s1,
      read_to_checksum words l s = Ret l1 s1 ->
      checkSum l1 = u8 (record_sum (Z.of_nat (length payload)) off ty payload)
      /\ read_checksum l1 s1 =
         if twos_complement (record_sum (Z.of_nat (length payload)) off ty payload) =? ck
         then Ret (mkLocals (snd (asciiHexToUShort
                                    [to_char (hex_digit (ck / 16));
                                     to_char (hex_digit (ck mod 16)); 0]))
                            (addr l1)
                            (twos_complement (checkSum l1)) ck
                            (currentByte l1) (linelength l1) (fileEnd l1))
                  (set_serial rest s1)
         else Abort (ERROR_data Checksum) (set_serial rest s1).
Proof.
  intros Hlead Hoff Hty Hty2 Hp Hlen Hck Hd Hs.
  destruct (read_header_record l lead (Z.of_nat (length payload)) off ty payload ck rest s)
    as (t & a & Hh); try assumption; try lia.
  split.
  - unfold read_record, read_to_checksum. rewrite bind_assoc.
    unfold bind at 1 3. rewrite Hh.
    unfold record_locals at 1. cbn [someth].
    apply Z.eqb_neq in Hty2. rewrite Hty2. reflexivity.
  - intros l1 s1 H. unfold read_to_checksum in H. unfold bind at 1 in H.
    rewrite Hh in H. unfold record_locals at 1 in H. cbn [linelength] in H.
    rewrite Nat2Z.id in H.
    assert (Hf : length (hex_fields payload) = length payload)
      by (unfold hex_fields; apply length_map).
    rewrite <- Hf in H.
    apply read_data_inv with (rest := hex2 ck ++ rest) in H.
    + destruct H as (A1 & A2 & _). rewrite Hf in A2.
      rewrite fields_sum_hex in A2 by exact Hp.
      unfold record_locals in A2. cbn [checkSum] in A2.
      rewrite u8_add_l in A2.
      assert (E : checkSum l1 = u8 (record_sum (Z.of_nat (length payload)) off ty payload)).
      { rewrite A2. unfold record_sum. reflexivity. }
      split; [exact E|].
      unfold hex2 in A1. cbn [app] in A1.
      rewrite (read_checksum_eq l1 _ _ rest s1 A1).
      rewrite hex_field_hex, (u8_small ck) by exact Hck.
      rewrite E at 1. rewrite twos_complement_u8. reflexivity.
    + destruct s; exact Hd.
    + unfold record_locals. cbn [checkSum]. apply u8_range.
    + destruct s as [ser mi mo ad ty' ps da]. state_simpl.
      rewrite field_chars_hex. reflexivity.
Qed.

(** C3 (as amended): for a record of any type but 0x02 that is read up to
    its checksum field, the running sum at that point is the sum of the
    length, address, type and payload bytes modulo 256; loading goes on if
    and only if its two's complement equals the received checksum byte, and
    aborts with the checksum error otherwise.  The finalisation by [com]
    and [inc] is the portable [(~sum + 1) & 0xFF]. *)
Theorem checksum_validated (words : Z) (l : locals) (s : state) (lead : list Z)
        (off ty : Z) (payload : list Z) (ck : Z) (rest : list Z) :
  stray lead ->
  0 <= off < 65536 -> 0 <= ty < 256 -> ty <> 2 ->
  Forall (fun b => 0 <= b < 256) payload ->
  (length payload < 256)%nat ->
  0 <= ck < 256 ->
  length (data s) = 16%nat ->
  serial s = lead ++ record_chars (Z.of_nat (length payload)) off ty payload ck ++ rest ->
  let sum := record_sum (Z.of_nat (length payload)) off ty payload in
  (forall x, inc (com x) = Z.land (Z.lnot x + 1) 0xFF)
  /\ (forall l1 s1,
         read_to_checksum words l s = Ret l1 s1 ->
         checkSum l1 = u8 sum
         /\ (twos_complement sum = ck ->
             exists l', read_record words l s = Ret l' (set_serial rest s1))
         /\ (twos_complement sum <> ck ->
             read_record words l s = Abort (ERROR_data Checksum) (set_serial rest s1)))
  /\ (forall l' s', read_record words l s = Ret l' s' -> twos_complement sum = ck).
Proof.
  intros Hlead Hoff Hty Hty2 Hp Hlen Hck Hd Hs sum.
  destruct (record_to_checksum words l s lead off ty payload ck rest)
    as [Hr Hc]; try assumption.
  split; [exact com_inc_twos_complement|]. split.
  - intros l1 s1 H1. destruct (Hc l1 s1 H1) as [E Hk]. fold sum in E, Hk.
    split; [exact E|]. split.
    + intros Heq. rewrite Hr. unfold bind. rewrite H1, Hk.
      apply Z.eqb_eq in Heq. rewrite Heq. eexists. reflexivity.
    + intros Hne. rewrite Hr. unfold bind. rewrite H1, Hk.
      apply Z.eqb_neq in Hne. rewrite Hne. reflexivity.
  - intros l' s' H. rewrite Hr in H.
    apply bind_inv in H as (l1 & s1 & H1 & H2).
    destruct (Hc l1 s1 H1) as [_ Hk]. fold sum in Hk. rewrite Hk in H2.
    destruct (twos_complement sum =? ck) eqn:E; [|discriminate].
    apply Z.eqb_eq. exact E.
Qed.

Lemma checksum_validated_witness :
  read_record 1 writeProgram_locals
    (mkState (chars ":00000001FE:") [] [] 0 1 0 (repeat 0 16)) =
  Abort (ERROR_data Checksum) (mkState (chars ":") [] [] 0x4000 1 0 (repeat 0 16)).
Proof.
  refine (proj2 (proj2 (proj1 (proj2
            (checksum_validated 1 writeProgram_locals
               (mkState (chars ":00000001FE:") [] [] 0 1 0 (repeat 0 16))
               [] 0 1 [] 0xFE (chars ":")
               (or_introl eq_refl) _ _ _ _ _ _ _ _))
            (mkLocals [0; 1; 0] [0; 0; 0; 0; 0] 1 1 0 0 true)
            (mkState (chars "FE:") [] [] 0x4000 1 0 (repeat 0 16)) _)) _);
    try lia; try reflexivity; try discriminate.
  - constructor.
  - cbn. lia.
Defined.

(** C3, counterexample: the record ":020000020000FD" of type 0x02 has the
    byte sum 4, whose two's complement is 0xFC; its checksum field 0xFD is
    read and loading goes on. *)
Lemma type2_checksum_ignored :
  (exists l' s',
      read_record 1 writeProgram_locals
        (mkState (chars ":020000020000FD") [] [] 0 1 0 (repeat 0 16)) = Ret l' s'
      /\ serial s' = [] /\ fileEnd l' = false)
  /\ twos_complement (record_sum 2 0 2 [0; 0]) = 0xFC
  /\ ~ checksum_decides 2.
Proof.
  split; [|split].
  - eexists. eexists. split; [vm_compute; reflexivity|]. split; reflexivity.
  - reflexivity.
  - intros H.
    assert (E : 0xFD = twos_complement (record_sum (Z.of_nat (length [0; 0])) 0 2 [0; 0])).
    { eapply (H 1 writeProgram_locals _
                (mkState (chars ":020000020000FD") [] [] 0 1 0 (repeat 0 16))
                _ 0 [0; 0] 0xFD []).
      - lia.
      - repeat constructor; lia.
      - cbn. lia.
      - lia.
      - reflexivity.
      - reflexivity.
      - vm_compute. reflexivity. }
    vm_compute in E. discriminate E.
Qed.

(** ** Waiting for characters *)

(** The stream stops in the middle of a field, or at a field of a type-2
    record: [Sread] waits for ever. *)
Lemma skip_record_stall (fields : list (Z * Z)) :
  forall (n : nat) (l : locals) (tail : list Z) (s : state),
    (length fields < n)%nat ->
    (length tail < 2)%nat ->
    serial s = field_chars fields ++ tail ->
    skip_record n l s = Hang SerialWait (set_serial [] s).
Proof.
  induction fields as [|[c0 c1] fields IH]; intros n l tail s Hn Ht Hs.
  - destruct n as [|n]; [cbn in Hn; lia|]. cbn [skip_record].
    destruct s as [ser mi mo ad ty ps da]. cbn in Hs. subst ser.
    destruct tail as [|c [|c' tail]]; [reflexivity|reflexivity|cbn in Ht; lia].
  - destruct n as [|n]; [cbn in Hn; lia|]. cbn [skip_record].
    rewrite field_chars_cons in Hs. cbn [app] in Hs.
    destruct s as [ser mi mo ad ty ps da]. cbn [serial] in Hs. subst ser.
    unfold bind at 1. unfold Sread at 1. state_simpl.
    unfold bind at 1. unfold Sread at 1. state_simpl.
    destruct (asciiHexToUShort [to_char c0; to_char c1; 0]) as [v t].
    etransitivity; [eapply (IH n _ tail); [cbn in Hn; lia|exact Ht|reflexivity]|].
    reflexivity.
Qed.

(** The stream stops where a data byte or the checksum field would start. *)
Lemma stall_at_byte (m : nat) (words : Z) (l : locals) (s : state) :
  serial s = [] ->
  (l' <- read_data m words l ;; read_checksum l') s = Abort (ERROR_data TimeOut) s.
Proof.
  intros Hs. destruct s as [ser mi mo ad ty ps da]. cbn [serial] in Hs. subst ser.
  destruct m; reflexivity.
Qed.

(** The stream stops after the first character of a data byte or of the
    checksum field. *)
Lemma stall_in_byte (m : nat) (words : Z) (l : locals) (s : state) (c : Z) :
  serial s = [c] ->
  (l' <- read_data m words l ;; read_checksum l') s =
  Hang SerialWait (set_serial [] s).
Proof.
  intros Hs. destruct s as [ser mi mo ad ty ps da]. cbn [serial] in Hs. subst ser.
  destruct m; reflexivity.
Qed.

Lemma record_after_bytes (words : Z) (l lh l1 : locals) (s sh s1 : state) (k : nat) :
  read_header l s = Ret lh sh ->
  someth lh <> 2 ->
  (k <= Z.to_nat (linelength lh))%nat ->
  read_data k words lh sh = Ret l1 s1 ->
  read_record words l s =
  (l' <- read_data (Z.to_nat (linelength lh) - k) words l1 ;; read_checksum l') s1.
Proof.
  intros Hh Hty Hk Hd.
  unfold read_record. rewrite (bind_ret _ _ _ _ _ Hh).
  apply Z.eqb_neq in Hty. rewrite Hty.
  assert (E : read_data (Z.to_nat (linelength lh)) words lh sh =
              (l' <- read_data k words lh ;;
               read_data (Z.to_nat (linelength lh) - k) words l') sh).
  { rewrite <- read_data_app. f_equal. lia. }
  unfold bind at 1. rewrite E. rewrite (bind_ret _ _ _ _ _ Hd). reflexivity.
Qed.

Lemma header_stall (words : Z) (l : locals) (s : state) (hdr : list Z) :
  serial s = 58 :: hdr ->
  (length hdr < 8)%nat ->
  exists s', read_record words l s = Hang SerialWait s'.
Proof.
  intros Hs Hl. destruct s as [ser mi mo ad ty ps da]. cbn [serial] in Hs. subst ser.
  unfold read_record, read_header.
  unfold bind at 1. unfold bind at 1. unfold wait_available at 1. state_simpl.
  unfold bind at 1. unfold expect_colon at 1.
  unfold bind at 1. unfold Sread at 1. state_simpl.
  change (to_char 58 =? 58) with true. cbn [negb]. unfold ret at 1.
  unfold read_fields.
  do 8 (destruct hdr as [|? hdr]; [
    unfold bind, Sread, modify, get; state_simpl;
    repeat (cbn [serial miso mosi adrs type progSize data]; cbv beta iota;
            try match goal with
                | |- context [asciiHexToUShort ?x] => destruct (asciiHexToUShort x)
                end);
    eexists; reflexivity |]).
  cbn in Hl. lia.
Qed.

(** The stream stops after one character that is not a colon: the second
    attempt at the colon is an [Sread], which waits for ever. *)
Lemma second_colon_stall (words : Z) (l : locals) (s : state) (c : Z) :
  serial s = [c] -> to_char c <> 58 ->
  read_record words l s = Hang SerialWait (set_serial [] s).
Proof.
  intros Hs Hc. destruct s as [ser mi mo ad ty ps da]. cbn [serial] in Hs. subst ser.
  apply Z.eqb_neq in Hc.
  unfold read_record, read_header.
  unfold bind at 1. unfold bind at 1. unfold wait_available at 1. state_simpl.
  unfold bind at 1. unfold expect_colon at 1.
  unfold bind at 1. unfold Sread at 1. state_simpl.
  rewrite Hc. cbn [negb].
  unfold bind at 1. unfold Sread at 1. state_simpl. reflexivity.
Qed.

(** The stream stops inside the header of a record whose colon came at the
    second attempt. *)
Lemma header_stall_second (words : Z) (l : locals) (s : state) (c : Z) (hdr : list Z) :
  serial s = c :: 58 :: hdr -> to_char c <> 58 ->
  (length hdr < 8)%nat ->
  exists s', read_record words l s = Hang SerialWait s' /\ serial s' = [].
Proof.
  intros Hs Hc Hl. destruct s as [ser mi mo ad ty ps da]. cbn [serial] in Hs. subst ser.
  apply Z.eqb_neq in Hc.
  unfold read_record, read_header.
  unfold bind at 1. unfold bind at 1. unfold wait_available at 1. state_simpl.
  unfold bind at 1. unfold expect_colon at 1.
  unfold bind at 1. unfold Sread at 1. state_simpl.
  rewrite Hc. cbn [negb].
  unfold bind at 1. unfold Sread at 1. state_simpl.
  change (to_char 58 =? 58) with true. cbn [negb]. unfold ret at 1.
  unfold read_fields.
  do 8 (destruct hdr as [|? hdr]; [
    unfold bind, Sread, modify, get; state_simpl;
    repeat (cbn [serial miso mosi adrs type progSize data]; cbv beta iota;
            try match goal with
                | |- context [asciiHexToUShort ?x] => destruct (asciiHexToUShort x)
                end);
    eexists; split; reflexivity |]).
  cbn in Hl. lia.
Qed.

(** C5 (as amended): the wait for the first character of a record, of a
    data byte of a record of another type than 2, and of the checksum field
    of such a record ends with the timeout error when no character arrives
    any more.  Every other character is taken by [Sread] without a bound:
    when the stream stops inside the header, after the first character of a
    data byte or of the checksum field, or anywhere in the fields of a
    type-2 record, the loader waits for ever; so it does when the stream
    stops after one character that is not a colon, where the second attempt
    at the colon is awaited, and inside the header that follows a colon
    found at the second attempt. *)
Theorem guarded_waits_time_out (words : Z) (l : locals) (s : state) :
  (serial s = [] -> read_record words l s = Abort (ERROR_data TimeOut) s)
  /\ (forall lh sh k l1 s1,
         read_header l s = Ret lh sh -> someth lh <> 2 ->
         (k <= Z.to_nat (linelength lh))%nat ->
         read_data k words lh sh = Ret l1 s1 ->
         (serial s1 = [] ->
          read_record words l s = Abort (ERROR_data TimeOut) s1)
         /\ (forall c, serial s1 = [c] ->
             read_record words l s = Hang SerialWait (set_serial [] s1)))
  /\ (forall hdr,
         serial s = 58 :: hdr -> (length hdr < 8)%nat ->
         exists s', read_record words l s = Hang SerialWait s')
  /\ (forall lh sh fields tail,
         read_header l s = Ret lh sh -> someth lh = 2 ->
         serial sh = field_chars fields ++ tail ->
         (length fields < Z.to_nat (linelength lh + 1))%nat ->
         (length tail < 2)%nat ->
         read_record words l s = Hang SerialWait (set_serial [] sh))
  /\ (forall c,
         serial s = [c] -> to_char c <> 58 ->
         read_record words l s = Hang SerialWait (set_serial [] s))
  /\ (forall c hdr,
         serial s = c :: 58 :: hdr -> to_char c <> 58 -> (length hdr < 8)%nat ->
         exists s', read_record words l s = Hang SerialWait s' /\ serial s' = []).
Proof.
  split; [|split; [|split; [|split; [|split]]]].
  - intros Hs. destruct s as [ser mi mo ad ty ps da]. cbn [serial] in Hs. subst ser.
    reflexivity.
  - intros lh sh k l1 s1 Hh Hty Hk Hd.
    rewrite (record_after_bytes words l lh l1 s sh s1 k Hh Hty Hk Hd).
    split.
    + apply stall_at_byte.
    + intros c. apply stall_in_byte.
  - intros hdr. apply header_stall.
  - intros lh sh fields tail Hh Hty Hs Hn Ht.
    unfold read_record. rewrite (bind_ret _ _ _ _ _ Hh).
    rewrite Hty. change (2 =? 2) with true. cbv iota.
    eapply skip_record_stall; eassumption.
  - intros c. apply second_colon_stall.
  - intros c hdr. apply header_stall_second.
Qed.

Lemma guarded_waits_time_out_witness :
  read_record 1 writeProgram_locals
    (mkState (chars ":0200000011") [] [] 0 2 0 (repeat 0 16)) =
  Abort (ERROR_data TimeOut) (mkState [] [] [] 0x4000 2 1 (0x11 :: repeat 0 15))
  /\ read_record 1 writeProgram_locals
       (mkState (chars ":02000000112") [] [] 0 2 0 (repeat 0 16)) =
     Hang SerialWait (mkState [] [] [] 0x4000 2 1 (0x11 :: repeat 0 15))
  /\ read_record 1 writeProgram_locals (mkState [10] [] [] 0 2 0 (repeat 0 16)) =
     Hang SerialWait (mkState [] [] [] 0 2 0 (repeat 0 16)).
Proof.
  split; [|split].
  - apply (proj1 (proj1 (proj2 (guarded_waits_time_out 1 writeProgram_locals
                   (mkState (chars ":0200000011") [] [] 0 2 0 (repeat 0 16))))
                   (mkLocals [0; 0; 0] [0; 0; 0; 0; 0] 2 0 0 2 false)
                   (mkState (chars "11") [] [] 0x4000 2 0 (repeat 0 16))
                   1%nat
                   (mkLocals [1; 1; 0] [0; 0; 0; 0; 0] 0x13 0 1 2 false)
                   (mkState [] [] [] 0x4000 2 1 (0x11 :: repeat 0 15))
                   eq_refl ltac:(discriminate) ltac:(cbn; lia) eq_refl)).
    reflexivity.
  - apply (proj2 (proj1 (proj2 (guarded_waits_time_out 1 writeProgram_locals
                   (mkState (chars ":02000000112") [] [] 0 2 0 (repeat 0 16))))
                   (mkLocals [0; 0; 0] [0; 0; 0; 0; 0] 2 0 0 2 false)
                   (mkState (chars "112") [] [] 0x4000 2 0 (repeat 0 16))
                   1%nat
                   (mkLocals [1; 1; 0] [0; 0; 0; 0; 0] 0x13 0 1 2 false)
                   (mkState (chars "2") [] [] 0x4000 2 1 (0x11 :: repeat 0 15))
                   eq_refl ltac:(discriminate) ltac:(cbn; lia) eq_refl) 50).
    reflexivity.
  - apply (proj1 (proj2 (proj2 (proj2 (proj2 (guarded_waits_time_out 1
                   writeProgram_locals
                   (mkState [10] [] [] 0 2 0 (repeat 0 16))))))) 10 eq_refl).
    vm_compute. discriminate.
Defined.

(** C5, counterexample: when the stream stops after the colon of a record,
    the loader is not timed out: it waits in [Sread] for ever.  The same
    holds after a line feed, where the colon is awaited a second time. *)
Lemma stall_after_colon :
  read_record 1 writeProgram_locals (mkState (chars ":") [] [] 0 1 0 (repeat 0 16)) =
  Hang SerialWait (mkState [] [] [] 0 1 0 (repeat 0 16))
  /\ ~ stall_times_out (chars ":").
Proof.
  split; [reflexivity|].
  intros H.
  destruct (H 1 writeProgram_locals (mkState (chars ":") [] [] 0 1 0 (repeat 0 16))
              eq_refl) as [s' E].
  discriminate E.
Qed.

(** ** Programming and verifying a group *)

Lemma firstn_upd (n : nat) (v : Z) (l : list Z) :
  (n < length l)%nat -> firstn (S n) (upd n v l) = firstn n l ++ [v].
Proof.
  revert n. induction l as [|h t IH]; intros [|n] H; cbn [length] in H; try lia.
  - reflexivity.
  - cbn [upd]. rewrite !firstn_cons. cbn [app]. f_equal. apply IH. lia.
Qed.

Lemma firstn_skipn_S (n c : nat) (l : list Z) :
  (c < length l)%nat ->
  firstn (S n) (skipn c l) = nth c l 0 :: firstn n (skipn (S c) l).
Proof.
  revert c. induction l as [|h t IH]; intros [|c] H; cbn [length] in H; try lia.
  - reflexivity.
  - cbn [skipn nth]. rewrite IH by lia. reflexivity.
Qed.

Lemma write_words_ok (n : nat) :
  forall (i : Z) (s : state),
    0 <= i -> i + 2 * Z.of_nat n <= 16 ->
    exists mo', write_words n i s = Ret tt (set_mosi mo' s).
Proof.
  induction n as [|n IH]; intros i s Hi Hn.
  - exists (mosi s). destruct s; reflexivity.
  - cbn [write_words].
    destruct s as [ser mi mo ad ty ps da].
    rewrite bind_eq, tpi_send_byte_eq. cbv beta iota. state_simpl.
    rewrite bind_eq. unfold data_get at 1.
    replace ((0 <=? i) && (i <? 16)) with true
      by (symmetry; apply andb_true_intro; split; [apply Z.leb_le|apply Z.ltb_lt]; lia).
    cbv beta iota. state_simpl.
    rewrite bind_eq, tpi_send_byte_eq. cbv beta iota. state_simpl.
    rewrite bind_eq, tpi_send_byte_eq. cbv beta iota. state_simpl.
    rewrite bind_eq. unfold data_get at 1.
    replace ((0 <=? i + 1) && (i + 1 <? 16)) with true
      by (symmetry; apply andb_true_intro; split; [apply Z.leb_le|apply Z.ltb_lt]; lia).
    cbv beta iota. state_simpl.
    rewrite bind_eq, tpi_send_byte_eq. cbv beta iota. state_simpl.
    rewrite bind_eq. unfold SPI_transfer_ at 1, modify at 1. cbv beta iota. state_simpl.
    rewrite bind_eq. unfold SPI_transfer_ at 1, modify at 1. cbv beta iota. state_simpl.
    match goal with
    | |- context [write_words n (i + 2) ?s0] =>
        destruct (IH (i + 2) s0) as [mo' E]; try lia
    end.
    exists mo'. rewrite E. reflexivity.
Qed.

Lemma readIO_answer (address : Z) (g : nat) (d : Z) (rest : list Z) (s : state) :
  0 <= d < 256 ->
  miso s = answer g d ++ rest ->
  exists mo', readIO address s = Ret d (set_mosi mo' (set_miso rest s)).
Proof.
  intros Hd Hm. unfold readIO. rewrite bind_eq, tpi_send_byte_eq. cbv beta iota.
  rewrite (tpi_receive_byte_answer g d rest) by (assumption || (destruct s; exact Hm)).
  destruct s as [ser mi mo ad ty ps da]. state_simpl.
  eexists. reflexivity.
Qed.

Lemma busy_check_all : forallb (fun i => busy_check (Z.of_nat i)) (seq 0 256) = true.
Proof. vm_compute. reflexivity. Qed.

Lemma busy_bit_set (b : Z) :
  busy_status b -> negb (Z.land b (Z.shiftl 1 7) =? 0x00) = true.
Proof.
  unfold busy_status. intros H.
  pose proof (byte_cases busy_check busy_check_all b ltac:(lia)) as C.
  unfold busy_check in C. apply orb_prop in C as [C|C]; [|exact C].
  apply Z.ltb_lt in C. lia.
Qed.

Lemma nvm_busy_wait_ready (g : nat) (busy : list Z) :
  forall (fuel : nat) (rest : list Z) (s : state),
    Forall busy_status busy ->
    (length busy < fuel)%nat ->
    miso s = status_answers g busy ++ rest ->
    exists mo', nvm_busy_wait fuel s = Ret tt (set_mosi mo' (set_miso rest s)).
Proof.
  induction busy as [|b busy IH]; intros fuel rest s Hb Hf Hm.
  - destruct fuel as [|fuel]; [cbn in Hf; lia|]. cbn [nvm_busy_wait].
    unfold status_answers in Hm. cbn [flat_map app] in Hm.
    destruct (readIO_answer NVMCSR g 0 rest s ltac:(lia) Hm) as [mo' E].
    exists mo'. rewrite bind_eq, E. reflexivity.
  - destruct fuel as [|fuel]; [cbn in Hf; lia|]. cbn [nvm_busy_wait length] in *.
    apply Forall_cons_iff in Hb as [Hb0 Hb].
    unfold status_answers in Hm. cbn [flat_map] in Hm. rewrite <- !app_assoc in Hm.
    destruct (readIO_answer NVMCSR g b _ s ltac:(unfold busy_status in Hb0; lia) Hm)
      as [mo1 E].
    rewrite bind_eq, E. rewrite (busy_bit_set b Hb0).
    destruct (IH fuel rest
                 (set_mosi mo1 (set_miso (flat_map (answer g) busy ++ answer g 0 ++ rest) s)))
      as [mo' E']; try assumption; try lia.
    + destruct s; unfold status_answers; cbn; rewrite <- app_assoc; reflexivity.
    + exists mo'. rewrite E'. destruct s; reflexivity.
Qed.

Lemma answer_length (g : nat) (d : Z) : (2 <= length (answer g d))%nat.
Proof.
  unfold answer, capture. rewrite length_map, length_seq.
  destruct (g mod 8 <? 4)%nat; lia.
Qed.

Lemma status_answers_length (g : nat) (busy : list Z) :
  (length busy < length (status_answers g busy))%nat.
Proof.
  unfold status_answers. rewrite length_app.
  pose proof (answer_length g 0).
  assert (length busy <= length (flat_map (answer g) busy))%nat; [|lia].
  induction busy as [|b busy IH]; [cbn; lia|].
  cbn [flat_map length]. rewrite length_app. pose proof (answer_length g b). lia.
Qed.

Lemma nvm_wait_polls (g : nat) (busy rest : list Z) (s : state) :
  Forall busy_status busy ->
  miso s = status_answers g busy ++ rest ->
  exists mo', nvm_wait s = Ret tt (set_mosi mo' (set_miso rest s)).
Proof.
  intros Hb Hm. unfold nvm_wait.
  apply (nvm_busy_wait_ready g busy); try assumption.
  rewrite Hm, length_app. pose proof (status_answers_length g busy). lia.
Qed.

Lemma verify_words_ok (g : nat) (n : nat) :
  forall (c : nat) (s : state) (rest : list Z),
    (c + n <= 16)%nat -> length (data s) = 16%nat ->
    Forall (fun b => 0 <= b < 256) (firstn n (skipn c (data s))) ->
    miso s = flat_map (answer g) (firstn n (skipn c (data s))) ++ rest ->
    exists mo',
      verify_words n (Z.of_nat c) s = Ret tt (set_mosi mo' (set_miso rest s)).
Proof.
  induction n as [|n IH]; intros c s rest Hc Hd Hb Hm.
  - cbn in Hm. exists (mosi s). destruct s as [ser mi mo ad ty ps da].
    cbn [miso] in Hm. subst mi. reflexivity.
  - rewrite firstn_skipn_S in Hb, Hm by lia.
    apply Forall_cons_iff in Hb as [Hb0 Hb].
    cbn [flat_map] in Hm. rewrite <- app_assoc in Hm.
    cbn [verify_words].
    destruct s as [ser mi mo ad ty ps da]. cbn [miso data] in *. subst mi.
    rewrite bind_eq, tpi_send_byte_eq. cbv beta iota. state_simpl.
    rewrite bind_eq.
    rewrite (tpi_receive_byte_answer g (nth c da 0)
               (flat_map (answer g) (firstn n (skipn (S c) da)) ++ rest))
      by (assumption || reflexivity).
    cbv beta iota. state_simpl.
    rewrite bind_eq. unfold data_get at 1.
    replace ((0 <=? Z.of_nat c) && (Z.of_nat c <? 16)) with true
      by (symmetry; apply andb_true_intro; split; [apply Z.leb_le|apply Z.ltb_lt]; lia).
    cbv beta iota. state_simpl. rewrite Nat2Z.id.
    rewrite Z.eqb_refl. cbn [negb].
    replace (Z.of_nat c + 1) with (Z.of_nat (S c)) by lia.
    match goal with
    | |- context [verify_words n _ ?s0] =>
        destruct (IH (S c) s0 rest) as [mo' E]; try (cbn [data miso]; assumption || lia)
    end.
    + reflexivity.
    + exists mo'. rewrite E. reflexivity.
Qed.

Lemma program_group_ok (g : nat) (busy : list Z) (words : Z) (l : locals)
      (s : state) (rest : list Z) :
  Forall busy_status busy ->
  0 <= words <= 8 ->
  length (data s) = 16%nat ->
  Forall (fun b => 0 <= b < 256) (firstn (Z.to_nat (2 * words)) (data s)) ->
  miso s = group_answers g busy (firstn (Z.to_nat (2 * words)) (data s)) ++ rest ->
  exists mo' ad',
    program_group words l s =
    Ret (set_currentByte 0 l)
        (mkState (serial s) rest mo' ad' (type s) (progSize s) (data s)).
Proof.
  intros Hbusy Hw Hd Hb Hm. unfold group_answers in Hm. rewrite <- app_assoc in Hm.
  unfold program_group.
  destruct s as [ser mi mo ad ty ps da]. cbn [miso data] in *. subst mi.
  rewrite bind_eq. unfold get at 1. cbv beta iota. state_simpl.
  rewrite bind_eq, setPointer_eq. cbv beta iota. state_simpl.
  rewrite bind_eq, writeIO_eq. cbv beta iota. state_simpl.
  rewrite bind_eq.
  match goal with
  | |- context [write_words _ 0 ?s0] =>
      destruct (write_words_ok (Z.to_nat words) 0 s0) as [mo1 E1]; try lia
  end.
  rewrite E1. cbv beta iota. state_simpl.
  rewrite bind_eq.
  match goal with
  | |- context [nvm_wait ?s0] =>
      destruct (nvm_wait_polls g busy
                  (flat_map (answer g) (firstn (Z.to_nat (2 * words)) da) ++ rest) s0)
        as [mo2 E2]; [exact Hbusy|reflexivity|]
  end.
  rewrite E2. cbv beta iota. state_simpl.
  rewrite bind_eq, writeIO_eq. cbv beta iota. state_simpl.
  rewrite bind_eq. unfold SPI_transfer_ at 1, modify at 1. cbv beta iota. state_simpl.
  rewrite bind_eq. unfold SPI_transfer_ at 1, modify at 1. cbv beta iota. state_simpl.
  rewrite bind_eq. unfold get at 1. cbv beta iota. state_simpl.
  rewrite bind_eq, setPointer_eq. cbv beta iota. state_simpl.
  rewrite bind_eq.
  match goal with
  | |- context [verify_words _ 0 ?s0] =>
      destruct (verify_words_ok g (Z.to_nat (2 * words)) 0 s0 rest) as [mo3 E3];
        try (cbn [data miso skipn]; assumption || reflexivity || lia)
  end.
  change (Z.of_nat 0) with 0 in E3. rewrite E3. cbv beta iota. state_simpl.
  rewrite bind_eq. unfold modify at 1. cbv beta iota. state_simpl.
  eexists. eexists. reflexivity.
Qed.

Lemma eraseChip_ok (g : nat) (busy rest : list Z) (s : state) :
  Forall busy_status busy ->
  miso s = status_answers g busy ++ rest ->
  exists mo' ad',
    eraseChip s =
    Ret tt (mkState (serial s) rest mo' ad' (type s) (progSize s) (data s)).
Proof.
  intros Hbusy Hm. unfold eraseChip.
  destruct s as [ser mi mo ad ty ps da]. cbn [miso] in Hm. subst mi.
  rewrite bind_eq, setPointer_eq. cbv beta iota. state_simpl.
  rewrite bind_eq, writeIO_eq. cbv beta iota. state_simpl.
  do 8 (rewrite bind_eq, tpi_send_byte_eq; cbv beta iota; state_simpl).
  match goal with
  | |- context [nvm_wait ?s0] =>
      destruct (nvm_wait_polls g busy rest s0) as [mo2 E2]; [exact Hbusy|reflexivity|]
  end.
  rewrite E2. state_simpl. eexists. eexists. reflexivity.
Qed.

(** ** A run of data bytes *)

Lemma data_byte_run (g : nat) (busy : list Z) (words : Z) (l : locals)
      (s : state) (acc : list Z) (b : Z) (rest mrest : list Z) :
  Forall busy_status busy ->
  1 <= words <= 8 ->
  loader_inv (Z.to_nat (2 * words)) l s acc ->
  0 <= b < 256 ->
  0 <= progSize s < 65535 ->
  serial s = hex2 b ++ rest ->
  miso s = fst (bytes_answers g busy (Z.to_nat (2 * words)) acc [b]) ++ mrest ->
  if progSize s + 1 >? capacity (type s) then
    exists s', data_byte words l s = Abort (ERROR_data TooLarge) s'
               /\ progSize s' = progSize s + 1
  else
    exists l' mo' ad' da',
      data_byte words l s =
      Ret l' (mkState rest mrest mo' ad' (type s) (progSize s + 1) da')
      /\ loader_inv (Z.to_nat (2 * words)) l'
           (mkState rest mrest mo' ad' (type s) (progSize s + 1) da')
           (snd (bytes_answers g busy (Z.to_nat (2 * words)) acc [b]))
      /\ checkSum l' = u8 (checkSum l + b)
      /\ someth l' = someth l /\ linelength l' = linelength l.
Proof.
  intros Hbusy Hw (I1 & I2 & I3 & I4 & I5 & I6) Hb Hps Hs Hm.
  destruct s as [ser mi mo ad ty ps da]. cbn [serial miso data progSize type] in *.
  subst ser. unfold hex2. cbn [app].
  rewrite data_byte_eq.
  replace ((0 <=? currentByte l) && (currentByte l <? 16)) with true
    by (symmetry; apply andb_true_intro; split; [apply Z.leb_le|apply Z.ltb_lt]; lia).
  cbv zeta. rewrite hex_field_hex, (u8_small b) by exact Hb.
  rewrite (u16_small (ps + 1)) by lia.
  destruct (ps + 1 >? capacity ty) eqn:Ecap.
  { eexists. split; reflexivity. }
  rewrite I2, Nat2Z.id. rewrite nth_upd by lia.
  cbn [fileEnd]. rewrite I1.
  rewrite bind_eq. unfold ret at 1. cbv beta iota. cbn [currentByte].
  rewrite (u16_small (Z.of_nat (length acc) + 1)) by lia.
  assert (Hf : firstn (S (length acc)) (upd (length acc) b da) = acc ++ [b]).
  { rewrite firstn_upd by lia. rewrite I3. reflexivity. }
  assert (Hacc : Forall (fun b => 0 <= b < 256) (acc ++ [b])).
  { apply Forall_app. split; [exact I6|]. constructor; [exact Hb|constructor]. }
  assert (Hlen : length (acc ++ [b]) = S (length acc)).
  { rewrite length_app. cbn [length]. lia. }
  cbn [bytes_answers] in Hm |- *. rewrite Hlen in Hm |- *.
  destruct (Z.of_nat (length acc) + 1 =? 2 * words) eqn:Eg.
  - apply Z.eqb_eq in Eg.
    assert (EG : Z.to_nat (2 * words) = S (length acc)) by lia.
    assert (EGb : (S (length acc) =? Z.to_nat (2 * words))%nat = true)
      by (apply Nat.eqb_eq; lia).
    rewrite EGb in Hm |- *. cbn [fst snd] in Hm |- *.
    rewrite app_nil_r in Hm.
    match goal with
    | |- context [program_group words ?l0 ?s0] =>
        destruct (program_group_ok g busy words l0 s0 mrest Hbusy) as (mo' & ad' & E)
    end.
    + lia.
    + cbn [data]. rewrite upd_length. exact I5.
    + cbn [data]. rewrite EG, Hf. exact Hacc.
    + cbn [data miso]. rewrite EG, Hf. exact Hm.
    + rewrite E. state_simpl. locals_simpl.
      exists (mkLocals (snd (asciiHexToUShort
                               [to_char (hex_digit (b / 16));
                                to_char (hex_digit (b mod 16)); 0]))
                       (addr l) (u8 (checkSum l + b)) (someth l) 0
                       (linelength l) false).
      exists mo', ad', (upd (length acc) b da).
      split; [reflexivity|]. split; [|repeat split].
      unfold loader_inv. cbn [fileEnd currentByte data length firstn].
      rewrite upd_length. repeat split; try assumption; try lia. constructor.
  - apply Z.eqb_neq in Eg.
    assert (EGb : (S (length acc) =? Z.to_nat (2 * words))%nat = false)
      by (apply Nat.eqb_neq; lia).
    rewrite EGb in Hm |- *. cbn [fst snd app] in Hm |- *. subst mi.
    unfold ret.
    eexists. exists mo, ad, (upd (length acc) b da).
    split; [reflexivity|]. split; [|repeat split].
    unfold loader_inv. cbn [fileEnd currentByte data].
    rewrite upd_length, Hlen, Hf.
    repeat split; try assumption; try lia.
Qed.

Lemma bytes_answers_cons (g : nat) (busy : list Z) (G : nat) (acc : list Z)
      (b : Z) (bytes : list Z) :
  bytes_answers g busy G acc (b :: bytes) =
  (fst (bytes_answers g busy G acc [b])
     ++ fst (bytes_answers g busy G (snd (bytes_answers g busy G acc [b])) bytes),
   snd (bytes_answers g busy G (snd (bytes_answers g busy G acc [b])) bytes)).
Proof.
  cbn [bytes_answers].
  destruct (length (acc ++ [b]) =? G)%nat; cbn [fst snd app].
  - destruct (bytes_answers g busy G [] bytes) as [m a]. cbn [fst snd].
    rewrite app_nil_r. reflexivity.
  - destruct (bytes_answers g busy G (acc ++ [b]) bytes) as [m a]. reflexivity.
Qed.

Lemma read_data_run (g : nat) (busy : list Z) (words : Z) (payload : list Z) :
  forall (l : locals) (s : state) (acc rest mrest : list Z),
    Forall busy_status busy ->
    1 <= words <= 8 ->
    loader_inv (Z.to_nat (2 * words)) l s acc ->
    Forall (fun b => 0 <= b < 256) payload ->
    0 <= checkSum l < 256 ->
    0 <= progSize s <= capacity (type s) ->
    capacity (type s) < 65535 ->
    serial s = flat_map hex2 payload ++ rest ->
    miso s = fst (bytes_answers g busy (Z.to_nat (2 * words)) acc payload) ++ mrest ->
    if progSize s + Z.of_nat (length payload) >? capacity (type s) then
      exists s', read_data (length payload) words l s = Abort (ERROR_data TooLarge) s'
                 /\ progSize s' = capacity (type s) + 1
    else
      exists l' mo' ad' da',
        read_data (length payload) words l s =
        Ret l' (mkState rest mrest mo' ad' (type s)
                        (progSize s + Z.of_nat (length payload)) da')
        /\ loader_inv (Z.to_nat (2 * words)) l'
             (mkState rest mrest mo' ad' (type s)
                      (progSize s + Z.of_nat (length payload)) da')
             (snd (bytes_answers g busy (Z.to_nat (2 * words)) acc payload))
        /\ checkSum l' = u8 (checkSum l + fold_right Z.add 0 payload)
        /\ someth l' = someth l /\ linelength l' = linelength l.
Proof.
  induction payload as [|b payload IH];
    intros l s acc rest mrest Hbusy Hw Hinv Hp Hc Hps Hcap Hs Hm.
  - cbn [length Z.of_nat]. rewrite Z.add_0_r.
    destruct (progSize s >? capacity (type s)) eqn:E.
    { apply Z.gtb_lt in E. lia. }
    destruct s as [ser mi mo ad ty ps da]. cbn [serial miso] in Hs, Hm.
    cbn [flat_map app bytes_answers fst] in Hs, Hm. subst ser mi.
    exists l, mo, ad, da. cbn [read_data bytes_answers snd fold_right].
    rewrite Z.add_0_r, u8_small by exact Hc.
    repeat split; try reflexivity; apply Hinv.
  - apply Forall_cons_iff in Hp as [Hb Hp].
    cbn [flat_map] in Hs. rewrite <- app_assoc in Hs.
    rewrite bytes_answers_cons in Hm |- *. cbn [fst snd] in Hm |- *.
    rewrite <- app_assoc in Hm.
    cbn [length read_data]. rewrite Nat2Z.inj_succ.
    pose proof (data_byte_run g busy words l s acc b _ _ Hbusy Hw Hinv Hb ltac:(lia) Hs Hm)
      as Hstep.
    destruct (progSize s + 1 >? capacity (type s)) eqn:E1.
    + apply Z.gtb_lt in E1. destruct Hstep as (s' & Es & Ep).
      replace (progSize s + Z.succ (Z.of_nat (length payload)) >? capacity (type s))
        with true by (symmetry; apply Z.gtb_lt; lia).
      exists s'. rewrite bind_eq, Es. split; [reflexivity|lia].
    + assert (E1' : progSize s + 1 <= capacity (type s)).
      { rewrite Z.gtb_ltb in E1. apply Z.ltb_ge in E1. exact E1. }
      destruct Hstep as (l1 & mo1 & ad1 & da1 & Es & Hinv1 & C1 & So1 & Ll1).
      rewrite bind_eq, Es.
      specialize (IH l1 (mkState (flat_map hex2 payload ++ rest)
                                 (fst (bytes_answers g busy (Z.to_nat (2 * words))
                                         (snd (bytes_answers g busy (Z.to_nat (2 * words)) acc [b]))
                                         payload) ++ mrest)
                                 mo1 ad1 (type s) (progSize s + 1) da1)
                    (snd (bytes_answers g busy (Z.to_nat (2 * words)) acc [b]))
                    rest mrest Hbusy Hw Hinv1 Hp).
      cbn [serial miso progSize type] in IH.
      specialize (IH ltac:(rewrite C1; apply u8_range) ltac:(lia) Hcap eq_refl eq_refl).
      replace (progSize s + Z.succ (Z.of_nat (length payload)))
        with (progSize s + 1 + Z.of_nat (length payload)) by lia.
      destruct (progSize s + 1 + Z.of_nat (length payload) >? capacity (type s)).
      * exact IH.
      * destruct IH as (l' & mo' & ad' & da' & Er & Hinv' & C' & So' & Ll').
        exists l', mo', ad', da'. split; [exact Er|]. split; [exact Hinv'|].
        cbn [fold_right]. repeat split; try congruence.
        rewrite C', C1, u8_add_l. f_equal. lia.
Qed.

(** ** A data record *)

Lemma record_run (g : nat) (busy : list Z) (words : Z) (l : locals) (s : state)
      (acc lead : list Z) (off : Z) (payload rest mrest : list Z) :
  Forall busy_status busy ->
  1 <= words <= 8 ->
  loader_inv (Z.to_nat (2 * words)) l s acc ->
  stray lead ->
  0 <= off < 65536 ->
  Forall (fun b => 0 <= b < 256) payload ->
  (length payload < 256)%nat ->
  0 <= progSize s <= capacity (type s) ->
  capacity (type s) < 65535 ->
  serial s = lead ++ valid_record off 0 payload ++ rest ->
  miso s = fst (bytes_answers g busy (Z.to_nat (2 * words))
                  (record_acc acc off payload) payload) ++ mrest ->
  if progSize s + Z.of_nat (length payload) >? capacity (type s) then
    exists s', read_record words l s = Abort (ERROR_data TooLarge) s'
               /\ progSize s' = capacity (type s) + 1
  else
    exists l' mo' ad' da',
      read_record words l s =
      Ret l' (mkState rest mrest mo' ad' (type s)
                      (progSize s + Z.of_nat (length payload)) da')
      /\ loader_inv (Z.to_nat (2 * words)) l'
           (mkState rest mrest mo' ad' (type s)
                    (progSize s + Z.of_nat (length payload)) da')
           (snd (bytes_answers g busy (Z.to_nat (2 * words))
                   (record_acc acc off payload) payload)).
Proof.
  intros Hbusy Hw Hinv Hlead Hoff Hp Hlen Hps Hcap Hs Hm.
  unfold valid_record in Hs.
  set (ck := twos_complement (record_sum (Z.of_nat (length payload)) off 0 payload)) in *.
  assert (Hck : 0 <= ck < 256) by apply twos_complement_range.
  assert (Hd : length (data s) = 16%nat) by apply Hinv.
  destruct (record_to_checksum words l s lead off 0 payload ck rest)
    as [Hr Hc]; try assumption; try lia.
  destruct (read_header_record l lead (Z.of_nat (length payload)) off 0 payload ck rest s)
    as (t & a & Hh); try assumption; try lia.
  assert (Hto : read_to_checksum words l s =
                read_data (length payload) words
                  (record_locals l (Z.of_nat (length payload)) off 0 t a)
                  (set_adrs (u16 (off + 0x4000))
                     (set_serial (flat_map hex2 payload ++ hex2 ck ++ rest) s))).
  { unfold read_to_checksum. rewrite (bind_ret _ _ _ _ _ Hh).
    unfold record_locals at 1. cbn [linelength]. rewrite Nat2Z.id. reflexivity. }
  assert (Hinv0 : loader_inv (Z.to_nat (2 * words))
                    (record_locals l (Z.of_nat (length payload)) off 0 t a)
                    (set_adrs (u16 (off + 0x4000))
                       (set_serial (flat_map hex2 payload ++ hex2 ck ++ rest) s))
                    (record_acc acc off payload)).
  { destruct Hinv as (I1 & I2 & I3 & I4 & I5 & I6).
    destruct s as [ser mi mo ad ty ps da]. state_simpl.
    unfold loader_inv, record_locals, record_acc. cbn [fileEnd currentByte data] in *.
    change (0 =? 1) with false. cbv iota.
    destruct (negb (Z.of_nat (length payload) =? 0) && (off =? 0)).
    - cbn [length firstn]. repeat split; try assumption; try lia. constructor.
    - repeat split; assumption. }
  pose proof (read_data_run g busy words payload _ _ (record_acc acc off payload)
                (hex2 ck ++ rest) mrest Hbusy Hw Hinv0 Hp) as Hrun.
  destruct s as [ser mi mo ad ty ps da].
  cbn [type progSize serial miso set_adrs set_serial] in *.
  specialize (Hrun ltac:(unfold record_locals; cbn [checkSum]; apply u8_range)
                   Hps Hcap eq_refl Hm).
  rewrite Hr, bind_eq, Hto.
  destruct (ps + Z.of_nat (length payload) >? capacity ty).
  - destruct Hrun as (s' & E & P). exists s'. rewrite E. split; [reflexivity|exact P].
  - destruct Hrun as (l1 & mo1 & ad1 & da1 & E & Hinv1 & C1 & _).
    rewrite E. rewrite Hto in Hc. destruct (Hc _ _ E) as [_ Hk].
    rewrite Hk. fold ck. rewrite Z.eqb_refl. state_simpl.
    eexists. exists mo1, ad1, da1. split; [reflexivity|].
    destruct Hinv1 as (I1 & I2 & I3 & I4 & I5 & I6).
    unfold loader_inv. cbn [fileEnd currentByte data] in *.
    repeat split; assumption.
Qed.

(** ** A whole file *)

(** The end-of-file record sets [fileEnd] and touches neither the data
    buffer nor the target. *)
Lemma eof_record_run (words : Z) (l : locals) (s : state) (lead rest : list Z) :
  stray lead ->
  serial s = lead ++ eof_record ++ rest ->
  exists l',
    read_record words l s = Ret l' (set_adrs 0x4000 (set_serial rest s))
    /\ fileEnd l' = true /\ currentByte l' = currentByte l.
Proof.
  intros Hlead Hs. destruct s as [ser mi mo ad ty ps da]. cbn [serial] in Hs. subst ser.
  destruct l as [t a cs so cb ll fe].
  destruct Hlead as [->|(c & -> & Hc)].
  - eexists. split; [vm_compute; reflexivity|]. split; reflexivity.
  - apply Z.eqb_neq in Hc.
    rewrite read_record_eq.
    change (eof_record) with (58 :: chars "00000001FF"). cbn [app].
    unfold bind at 1. unfold wait_available at 1. state_simpl.
    unfold bind at 1. unfold expect_colon at 1.
    unfold bind at 1. unfold Sread at 1. state_simpl.
    rewrite Hc. cbn [negb].
    eexists. split; [vm_compute; reflexivity|]. split; reflexivity.
Qed.

Lemma record_loop_step (fuel : nat) (words : Z) (l l' : locals) (s s' : state) :
  fileEnd l = false ->
  read_record words l s = Ret l' s' ->
  record_loop (S fuel) words l s = record_loop fuel words l' s'.
Proof.
  intros Hf Hr. cbn [record_loop]. rewrite Hf.
  rewrite (bind_ret _ _ _ _ _ Hr). reflexivity.
Qed.

Lemma record_loop_done (fuel : nat) (words : Z) (l : locals) (s : state) :
  fileEnd l = true -> record_loop fuel words l s = Ret l s.
Proof. intros Hf. destruct fuel; cbn [record_loop]; rewrite Hf; reflexivity. Qed.

Lemma total_bytes_cons (off : Z) (payload : list Z) (recs : list (Z * list Z)) :
  total_bytes ((off, payload) :: recs) = Z.of_nat (length payload) + total_bytes recs.
Proof.
  unfold total_bytes. cbn [map snd concat]. rewrite length_app. lia.
Qed.

Lemma record_loop_run (g : nat) (busy : list Z) (words : Z) (nl : list Z)
      (recs : list (Z * list Z)) :
  forall (fuel : nat) (l : locals) (s : state) (acc lead tail mrest : list Z),
    Forall busy_status busy ->
    1 <= words <= 8 ->
    loader_inv (Z.to_nat (2 * words)) l s acc ->
    stray lead -> stray nl ->
    Forall data_record_ok recs ->
    0 <= progSize s <= capacity (type s) ->
    capacity (type s) < 65535 ->
    (length recs < fuel)%nat ->
    serial s = lead ++ hex_lines nl recs ++ eof_record ++ tail ->
    miso s = records_answers g busy (Z.to_nat (2 * words)) acc recs ++ mrest ->
    if progSize s + total_bytes recs >? capacity (type s) then
      exists s', record_loop fuel words l s = Abort (ERROR_data TooLarge) s'
                 /\ progSize s' = capacity (type s) + 1
    else
      exists l' s',
        record_loop fuel words l s = Ret l' s'
        /\ progSize s' = progSize s + total_bytes recs
        /\ serial s' = tail /\ miso s' = mrest.
Proof.
  induction recs as [|[off payload] recs IH];
    intros fuel l s acc lead tail mrest Hbusy Hw Hinv Hlead Hnl Hrecs Hps Hcap Hfuel Hs Hm.
  - change (total_bytes []) with 0. rewrite Z.add_0_r.
    replace (progSize s >? capacity (type s)) with false
      by (symmetry; rewrite Z.gtb_ltb; apply Z.ltb_ge; lia).
    cbn [hex_lines flat_map app records_answers] in Hs, Hm.
    destruct fuel as [|fuel]; [cbn in Hfuel; lia|].
    destruct (eof_record_run words l s lead tail Hlead Hs) as (l' & Er & Hf & _).
    rewrite (record_loop_step fuel words l l' s _ (proj1 Hinv) Er).
    rewrite (record_loop_done fuel words l' _ Hf).
    eexists. eexists. split; [reflexivity|].
    destruct s as [ser mi mo ad ty ps da]. cbn [miso] in Hm. subst mi.
    repeat split.
  - apply Forall_cons_iff in Hrecs as [(Hoff & Hlen & Hp) Hrecs].
    cbn [fst snd] in Hoff, Hlen, Hp.
    cbn [hex_lines flat_map fst snd] in Hs. fold (hex_lines nl recs) in Hs.
    rewrite <- !app_assoc in Hs.
    cbn [records_answers] in Hm.
    destruct (bytes_answers g busy (Z.to_nat (2 * words)) (record_acc acc off payload) payload)
      as [m acc'] eqn:Eb.
    rewrite <- app_assoc in Hm.
    destruct fuel as [|fuel]; [cbn in Hfuel; lia|]. cbn [length] in Hfuel.
    pose proof (record_run g busy words l s acc lead off payload
                  (nl ++ hex_lines nl recs ++ eof_record ++ tail)
                  (records_answers g busy (Z.to_nat (2 * words)) acc' recs ++ mrest)
                  Hbusy Hw Hinv Hlead Hoff Hp Hlen Hps Hcap Hs) as Hrun.
    rewrite Eb in Hrun. cbn [fst snd] in Hrun. specialize (Hrun Hm).
    rewrite total_bytes_cons.
    assert (Ht : 0 <= total_bytes recs) by (unfold total_bytes; lia).
    destruct (progSize s + Z.of_nat (length payload) >? capacity (type s)) eqn:E1.
    + apply Z.gtb_lt in E1. destruct Hrun as (s' & Er & P).
      replace (progSize s + (Z.of_nat (length payload) + total_bytes recs)
               >? capacity (type s)) with true
        by (symmetry; apply Z.gtb_lt; lia).
      exists s'. split; [|exact P].
      cbn [record_loop]. rewrite (proj1 Hinv). rewrite bind_eq, Er. reflexivity.
    + rewrite Z.gtb_ltb in E1. apply Z.ltb_ge in E1.
      destruct Hrun as (l1 & mo1 & ad1 & da1 & Er & Hinv1).
      rewrite (record_loop_step fuel words l l1 s _ (proj1 Hinv) Er).
      specialize (IH fuel l1 _ acc' nl tail mrest Hbusy Hw Hinv1 Hnl Hnl Hrecs).
      cbn [progSize type serial miso] in IH.
      specialize (IH ltac:(lia) Hcap ltac:(lia) eq_refl eq_refl).
      rewrite Z.add_assoc.
      destruct (progSize s + Z.of_nat (length payload) + total_bytes recs
                >? capacity (type s)).
      * exact IH.
      * destruct IH as (l' & s' & E & P & S1 & M1).
        exists l', s'. repeat split; assumption.
Qed.

Lemma hex_lines_length (nl : list Z) (recs : list (Z * list Z)) :
  (length recs <= length (hex_lines nl recs))%nat.
Proof.
  induction recs as [|r recs IH]; [cbn; lia|].
  cbn [hex_lines flat_map length]. fold (hex_lines nl recs).
  unfold valid_record, record_chars. cbn [app length].
  rewrite !length_app. cbn [length]. lia.
Qed.

Lemma writeProgram_after_erase (s s1 : state) :
  eraseChip (set_progSize 0 s) = Ret tt s1 ->
  writeProgram s =
  (record_loop (S (length (serial s1))) (words_of (type s1)) writeProgram_locals ;;
   ret true) s1.
Proof.
  intros He. unfold writeProgram.
  rewrite bind_eq. unfold modify at 1. cbv beta iota.
  rewrite bind_eq, He. cbv beta iota.
  rewrite bind_eq. unfold get at 1. cbv beta iota.
  rewrite bind_eq. unfold get at 1. cbv beta iota.
  reflexivity.
Qed.

Lemma writeProgram_run (g : nat) (busy nl : list Z) (recs : list (Z * list Z))
      (s : state) (tail mrest : list Z) :
  Forall busy_status busy ->
  type s = Tiny4_5 \/ type s = Tiny10 \/ type s = Tiny20 \/ type s = Tiny40 ->
  stray nl ->
  Forall data_record_ok recs ->
  length (data s) = 16%nat ->
  serial s = hex_lines nl recs ++ eof_record ++ tail ->
  miso s = status_answers g busy
             ++ records_answers g busy (Z.to_nat (2 * words_of (type s))) [] recs ++ mrest ->
  if total_bytes recs >? capacity (type s) then
    exists s', writeProgram s = Abort (ERROR_data TooLarge) s'
               /\ progSize s' = capacity (type s) + 1
  else
    exists s', writeProgram s = Ret true s'
               /\ progSize s' = total_bytes recs
               /\ serial s' = tail /\ miso s' = mrest.
Proof.
  intros Hbusy Hty Hnl Hrecs Hd Hs Hm.
  destruct s as [ser mi mo ad ty ps da]. cbn [type data serial miso] in *.
  assert (Hw : 1 <= words_of ty <= 8 /\ capacity ty < 65535 /\ 0 <= capacity ty).
  { destruct Hty as [ -> | [ -> | [ -> | -> ] ] ]; vm_compute; repeat split; discriminate. }
  destruct Hw as (Hw & Hcap & Hcap0).
  destruct (eraseChip_ok g busy
              (records_answers g busy (Z.to_nat (2 * words_of ty)) [] recs ++ mrest)
              (mkState ser mi mo ad ty 0 da) Hbusy Hm) as (mo1 & ad1 & Ee).
  cbn [serial type progSize data] in Ee.
  rewrite (writeProgram_after_erase (mkState ser mi mo ad ty ps da) _ Ee).
  cbn [serial type].
  pose proof (record_loop_run g busy (words_of ty) nl recs (S (length ser))
                writeProgram_locals
                (mkState ser (records_answers g busy (Z.to_nat (2 * words_of ty)) [] recs ++ mrest)
                         mo1 ad1 ty 0 da)
                [] [] tail mrest Hbusy Hw) as Hrun.
  cbn [progSize type serial miso app] in Hrun.
  assert (Hinv : loader_inv (Z.to_nat (2 * words_of ty)) writeProgram_locals
                   (mkState ser
                      (records_answers g busy (Z.to_nat (2 * words_of ty)) [] recs ++ mrest)
                      mo1 ad1 ty 0 da) []).
  { unfold loader_inv, writeProgram_locals. cbn [fileEnd currentByte data length firstn].
    repeat split; try assumption; try lia. constructor. }
  assert (Hfuel : (length recs < S (length ser))%nat).
  { subst ser. rewrite length_app. pose proof (hex_lines_length nl recs). lia. }
  specialize (Hrun Hinv (or_introl eq_refl) Hnl Hrecs ltac:(lia) Hcap Hfuel Hs eq_refl).
  rewrite Z.add_0_l in Hrun.
  destruct (total_bytes recs >? capacity ty).
  - destruct Hrun as (s' & E & P). exists s'. unfold bind. rewrite E.
    split; [reflexivity|exact P].
  - destruct Hrun as (l' & s' & E & P & S1 & M1). exists s'.
    unfold bind. rewrite E. repeat split; assumption.
Qed.

(** C6: for an identified device (ATtiny4/5: 512 bytes; the others
    1024 x word width), a file of valid data records, each followed by at
    most one other character, and the end-of-file record, sent to a target
    that answers the polls of the busy bit with any statuses [busy] that
    have the bit set before one that has it clear, and reads back what was
    written: if the data bytes are exactly the capacity
    (or fewer) [writeProgram] returns true with [progSize] the number of
    bytes; if there are more, it aborts with the "too large" error when the
    byte count reaches capacity + 1. *)
Theorem capacity_boundary (g : nat) (busy nl : list Z) (recs : list (Z * list Z))
        (s : state) (tail mrest : list Z) :
  Forall busy_status busy ->
  type s = Tiny4_5 \/ type s = Tiny10 \/ type s = Tiny20 \/ type s = Tiny40 ->
  stray nl ->
  Forall data_record_ok recs ->
  length (data s) = 16%nat ->
  serial s = hex_lines nl recs ++ eof_record ++ tail ->
  miso s = status_answers g busy
             ++ records_answers g busy (Z.to_nat (2 * words_of (type s))) [] recs ++ mrest ->
  capacity (type s) = (if type s =? Tiny4_5 then 512 else 1024 * words_of (type s))
  /\ (total_bytes recs <= capacity (type s) ->
      exists s', writeProgram s = Ret true s' /\ progSize s' = total_bytes recs)
  /\ (total_bytes recs > capacity (type s) ->
      exists s', writeProgram s = Abort (ERROR_data TooLarge) s'
                 /\ progSize s' = capacity (type s) + 1).
Proof.
  intros Hbusy Hty Hnl Hrecs Hd Hs Hm.
  pose proof (writeProgram_run g busy nl recs s tail mrest Hbusy Hty Hnl Hrecs Hd Hs Hm)
    as H.
  split; [|split].
  - destruct Hty as [ -> | [ -> | [ -> | -> ] ] ]; reflexivity.
  - intros Hle.
    replace (total_bytes recs >? capacity (type s)) with false in H
      by (symmetry; rewrite Z.gtb_ltb; apply Z.ltb_ge; lia).
    destruct H as (s' & E & P & _). exists s'. split; assumption.
  - intros Hgt.
    replace (total_bytes recs >? capacity (type s)) with true in H
      by (symmetry; apply Z.gtb_lt; lia).
    exact H.
Qed.

Lemma file512_ok : Forall data_record_ok file512.
Proof.
  apply Forall_forall. intros r Hr. unfold file512 in Hr.
  apply in_map_iff in Hr as (i & <- & Hi). apply in_seq in Hi.
  unfold data_record_ok. cbn [fst snd]. rewrite repeat_length.
  repeat split; try lia.
  apply Forall_forall. intros b Hb. apply repeat_spec in Hb. lia.
Qed.

Lemma file513_ok : Forall data_record_ok file513.
Proof.
  apply Forall_app. split; [exact file512_ok|].
  constructor; [|constructor].
  unfold data_record_ok. cbn. repeat split; try lia.
  constructor; [lia|constructor].
Qed.

Lemma capacity_boundary_witness :
  (exists s', writeProgram (session file512) = Ret true s' /\ progSize s' = 512)
  /\ (exists s', writeProgram (session file513) = Abort (ERROR_data TooLarge) s'
                 /\ progSize s' = 513).
Proof.
  assert (Hnl : stray [10]).
  { right. exists 10. split; [reflexivity|]. vm_compute. discriminate. }
  assert (Hbusy : Forall busy_status [0x80; 0xC1]).
  { repeat constructor; unfold busy_status; lia. }
  split.
  - apply (proj1 (proj2 (capacity_boundary 1 [0x80; 0xC1] [10] file512 (session file512)
                           [] [] Hbusy
                           (or_introl eq_refl) Hnl file512_ok eq_refl eq_refl eq_refl))).
    vm_compute. discriminate.
  - apply (proj2 (proj2 (capacity_boundary 1 [0x80; 0xC1] [10] file513 (session file513)
                           [] [] Hbusy
                           (or_introl eq_refl) Hnl file513_ok eq_refl eq_refl eq_refl))).
    vm_compute. reflexivity.
Defined.

(** ** The end of the file and the last group *)
(** C1: the end-of-file record ":00000001FF" has no data byte, so the loop
    that pads and programs is not entered: in every state the record only
    sets [fileEnd] and the pointer mirror.  An ATtiny20 (groups of 4 bytes)
    sent a record of 3 data bytes and the end-of-file record reports
    success with 3 bytes while nothing is clocked out after the chip erase:
    the 3 bytes stay in the buffer, unpadded and unwritten. *)
Theorem eof_leaves_partial_group (words : Z) (l : locals)
        (rest mi mo : list Z) (ad ty ps : Z) (da : list Z) :
  (exists l',
      read_record words l (mkState (eof_record ++ rest) mi mo ad ty ps da) =
      Ret l' (mkState rest mi mo 0x4000 ty ps da)
      /\ fileEnd l' = true /\ currentByte l' = currentByte l)
  /\ (let s0 := mkState (chars ":0300000011223397" ++ [10] ++ chars ":00000001FF")
                        (answer 0 0) [] 0 Tiny20 0 (repeat 0xFF 16) in
      exists s1 s',
        eraseChip (set_progSize 0 s0) = Ret tt s1
        /\ writeProgram s0 = Ret true s'
        /\ progSize s' = 3
        /\ mosi s' = mosi s1
        /\ firstn 4 (data s') = [0x11; 0x22; 0x33; 0xFF]
        /\ serial s' = [] /\ miso s' = []).
Proof.
  split.
  - destruct (eof_record_run words l (mkState (eof_record ++ rest) mi mo ad ty ps da)
                [] rest (or_introl eq_refl) eq_refl) as (l' & E & F & C).
    exists l'. split; [exact E|]. split; assumption.
  - cbv zeta. eexists. eexists.
    split; [vm_compute; reflexivity|].
    split; [vm_compute; reflexivity|].
    repeat split.
Qed.

(** ** The recursion bounds are never reached *)

Lemma bounded_bind {A B : Type} (m : M A) (k : A -> M B) :
  bounded m -> (forall a, bounded (k a)) -> bounded (bind m k).
Proof.
  intros Hm Hk s. destruct (Hm s) as [Hm1 Hm2]. unfold bind.
  destruct (m s) as [a s1| | | |] eqn:E; try (split; [discriminate|discriminate]).
  - destruct (Hk a s1) as [Hk1 Hk2]. split; [exact Hk1|].
    intros b s' H. destruct (Hm2 a s1 eq_refl). destruct (Hk2 b s' H). lia.
  - contradiction.
Qed.

Lemma bounded_ret {A : Type} (a : A) : bounded (ret a).
Proof.
  intros s. split; [discriminate|]. intros b s' H. inversion H; subst. lia.
Qed.

Lemma bounded_get {A : Type} (f : state -> A) : bounded (get f).
Proof.
  intros s. split; [discriminate|]. intros b s' H. inversion H; subst. lia.
Qed.

Lemma bounded_abort {A : Type} (f : failure) : bounded (@abort A f).
Proof. intros s. split; discriminate. Qed.

Lemma bounded_hang {A : Type} (w : wait) : bounded (@hang A w).
Proof. intros s. split; discriminate. Qed.

Lemma bounded_SPI_transfer (x : Z) : bounded (SPI_transfer x).
Proof.
  intros s. split; [discriminate|]. intros b s' H. inversion H; subst.
  destruct s as [ser mi mo ad ty ps da]. cbn [serial miso set_miso set_mosi mosi].
  destruct mi; cbn [tl length]; lia.
Qed.

Lemma bounded_SPI_transfer_ (x : Z) : bounded (SPI_transfer_ x).
Proof.
  intros s. split; [discriminate|]. intros b s' H. inversion H; subst.
  destruct s; cbn; lia.
Qed.

Lemma bounded_modify_adrs (f : state -> Z) :
  bounded (modify (fun s => set_adrs (f s) s)).
Proof.
  intros s. split; [discriminate|]. intros b s' H. inversion H; subst.
  destruct s; cbn; lia.
Qed.

Lemma bounded_modify_progSize (f : state -> Z) :
  bounded (modify (fun s => set_progSize (f s) s)).
Proof.
  intros s. split; [discriminate|]. intros b s' H. inversion H; subst.
  destruct s; cbn; lia.
Qed.

Lemma bounded_data_get (i : Z) : bounded (data_get i).
Proof.
  intros s. unfold data_get. destruct ((0 <=? i) && (i <? 16)).
  - split; [discriminate|]. intros b s' H. inversion H; subst. lia.
  - split; discriminate.
Qed.

Lemma bounded_data_set (i v : Z) : bounded (data_set i v).
Proof.
  intros s. unfold data_set. destruct ((0 <=? i) && (i <? 16)).
  - split; [discriminate|]. intros b s' H. inversion H; subst.
    destruct s; cbn; lia.
  - split; discriminate.
Qed.

Lemma bounded_Sread : bounded Sread.
Proof.
  intros s. unfold Sread. destruct s as [ser mi mo ad ty ps da]. cbn [serial].
  destruct ser as [|c ser]; (split; [discriminate|]); [discriminate|].
  intros b s' H. inversion H; subst. unfold set_serial. cbn. lia.
Qed.

Lemma bounded_wait_available : bounded wait_available.
Proof.
  intros s. split.
  - unfold wait_available. destruct (serial s); discriminate.
  - intros b s' H. assert (E : s' = s).
    { unfold wait_available in H. destruct (serial s); inversion H. reflexivity. }
    subst s'. lia.
Qed.

Create HintDb bounded.
#[local] Hint Resolve bounded_ret bounded_get bounded_abort bounded_hang
  bounded_SPI_transfer bounded_SPI_transfer_ bounded_modify_adrs
  bounded_modify_progSize bounded_data_get bounded_data_set bounded_Sread
  bounded_wait_available : bounded.

Ltac bounded_step :=
  match goal with
  | |- bounded (bind _ _) => apply bounded_bind; [|intros]
  | |- bounded (if ?c then _ else _) => destruct c
  | |- bounded (let (_, _) := ?p in _) => destruct p
  | |- _ => solve [auto with bounded]
  end.

Ltac bounded := repeat bounded_step.

Lemma bounded_tpi_send_byte (d : Z) : bounded (tpi_send_byte d).
Proof. unfold tpi_send_byte. bounded. Qed.
#[local] Hint Resolve bounded_tpi_send_byte : bounded.

Lemma realign_check_all :
  forallb (fun i => realign_check (Z.of_nat i)) (seq 0 256) = true.
Proof. vm_compute. reflexivity. Qed.

(** The realignment loop ends within seven turns. *)
Lemma realign_total (b1 b2 : Z) :
  0 <= b1 < 255 -> 0 <= b2 < 256 ->
  exists b, realign 8 b1 b2 = Some b /\ 0 <= b < 256.
Proof.
  intros H1 H2.
  pose proof (byte_cases realign_check realign_check_all b1 ltac:(lia)) as C.
  unfold realign_check in C. apply orb_prop in C as [C|C].
  { apply Z.eqb_eq in C. lia. }
  pose proof (byte_cases
                (fun b2 => match realign 8 b1 b2 with
                           | Some b => (0 <=? b) && (b <? 256)
                           | None => false
                           end) C b2 H2) as C'.
  cbv beta in C'. destruct (realign 8 b1 b2) as [b|]; [|discriminate].
  apply andb_prop in C' as [A B]. apply Z.leb_le in A. apply Z.ltb_lt in B.
  exists b. split; [reflexivity|lia].
Qed.

(** The wait for the start bit returns the first transfer that is not
    idle, having taken it from [miso]. *)
Lemma wait_start_bit_ret (n : nat) :
  forall (s s1 : state) (b1 : Z),
    wait_start_bit n s = Ret b1 s1 ->
    0 <= b1 < 255
    /\ (length (miso s1) < length (miso s))%nat
    /\ length (serial s1) = length (serial s).
Proof.
  induction n as [|n IH]; intros s s1 b1 H; cbn [wait_start_bit] in H.
  - discriminate.
  - destruct s as [ser mi mo ad ty ps da].
    unfold bind in H. unfold SPI_transfer at 1 in H.
    unfold set_mosi, set_miso in H.
    cbn [miso mosi serial adrs type progSize data] in H.
    destruct (0xff =? u8 (hd 0xff mi)) eqn:E.
    + apply IH in H. cbn [miso serial] in *. destruct mi; cbn [tl length] in *; lia.
    + inversion H; subst. apply Z.eqb_neq in E. pose proof (u8_range (hd 0xff mi)).
      cbn [miso serial]. destruct mi as [|x mi]; [cbn in E; congruence|].
      cbn [tl length]. repeat split; lia.
Qed.

Lemma wait_start_bit_fuel (n : nat) (s : state) : wait_start_bit n s <> OutOfFuel.
Proof.
  revert s. induction n as [|n IH]; intros s; cbn [wait_start_bit].
  - discriminate.
  - unfold bind, SPI_transfer. destruct (0xff =? _); [apply IH|discriminate].
Qed.

Lemma tpi_receive_byte_ret (s s' : state) (b : Z) :
  tpi_receive_byte s = Ret b s' ->
  (length (miso s') < length (miso s))%nat
  /\ length (serial s') = length (serial s).
Proof.
  unfold tpi_receive_byte. intros H.
  apply bind_inv in H as (b1 & s1 & H1 & H).
  apply wait_start_bit_ret in H1 as (_ & M1 & S1).
  apply bind_inv in H as (b2 & s2 & H2 & H).
  pose proof (proj2 (bounded_SPI_transfer 0xff s1) _ _ H2) as [S2 M2].
  assert (S2' : length (serial s2) = length (serial s1)).
  { inversion H2; subst. destruct s1; reflexivity. }
  apply bind_inv in H as ([] & s3 & H3 & H).
  assert (B3 : (length (miso s3) <= length (miso s2))%nat
               /\ length (serial s3) = length (serial s2)).
  { destruct (0x0f =? Z.land 0x0f b1).
    - apply bind_inv in H3 as (b3 & s3' & H3 & H3').
      inversion H3'; subst. inversion H3; subst.
      destruct s2 as [ser mi mo ad ty ps da]. unfold set_mosi, set_miso.
      cbn [miso mosi serial adrs type progSize data]. destruct mi; cbn [tl length]; lia.
    - inversion H3; subst. lia. }
  destruct (realign 8 b1 b2); [|discriminate].
  inversion H; subst. lia.
Qed.

Lemma tpi_receive_byte_fuel (s : state) : tpi_receive_byte s <> OutOfFuel.
Proof.
  unfold tpi_receive_byte. unfold bind at 1.
  destruct (wait_start_bit (length (miso s)) s) as [b1 s1| | | |] eqn:E1;
    try discriminate.
  2:{ exfalso. exact (wait_start_bit_fuel _ _ E1). }
  apply wait_start_bit_ret in E1 as (Hb1 & _).
  unfold bind at 1. unfold SPI_transfer at 1.
  unfold bind at 1.
  assert (E3 : exists s3,
             (if 0x0f =? Z.land 0x0f b1
              then (_ <- SPI_transfer 0xff ;; ret tt) else ret tt)
               (set_mosi (mosi s1 ++ [0xff]) (set_miso (tl (miso s1)) s1)) = Ret tt s3).
  { destruct (0x0f =? Z.land 0x0f b1); eexists; reflexivity. }
  destruct E3 as [s3 E3]. rewrite E3.
  destruct (realign_total b1 (u8 (hd 0xff (miso s1))) Hb1 (u8_range _)) as (b & Eb & _).
  rewrite Eb. discriminate.
Qed.

Lemma bounded_tpi_receive_byte : bounded tpi_receive_byte.
Proof.
  intros s. split; [apply tpi_receive_byte_fuel|].
  intros b s' H. apply tpi_receive_byte_ret in H. lia.
Qed.
#[local] Hint Resolve bounded_tpi_receive_byte : bounded.

Lemma bounded_setPointer (a : Z) : bounded (setPointer a).
Proof. unfold setPointer. bounded. Qed.
Lemma bounded_writeIO (a v : Z) : bounded (writeIO a v).
Proof. unfold writeIO. bounded. Qed.
Lemma bounded_readIO (a : Z) : bounded (readIO a).
Proof. unfold readIO. bounded. Qed.
#[local] Hint Resolve bounded_setPointer bounded_writeIO bounded_readIO : bounded.

Lemma readIO_ret (a : Z) (s s' : state) (b : Z) :
  readIO a s = Ret b s' ->
  (length (miso s') < length (miso s))%nat
  /\ length (serial s') = length (serial s).
Proof.
  unfold readIO. intros H. apply bind_inv in H as ([] & s1 & H1 & H).
  rewrite tpi_send_byte_eq in H1. inversion H1; subst.
  apply tpi_receive_byte_ret in H. destruct s; exact H.
Qed.

(** The poll of the busy bit ends before its bound: every answer is taken
    from [miso]. *)
Lemma nvm_busy_wait_bounded (n : nat) :
  forall s : state,
    (length (miso s) < n)%nat ->
    nvm_busy_wait n s <> OutOfFuel
    /\ forall a s', nvm_busy_wait n s = Ret a s' ->
                    (length (serial s') <= length (serial s))%nat
                    /\ (length (miso s') <= length (miso s))%nat.
Proof.
  induction n as [|n IH]; intros s Hn; [lia|].
  cbn [nvm_busy_wait]. unfold bind.
  destruct (readIO NVMCSR s) as [v s1| | | |] eqn:E; try (split; discriminate).
  - apply readIO_ret in E as [M S1].
    destruct (negb (Z.land v (Z.shiftl 1 7) =? 0)).
    + destruct (IH s1 ltac:(lia)) as [F R]. split; [exact F|].
      intros a s' H. apply R in H. lia.
    + split; [discriminate|]. intros a s' H. inversion H; subst. lia.
  - exfalso. exact (proj1 (bounded_readIO NVMCSR s) E).
Qed.

Lemma bounded_nvm_wait : bounded nvm_wait.
Proof. intros s. unfold nvm_wait. apply nvm_busy_wait_bounded. lia. Qed.
#[local] Hint Resolve bounded_nvm_wait : bounded.

Lemma bounded_eraseChip : bounded eraseChip.
Proof. unfold eraseChip. bounded. Qed.
Lemma bounded_write_words (n : nat) (i : Z) : bounded (write_words n i).
Proof. revert i. induction n; intros i; cbn [write_words]; bounded. Qed.
Lemma bounded_verify_words (n : nat) (c : Z) : bounded (verify_words n c).
Proof. revert c. induction n; intros c; cbn [verify_words]; bounded. Qed.
#[local] Hint Resolve bounded_eraseChip bounded_write_words bounded_verify_words
  : bounded.

Lemma bounded_program_group (words : Z) (l : locals) :
  bounded (program_group words l).
Proof. unfold program_group. bounded. Qed.
#[local] Hint Resolve bounded_program_group : bounded.

Lemma bounded_pad_group (n : nat) (words : Z) :
  forall l : locals,
    0 <= currentByte l ->
    2 * words - currentByte l <= Z.of_nat n ->
    bounded (pad_group n words l).
Proof.
  induction n as [|n IH]; intros l H0 Hn; cbn [pad_group].
  - destruct (currentByte l <? 2 * words) eqn:E; [apply Z.ltb_lt in E; lia|].
    apply bounded_ret.
  - destruct (currentByte l <? 2 * words) eqn:E; [|apply bounded_ret].
    intros s. unfold bind at 1 2. unfold data_set.
    destruct ((0 <=? currentByte l) && (currentByte l <? 16)) eqn:B.
    + apply andb_prop in B as [_ B]. apply Z.ltb_lt in B.
      assert (Hb : bounded (pad_group n words (set_currentByte (u16 (currentByte l + 1)) l))).
      { apply IH; cbn [currentByte set_currentByte];
          rewrite u16_small by lia; lia. }
      destruct (Hb (set_data (upd (Z.to_nat (currentByte l)) 0 (data s)) s)) as [F R].
      split; [exact F|]. intros a s' H. apply R in H.
      destruct s; exact H.
    + split; discriminate.
Qed.

Lemma bounded_data_byte (words : Z) (l : locals) : bounded (data_byte words l).
Proof.
  unfold data_byte. bounded.
  apply bounded_pad_group; cbn [currentByte].
  - unfold u16. apply Z.mod_pos_bound. lia.
  - assert (0 <= u16 (currentByte l + 1)) by (unfold u16; apply Z.mod_pos_bound; lia).
    lia.
Qed.
#[local] Hint Resolve bounded_data_byte : bounded.

Lemma bounded_read_data (n : nat) (words : Z) (l : locals) :
  bounded (read_data n words l).
Proof. revert l. induction n; intros l; cbn [read_data]; bounded. Qed.
Lemma bounded_skip_record (n : nat) (l : locals) : bounded (skip_record n l).
Proof. revert l. induction n; intros l; cbn [skip_record]; bounded. Qed.
Lemma bounded_read_checksum (l : locals) : bounded (read_checksum l).
Proof. unfold read_checksum. bounded. Qed.
Lemma bounded_read_fields (l : locals) : bounded (read_fields l).
Proof.
  unfold read_fields. bounded.
Qed.
Lemma bounded_expect_colon : bounded expect_colon.
Proof. unfold expect_colon. bounded. Qed.
#[local] Hint Resolve bounded_read_data bounded_skip_record bounded_read_checksum
  bounded_read_fields bounded_expect_colon : bounded.

Lemma bounded_read_record (words : Z) (l : locals) : bounded (read_record words l).
Proof. unfold read_record, read_header. bounded. Qed.

(** A record that is read to its end has taken characters from the stream. *)
Lemma read_record_shrinks (words : Z) (l l' : locals) (s s' : state) :
  read_record words l s = Ret l' s' ->
  (length (serial s') < length (serial s))%nat.
Proof.
  rewrite read_record_eq. intros H.
  apply bind_inv in H as ([] & s1 & H1 & H).
  assert (E1 : s1 = s).
  { unfold wait_available in H1. destruct (serial s); inversion H1. reflexivity. }
  subst s1.
  apply bind_inv in H as ([] & s2 & H2 & H).
  assert (S2 : (length (serial s2) < length (serial s))%nat).
  { unfold expect_colon in H2. apply bind_inv in H2 as (c & s3 & H3 & H2).
    assert (S3 : (length (serial s3) < length (serial s))%nat).
    { unfold Sread in H3. destruct s as [ser mi mo ad ty ps da]. cbn [serial] in *.
      destruct ser; inversion H3; subst. cbn. lia. }
    assert (B : bounded (if negb (c =? 58)
                         then c' <- Sread ;;
                              if negb (c' =? 58) then abort (ERROR_data HexError)
                              else ret tt
                         else ret tt)) by bounded.
    apply (proj2 (B s3)) in H2. lia. }
  assert (B : bounded (l0 <- read_fields l ;;
                       if someth l0 =? 2 then skip_record (Z.to_nat (linelength l0 + 1)) l0
                       else l1 <- read_data (Z.to_nat (linelength l0)) words l0 ;;
                            read_checksum l1)) by bounded.
  apply (proj2 (B s2)) in H. lia.
Qed.

Lemma record_loop_fuel (n : nat) (words : Z) :
  forall (l : locals) (s : state),
    (length (serial s) < n)%nat -> record_loop n words l s <> OutOfFuel.
Proof.
  induction n as [|n IH]; intros l s Hn; [lia|].
  cbn [record_loop]. destruct (fileEnd l); [discriminate|].
  unfold bind.
  destruct (read_record words l s) as [l' s'| | | |] eqn:E; try discriminate.
  - apply IH. apply read_record_shrinks in E. lia.
  - exfalso. exact (proj1 (bounded_read_record words l s) E).
Qed.

(** [writeProgram] never reaches the bound of one of its loops. *)
Lemma writeProgram_fuel (s : state) : writeProgram s <> OutOfFuel.
Proof.
  unfold writeProgram.
  unfold bind at 1. unfold modify at 1.
  unfold bind at 1.
  destruct (eraseChip (set_progSize 0 s)) as [[] s1| | | |] eqn:E; try discriminate.
  2:{ exfalso. exact (proj1 (bounded_eraseChip _) E). }
  unfold bind at 1. unfold get at 1.
  unfold bind at 1. unfold get at 1.
  unfold bind at 1.
  pose proof (record_loop_fuel (S (length (serial s1))) (words_of (type s1))
                writeProgram_locals s1 ltac:(lia)) as F.
  destruct (record_loop (S (length (serial s1))) (words_of (type s1))
              writeProgram_locals s1); try discriminate.
  contradiction.
Qed.

(** [send_skey] returns for every key. *)
Lemma send_skey_loop_total (n : nat) :
  forall (key : Z) (s : state),
    0 <= key < 256 ^ Z.of_nat n ->
    exists s', send_skey_loop (S n) key s = Ret tt s'.
Proof.
  induction n as [|n IH]; intros key s Hk; cbn [send_skey_loop].
  - change (256 ^ Z.of_nat 0) with 1 in Hk.
    replace (key =? 0) with true by (symmetry; apply Z.eqb_eq; lia).
    eexists. reflexivity.
  - destruct (key =? 0); [eexists; reflexivity|].
    unfold bind. rewrite tpi_send_byte_eq.
    apply IH. rewrite Z.shiftr_div_pow2 by lia. change (2 ^ 8) with 256.
    rewrite Nat2Z.inj_succ, Z.pow_succ_r in Hk by lia.
    split; [apply Z.div_pos; lia|apply Z.div_lt_upper_bound; lia].
Qed.

Lemma send_skey_total (key : Z) (s : state) :
  exists s', send_skey key s = Ret tt s'.
Proof.
  unfold send_skey, bind. rewrite tpi_send_byte_eq.
  apply (send_skey_loop_total 8). unfold u64. apply Z.mod_pos_bound. lia.
Qed.

(** ** A target that stays silent *)
Lemma wait_start_bit_silent (m : list Z) :
  forall s : state,
    miso s = m -> Forall (fun b => b = 0xff) m ->
    wait_start_bit (length m) s =
    Hang StartBitWait (set_mosi (mosi s ++ repeat 0xff (length m)) (set_miso [] s)).
Proof.
  induction m as [|b m IH]; intros s Hm Hs.
  - destruct s as [ser mi mo ad ty ps da]. cbn in Hm. subst mi.
    cbn. rewrite app_nil_r. reflexivity.
  - inversion Hs as [|? ? Hb Hs']; subst.
    cbn [length]. rewrite (wait_start_bit_idle _ m) by exact Hm.
    rewrite IH; [|destruct s; reflexivity|exact Hs'].
    destruct s as [ser mi mo ad ty ps da]. cbn [repeat].
    cbn [miso mosi set_miso set_mosi serial adrs type progSize data].
    rewrite <- app_assoc. reflexivity.
Qed.

Lemma tpi_receive_byte_silent (s : state) :
  silent s ->
  tpi_receive_byte s =
  Hang StartBitWait
    (set_mosi (mosi s ++ repeat 0xff (length (miso s))) (set_miso [] s)).
Proof.
  intros H. unfold tpi_receive_byte, bind at 1.
  rewrite (wait_start_bit_silent (miso s) s eq_refl H). reflexivity.
Qed.

Lemma silent_set_mosi (v : list Z) (s : state) : silent s -> silent (set_mosi v s).
Proof. destruct s. exact (fun H => H). Qed.

Lemma silent_set_adrs (v : Z) (s : state) : silent s -> silent (set_adrs v s).
Proof. destruct s. exact (fun H => H). Qed.

Lemma silent_set_progSize (v : Z) (s : state) : silent s -> silent (set_progSize v s).
Proof. destruct s. exact (fun H => H). Qed.

Lemma readIO_silent (a : Z) (s : state) :
  silent s ->
  exists mo', readIO a s = Hang StartBitWait (set_mosi mo' (set_miso [] s)).
Proof.
  intros H. unfold readIO. rewrite (bind_ret _ _ _ _ _ (tpi_send_byte_eq _ s)).
  rewrite tpi_receive_byte_silent by (apply silent_set_mosi; exact H).
  destruct s as [ser mi mo ad ty ps da]. eexists. reflexivity.
Qed.

Lemma nvm_wait_silent (s : state) :
  silent s ->
  exists mo', nvm_wait s = Hang StartBitWait (set_mosi mo' (set_miso [] s)).
Proof.
  intros H. unfold nvm_wait. cbn [nvm_busy_wait].
  destruct (readIO_silent NVMCSR s H) as [mo' E].
  exists mo'. unfold bind. rewrite E. reflexivity.
Qed.

Lemma eraseChip_silent (s : state) :
  silent s ->
  exists s', eraseChip s = Hang StartBitWait s' /\ serial s' = serial s.
Proof.
  intros H. unfold eraseChip.
  destruct s as [ser mi mo ad ty ps da].
  rewrite bind_eq, setPointer_eq. cbv beta iota. state_simpl.
  rewrite bind_eq, writeIO_eq. cbv beta iota. state_simpl.
  do 8 (rewrite bind_eq, tpi_send_byte_eq; cbv beta iota; state_simpl).
  match goal with
  | |- context [nvm_wait ?s0] => destruct (nvm_wait_silent s0 H) as [mo' E]
  end.
  rewrite E. eexists. split; reflexivity.
Qed.

Lemma checkID_silent (s : state) :
  silent s ->
  exists s', checkID s = Hang StartBitWait s' /\ type s' = type s.
Proof.
  intros H. unfold checkID.
  destruct s as [ser mi mo ad ty ps da].
  rewrite bind_eq, setPointer_eq. cbv beta iota. state_simpl.
  rewrite bind_eq, tpi_send_byte_eq. cbv beta iota. state_simpl.
  rewrite bind_eq, tpi_receive_byte_silent by exact H.
  eexists. split; reflexivity.
Qed.

Lemma writeProgram_silent (s : state) :
  silent s ->
  exists s', writeProgram s = Hang StartBitWait s' /\ serial s' = serial s.
Proof.
  intros H. unfold writeProgram.
  rewrite bind_eq. unfold modify at 1. cbv beta iota.
  destruct (eraseChip_silent (set_progSize 0 s)) as (s' & E & Hs).
  { apply silent_set_progSize. exact H. }
  rewrite bind_eq, E. exists s'. split; [reflexivity|].
  rewrite Hs. destruct s; reflexivity.
Qed.

(** When the target never answers, every transfer reading back idle, the
    wait for the start bit in [tpi_receive_byte] has no bound: the read of
    a register, the identification, the chip erase and the loader, which
    erases first, wait for ever, the loader before it takes a character
    of the file. *)
Theorem silent_target_hangs (s : state) :
  silent s ->
  tpi_receive_byte s =
    Hang StartBitWait
      (set_mosi (mosi s ++ repeat 0xff (length (miso s))) (set_miso [] s))
  /\ (forall a, exists s', readIO a s = Hang StartBitWait s')
  /\ (exists s', checkID s = Hang StartBitWait s' /\ type s' = type s)
  /\ (exists s', eraseChip s = Hang StartBitWait s' /\ serial s' = serial s)
  /\ (exists s', writeProgram s = Hang StartBitWait s' /\ serial s' = serial s).
Proof.
  intros H. split; [|split; [|split; [|split]]].
  - apply tpi_receive_byte_silent. exact H.
  - intros a. destruct (readIO_silent a s H) as [mo' E]. eexists. exact E.
  - apply checkID_silent. exact H.
  - apply eraseChip_silent. exact H.
  - apply writeProgram_silent. exact H.
Qed.

Lemma silent_target_hangs_witness :
  exists s',
    writeProgram (mkState (chars ":00000001FF") [0xff; 0xff; 0xff] [] 0 Tiny10 0
                          (repeat 0 16)) = Hang StartBitWait s'
    /\ serial s' = chars ":00000001FF".
Proof.
  apply (proj2 (proj2 (proj2 (proj2
           (silent_target_hangs
              (mkState (chars ":00000001FF") [0xff; 0xff; 0xff] [] 0 Tiny10 0
                       (repeat 0 16))
              ltac:(unfold silent; cbn [miso]; repeat constructor)))))).
Defined.

(** ** The opcodes of SIN and SOUT *)
Lemma opcode_check_all : forallb (fun i => opcode_check (Z.of_nat i)) (seq 0 256) = true.
Proof. vm_compute. reflexivity. Qed.

(** [writeIO] and [readIO] put the six bits of an I/O address into bits 6,
    5, 3, 2, 1 and 0 of the opcode, with bit 4 set and bit 7 set for a
    write and clear for a read; the two high bits of the address byte are
    dropped.  The status register 0x32 is read with 0x72 and the command
    register 0x33 written with 0xF3. *)
Theorem io_opcode_layout (address value : Z) (s : state) :
  0 <= address < 256 ->
  let a := address mod 64 in
  writeIO address value s =
    Ret tt (set_mosi (mosi s ++ frames [0x90 + 32 * (a / 16) + a mod 16; value]) s)
  /\ readIO address s =
     tpi_receive_byte
       (set_mosi (mosi s ++ frames [0x10 + 32 * (a / 16) + a mod 16]) s)
  /\ SOUT NVMCMD = 0xF3 /\ SIN NVMCSR = 0x72.
Proof.
  intros Ha a.
  pose proof (byte_cases opcode_check opcode_check_all address Ha) as C.
  unfold opcode_check in C. apply andb_prop in C as [C1 C2].
  apply Z.eqb_eq in C1. apply Z.eqb_eq in C2.
  fold a in C1, C2.
  split; [|split; [|split]].
  - rewrite writeIO_eq. fold (SOUT address). rewrite C1. reflexivity.
  - unfold readIO. rewrite bind_eq, tpi_send_byte_eq. cbv beta iota.
    fold (SIN address). rewrite C2. reflexivity.
  - reflexivity.
  - reflexivity.
Qed.

Lemma io_opcode_layout_witness :
  writeIO 0xB3 NVM_WORD_WRITE (mkState [] [] [] 0 0 0 []) =
  Ret tt (mkState [] [] (frames [0xF3; NVM_WORD_WRITE]) 0 0 0 []).
Proof.
  apply (proj1 (io_opcode_layout 0xB3 NVM_WORD_WRITE (mkState [] [] [] 0 0 0 [])
                  ltac:(lia))).
Defined.

(** ** Parity and stop bits at reception *)
Lemma answer_with_idle8 (g : nat) (d : Z) (p s1 s2 : bool) :
  answer_with (8 + g) d p s1 s2 = 0xff :: answer_with g d p s1 s2.
Proof.
  unfold answer_with, line_with.
  replace ((8 + g) / 8)%nat with (S (g / 8)).
  2:{ change (8 + g)%nat with (1 * 8 + g)%nat. rewrite Nat.div_add_l by lia. reflexivity. }
  replace ((8 + g) mod 8)%nat with (g mod 8)%nat.
  2:{ rewrite <- (Nat.Div0.mod_add g 1 8). f_equal. lia. }
  unfold capture. cbn [Nat.add seq map]. f_equal.
  rewrite <- seq_shift, map_map.
  apply map_ext. intros k. apply transfer_at_idle8.
Qed.

Lemma answer_with_check_all :
  forallb (fun g => forallb (fun i => answer_with_check g (Z.of_nat i)) (seq 0 256))
          (seq 0 8) = true.
Proof. vm_compute. reflexivity. Qed.

Lemma tpi_receive_byte_answer_with (g : nat) (d : Z) (p s1 s2 : bool)
      (rest : list Z) (s : state) :
  0 <= d < 256 ->
  miso s = answer_with g d p s1 s2 ++ rest ->
  tpi_receive_byte s =
  Ret d (set_mosi (mosi s ++ repeat 0xff (length (answer_with g d p s1 s2)))
                  (set_miso rest s)).
Proof.
  intros Hd. revert s.
  induction g as [g IH] using (well_founded_induction lt_wf). intros s Hm.
  destruct (Nat.lt_ge_cases g 8) as [Hg|Hg].
  - pose proof (forallb_below 8 _ answer_with_check_all g Hg) as C. cbv beta in C.
    pose proof (byte_cases _ C d Hd) as C'. clear C.
    unfold answer_with_check in C'.
    assert (C : match answer_with g d p s1 s2 with
                | [b1; b2] =>
                    (0 <=? b1) && (b1 <? 255) && (0 <=? b2) && (b2 <? 256)
                    && negb (0x0f =? Z.land 0x0f b1)
                    && match realign 8 b1 b2 with Some b => b =? d | None => false end
                | [b1; b2; b3] =>
                    (0 <=? b1) && (b1 <? 255) && (0 <=? b2) && (b2 <? 256)
                    && (0x0f =? Z.land 0x0f b1)
                    && match realign 8 b1 b2 with Some b => b =? d | None => false end
                | _ => false
                end = true).
    { cbn [forallb] in C'. rewrite !andb_true_r in C'.
      repeat match goal with
             | H : _ && _ = true |- _ => apply andb_prop in H as [? ?]
             end.
      destruct p, s1, s2; assumption. }
    clear C'.
    destruct (answer_with g d p s1 s2) as [|b1 [|b2 [|b3 [|? ?]]]]; try discriminate.
    + apply andb_prop in C as [C R]. apply andb_prop in C as [C N].
      apply andb_prop in C as [C B4]. apply andb_prop in C as [C B3].
      apply andb_prop in C as [B1 B2].
      rewrite (tpi_receive_byte_start b1 b2 rest) by (auto; lia).
      unfold received. destruct (realign 8 b1 b2) as [b|]; [|discriminate].
      apply Z.eqb_eq in R. subst b.
      apply negb_true_iff in N. rewrite N. reflexivity.
    + apply andb_prop in C as [C R]. apply andb_prop in C as [C N].
      apply andb_prop in C as [C B4]. apply andb_prop in C as [C B3].
      apply andb_prop in C as [B1 B2].
      rewrite (tpi_receive_byte_start b1 b2 (b3 :: rest)) by (auto; lia).
      unfold received. destruct (realign 8 b1 b2) as [b|]; [|discriminate].
      apply Z.eqb_eq in R. subst b. rewrite N. reflexivity.
  - replace g with (8 + (g - 8))%nat in * by lia.
    rewrite answer_with_idle8 in *. cbn [app] in Hm.
    rewrite (tpi_receive_byte_idle (answer_with (g - 8) d p s1 s2 ++ rest)) by exact Hm.
    rewrite (IH (g - 8)%nat) by (try lia; destruct s; reflexivity).
    destruct s as [ser mi mo ad ty ps da].
    cbn [miso mosi set_miso set_mosi serial adrs type progSize data length repeat].
    rewrite <- app_assoc. reflexivity.
Qed.

(** [tpi_receive_byte] checks neither the parity bit nor the stop bits:
    after any number of idle bits, a start bit and the eight data bits of
    [d] make it return [d], whatever the three bits that follow are, and
    leave the transfers after the frame unread. *)
Theorem receive_ignores_parity (gap : nat) (d : Z) (p s1 s2 : bool)
        (rest : list Z) (s : state) :
  0 <= d < 256 ->
  miso s = answer_with gap d p s1 s2 ++ rest ->
  exists s', tpi_receive_byte s = Ret d s' /\ miso s' = rest.
Proof.
  intros Hd Hm. eexists. split.
  - apply (tpi_receive_byte_answer_with gap d p s1 s2 rest s Hd Hm).
  - destruct s; reflexivity.
Qed.

Lemma receive_ignores_parity_witness :
  exists s',
    tpi_receive_byte
      (mkState [] (answer_with 5 0x01 false false true ++ [0x55]) [] 0 0 0 []) =
    Ret 0x01 s' /\ miso s' = [0x55].
Proof.
  apply (receive_ignores_parity 5 0x01 false false true [0x55]
           (mkState [] (answer_with 5 0x01 false false true ++ [0x55]) [] 0 0 0 [])
           ltac:(lia) eq_refl).
Defined.

(** ** Indices into the data buffer *)
Lemma tidy_bind {A B : Type} (m : M A) (k : A -> M B) :
  tidy m -> (forall a, tidy (k a)) -> tidy (bind m k).
Proof.
  intros Hm Hk s. destruct (Hm s) as [Hm1 Hm2]. unfold bind.
  destruct (m s) as [a s1| | | |] eqn:E; try (split; [exact I|discriminate]).
  - destruct (Hk a s1) as [Hk1 Hk2]. split; [exact Hk1|].
    intros b s' H. destruct (Hm2 a s1 eq_refl) as [T P].
    destruct (Hk2 b s' H) as [T' P']. split; congruence.
  - contradiction.
Qed.

Lemma tidy_ret {A : Type} (a : A) : tidy (ret a).
Proof. intros s. split; [exact I|]. intros b s' H. inversion H; subst. split; reflexivity. Qed.

Lemma tidy_get {A : Type} (f : state -> A) : tidy (get f).
Proof. intros s. split; [exact I|]. intros b s' H. inversion H; subst. split; reflexivity. Qed.

Lemma tidy_abort {A : Type} (f : failure) : tidy (@abort A f).
Proof. intros s. split; [exact I|discriminate]. Qed.

Lemma tidy_hang {A : Type} (w : wait) : tidy (@hang A w).
Proof. intros s. split; [exact I|discriminate]. Qed.

Lemma tidy_fuel {A : Type} : tidy (fun _ : state => @OutOfFuel A).
Proof. intros s. split; [exact I|discriminate]. Qed.

Lemma tidy_SPI_transfer (x : Z) : tidy (SPI_transfer x).
Proof.
  intros s. split; [exact I|]. intros b s' H. inversion H; subst.
  destruct s; split; reflexivity.
Qed.

Lemma tidy_SPI_transfer_ (x : Z) : tidy (SPI_transfer_ x).
Proof.
  intros s. split; [exact I|]. intros b s' H. inversion H; subst.
  destruct s; split; reflexivity.
Qed.

Lemma tidy_modify_adrs (f : state -> Z) : tidy (modify (fun s => set_adrs (f s) s)).
Proof.
  intros s. split; [exact I|]. intros b s' H. inversion H; subst.
  destruct s; split; reflexivity.
Qed.

Lemma tidy_set_adrs (v : Z) : tidy (modify (set_adrs v)).
Proof.
  intros s. split; [exact I|]. intros b s' H. inversion H; subst.
  destruct s; split; reflexivity.
Qed.

Lemma tidy_Sread : tidy Sread.
Proof.
  intros s. unfold Sread. destruct s as [ser mi mo ad ty ps da]. cbn [serial].
  destruct ser as [|c ser]; (split; [exact I|]); [discriminate|].
  intros b s' H. inversion H; subst. split; reflexivity.
Qed.

Lemma tidy_wait_available : tidy wait_available.
Proof.
  intros s. unfold wait_available. destruct (serial s); (split; [exact I|]);
    [discriminate|].
  intros b s' H. inversion H; subst. split; reflexivity.
Qed.

Create HintDb tidy.
#[local] Hint Resolve tidy_ret tidy_get tidy_abort tidy_hang tidy_fuel
  tidy_SPI_transfer tidy_SPI_transfer_ tidy_modify_adrs tidy_set_adrs
  tidy_Sread tidy_wait_available : tidy.

Ltac tidy_step :=
  match goal with
  | |- tidy (bind _ _) => apply tidy_bind; [|intros]
  | |- tidy (if ?c then _ else _) => destruct c
  | |- tidy (let (_, _) := ?p in _) => destruct p
  | |- tidy (match ?x with Some _ => _ | None => _ end) => destruct x
  | |- _ => solve [auto with tidy]
  end.

Ltac tidy := repeat tidy_step.

Lemma tidy_tpi_send_byte (d : Z) : tidy (tpi_send_byte d).
Proof. unfold tpi_send_byte. tidy. Qed.
#[local] Hint Resolve tidy_tpi_send_byte : tidy.

Lemma tidy_wait_start_bit (n : nat) : tidy (wait_start_bit n).
Proof. induction n; cbn [wait_start_bit]; tidy. Qed.
#[local] Hint Resolve tidy_wait_start_bit : tidy.

Lemma tidy_tpi_receive_byte : tidy tpi_receive_byte.
Proof.
  intros s.
  assert (T : tidy
            (b1 <- wait_start_bit (length (miso s)) ;;
             b2 <- SPI_transfer 0xff ;;
             (if 0x0f =? Z.land 0x0f b1 then (_ <- SPI_transfer 0xff ;; ret tt) else ret tt) ;;
             match realign 8 b1 b2 with
             | Some b => ret b
             | None => fun _ => OutOfFuel
             end)) by tidy.
  exact (T s).
Qed.
#[local] Hint Resolve tidy_tpi_receive_byte : tidy.

Lemma tidy_setPointer (a : Z) : tidy (setPointer a).
Proof. unfold setPointer. tidy. Qed.
Lemma tidy_writeIO (a v : Z) : tidy (writeIO a v).
Proof. unfold writeIO. tidy. Qed.
Lemma tidy_readIO (a : Z) : tidy (readIO a).
Proof. unfold readIO. tidy. Qed.
#[local] Hint Resolve tidy_setPointer tidy_writeIO tidy_readIO : tidy.

Lemma tidy_nvm_busy_wait (n : nat) : tidy (nvm_busy_wait n).
Proof. induction n; cbn [nvm_busy_wait]; tidy. Qed.
#[local] Hint Resolve tidy_nvm_busy_wait : tidy.

Lemma tidy_nvm_wait : tidy nvm_wait.
Proof. intros s. unfold nvm_wait. apply tidy_nvm_busy_wait. Qed.
#[local] Hint Resolve tidy_nvm_wait : tidy.

Lemma tidy_eraseChip : tidy eraseChip.
Proof. unfold eraseChip. tidy. Qed.

Lemma tidy_data_get (i : Z) : 0 <= i < 16 -> tidy (data_get i).
Proof.
  intros Hi s. unfold data_get.
  replace ((0 <=? i) && (i <? 16)) with true
    by (symmetry; apply andb_true_intro; split; [apply Z.leb_le|apply Z.ltb_lt]; lia).
  split; [exact I|]. intros b s' H. inversion H; subst. split; reflexivity.
Qed.

Lemma tidy_data_set (i v : Z) : 0 <= i < 16 -> tidy (data_set i v).
Proof.
  intros Hi s. unfold data_set.
  replace ((0 <=? i) && (i <? 16)) with true
    by (symmetry; apply andb_true_intro; split; [apply Z.leb_le|apply Z.ltb_lt]; lia).
  split; [exact I|]. intros b s' H. inversion H; subst.
  destruct s; split; reflexivity.
Qed.

Lemma tidy_write_words (n : nat) :
  forall i : Z, 0 <= i -> i + 2 * Z.of_nat n <= 16 -> tidy (write_words n i).
Proof.
  induction n as [|n IH]; intros i Hi Hn; cbn [write_words]; [tidy|].
  apply tidy_bind; [tidy|intros _].
  apply tidy_bind; [apply tidy_data_get; lia|intros lo].
  apply tidy_bind; [tidy|intros _].
  apply tidy_bind; [tidy|intros _].
  apply tidy_bind; [apply tidy_data_get; lia|intros hi].
  apply tidy_bind; [tidy|intros _].
  apply tidy_bind; [tidy|intros _].
  apply tidy_bind; [tidy|intros _].
  apply IH; lia.
Qed.

Lemma tidy_verify_words (n : nat) :
  forall c : Z, 0 <= c -> c + Z.of_nat n <= 16 -> tidy (verify_words n c).
Proof.
  induction n as [|n IH]; intros c Hc Hn; cbn [verify_words]; [tidy|].
  apply tidy_bind; [tidy|intros _].
  apply tidy_bind; [tidy|intros b].
  apply tidy_bind; [apply tidy_data_get; lia|intros d].
  destruct (negb (b =? d)); [tidy|].
  apply IH; lia.
Qed.

Lemma tidy_program_group (words : Z) (l : locals) :
  0 <= words <= 8 -> tidy (program_group words l).
Proof.
  intros Hw. unfold program_group.
  apply tidy_bind; [tidy|intros a].
  apply tidy_bind; [tidy|intros _].
  apply tidy_bind; [tidy|intros _].
  apply tidy_bind; [apply tidy_write_words; lia|intros _].
  apply tidy_bind; [tidy|intros _].
  apply tidy_bind; [tidy|intros _].
  apply tidy_bind; [tidy|intros _].
  apply tidy_bind; [tidy|intros _].
  apply tidy_bind; [tidy|intros a'].
  apply tidy_bind; [tidy|intros _].
  apply tidy_bind; [apply tidy_verify_words; lia|intros _].
  tidy.
Qed.

(** The padding loop stays inside the buffer and ends at the group size. *)
Lemma pad_group_in_bounds (n : nat) (words : Z) :
  forall (l : locals) (s : state),
    0 <= words <= 8 ->
    0 <= currentByte l <= 2 * words ->
    in_bounds (pad_group n words l s)
    /\ forall l' s', pad_group n words l s = Ret l' s' -> currentByte l' = 2 * words.
Proof.
  induction n as [|n IH]; intros l s Hw Hc; cbn [pad_group].
  - destruct (currentByte l <? 2 * words) eqn:E.
    + split; [exact I|discriminate].
    + apply Z.ltb_ge in E. split; [exact I|].
      intros l' s' H. inversion H; subst. lia.
  - destruct (currentByte l <? 2 * words) eqn:E.
    + apply Z.ltb_lt in E. unfold bind, data_set.
      replace ((0 <=? currentByte l) && (currentByte l <? 16)) with true
        by (symmetry; apply andb_true_intro; split; [apply Z.leb_le|apply Z.ltb_lt]; lia).
      apply IH; [exact Hw|].
      cbn [currentByte set_currentByte]. rewrite u16_small by lia. lia.
    + apply Z.ltb_ge in E. split; [exact I|].
      intros l' s' H. inversion H; subst. lia.
Qed.

Lemma skip_record_currentByte (n : nat) :
  forall (l l' : locals) (s s' : state),
    skip_record n l s = Ret l' s' -> currentByte l' = currentByte l.
Proof.
  induction n as [|n IH]; intros l l' s s' H; cbn [skip_record] in H.
  - inversion H. reflexivity.
  - apply bind_inv in H as (t0 & s1 & _ & H).
    apply bind_inv in H as (t1 & s2 & _ & H).
    destruct (asciiHexToUShort [t0; t1; 0]) as [v t].
    apply IH in H. exact H.
Qed.

Lemma tidy_skip_record (n : nat) : forall l : locals, tidy (skip_record n l).
Proof. induction n; intros l; cbn [skip_record]; tidy. Qed.

Lemma tidy_read_checksum (l : locals) : tidy (read_checksum l).
Proof. unfold read_checksum. tidy. Qed.

Lemma read_checksum_currentByte (l l' : locals) (s s' : state) :
  read_checksum l s = Ret l' s' -> currentByte l' = currentByte l.
Proof.
  unfold read_checksum. intros H.
  apply bind_inv in H as ([] & s1 & _ & H).
  apply bind_inv in H as (t0 & s2 & _ & H).
  apply bind_inv in H as (t1 & s3 & _ & H).
  destruct (asciiHexToUShort [t0; t1; 0]) as [v t].
  destruct (negb (inc (com (checkSum l)) =? u8 v)); [discriminate|].
  inversion H. reflexivity.
Qed.

Lemma tidy_read_header (l : locals) : tidy (read_header l).
Proof. unfold read_header, expect_colon, read_fields. tidy. Qed.

Lemma read_header_currentByte (l l' : locals) (s s' : state) :
  read_header l s = Ret l' s' ->
  currentByte l' = 0 \/ currentByte l' = currentByte l.
Proof.
  unfold read_header. intros H.
  apply bind_inv in H as ([] & s1 & _ & H).
  apply bind_inv in H as ([] & s2 & _ & H).
  unfold read_fields in H.
  apply bind_inv in H as (t0 & s3 & _ & H).
  apply bind_inv in H as (t1 & s4 & _ & H).
  destruct (asciiHexToUShort [t0; t1; 0]) as [v0 x0].
  apply bind_inv in H as (a0 & s5 & _ & H).
  apply bind_inv in H as (a1 & s6 & _ & H).
  destruct (asciiHexToUShort [a0; a1; 0]) as [v1 x1].
  apply bind_inv in H as (a2 & s7 & _ & H).
  apply bind_inv in H as (a3 & s8 & _ & H).
  destruct (asciiHexToUShort [a2; a3; 0]) as [v2 x2].
  destruct (asciiHexToUShort [a0; a1; a2; a3; 0]) as [v3 x3].
  apply bind_inv in H as ([] & s9 & _ & H).
  apply bind_inv in H as (a & s10 & _ & H).
  apply bind_inv in H as (y0 & s11 & _ & H).
  apply bind_inv in H as (y1 & s12 & _ & H).
  destruct (asciiHexToUShort [y0; y1; 0]) as [v4 x4].
  inversion H. cbn [currentByte].
  destruct (negb (u8 v0 =? 0) && (a =? 16384)); [left|right]; reflexivity.
Qed.

Lemma in_bounds_bind {A B : Type} (m : M A) (k : A -> M B) (s : state) :
  in_bounds (m s) ->
  (forall a s', m s = Ret a s' -> in_bounds (k a s')) ->
  in_bounds (bind m k s).
Proof.
  intros Hm Hk. unfold bind. destruct (m s) as [a s1| | | |]; try exact I.
  - apply Hk. reflexivity.
  - contradiction.
Qed.

(** One data byte of a device with a group of [2 * words] bytes: the byte
    index stays below the group size. *)
Lemma data_byte_in_bounds (words : Z) (l : locals) (s : state) :
  1 <= words <= 8 ->
  0 <= currentByte l < 2 * words ->
  in_bounds (data_byte words l s)
  /\ forall l' s', data_byte words l s = Ret l' s' -> 0 <= currentByte l' < 2 * words.
Proof.
  intros Hw Hc. destruct s as [ser mi mo ad ty ps da].
  destruct ser as [|c0 [|c1 ser]].
  - split; [exact I|discriminate].
  - split; [exact I|discriminate].
  - rewrite data_byte_eq.
    replace ((0 <=? currentByte l) && (currentByte l <? 16)) with true
      by (symmetry; apply andb_true_intro; split; [apply Z.leb_le|apply Z.ltb_lt]; lia).
    cbv zeta.
    destruct (u16 (ps + 1) >? capacity ty); [split; [exact I|discriminate]|].
    match goal with
    | |- context [bind _ _ ?s1] => set (s1' := s1)
    end.
    match goal with
    | |- context [fileEnd ?l1] => set (l1' := l1)
    end.
    assert (C1 : currentByte l1' = currentByte l + 1).
    { unfold l1'. cbn [currentByte]. apply u16_small. lia. }
    assert (P : in_bounds
                  ((if fileEnd l1' then pad_group (Z.to_nat (2 * words)) words l1'
                    else ret l1') s1')
                /\ forall l2 s2,
                    (if fileEnd l1' then pad_group (Z.to_nat (2 * words)) words l1'
                     else ret l1') s1' = Ret l2 s2 ->
                    0 <= currentByte l2 <= 2 * words).
    { destruct (fileEnd l1').
      - destruct (pad_group_in_bounds (Z.to_nat (2 * words)) words l1' s1') as [B R];
          [lia|lia|].
        split; [exact B|]. intros l2 s2 H. apply R in H. lia.
      - split; [exact I|]. intros l2 s2 H. inversion H; subst. lia. }
    destruct P as [P1 P2]. split.
    + apply in_bounds_bind; [exact P1|]. intros l2 s2 H2.
      destruct (currentByte l2 =? 2 * words); [|exact I].
      apply (proj1 (tidy_program_group words l2 ltac:(lia) s2)).
    + intros l' s' H. apply bind_inv in H as (l2 & s2 & H2 & H).
      apply P2 in H2.
      destruct (currentByte l2 =? 2 * words) eqn:E.
      * apply program_group_locals in H. subst l'. cbn [currentByte set_currentByte]. lia.
      * apply Z.eqb_neq in E. inversion H; subst. lia.
Qed.

(** One data byte when no device was identified: the capacity is zero, so
    the byte is one too many. *)
Lemma data_byte_unknown (words : Z) (l : locals) (s : state) :
  unknown s -> currentByte l = 0 ->
  in_bounds (data_byte words l s)
  /\ forall l' s', data_byte words l s <> Ret l' s'.
Proof.
  intros [Ht Hp] Hc. destruct s as [ser mi mo ad ty ps da].
  cbn [type progSize] in Ht, Hp. subst ty ps.
  destruct ser as [|c0 [|c1 ser]].
  - split; [exact I|discriminate].
  - split; [exact I|discriminate].
  - rewrite data_byte_eq. rewrite Hc.
    change ((0 <=? 0) && (0 <? 16)) with true. cbv zeta.
    change (u16 (0 + 1) >? capacity 0) with true. cbv iota.
    split; [exact I|discriminate].
Qed.

Lemma read_data_in_bounds (n : nat) (words : Z) :
  forall (l : locals) (s : state),
    1 <= words <= 8 ->
    0 <= currentByte l < 2 * words ->
    in_bounds (read_data n words l s)
    /\ forall l' s', read_data n words l s = Ret l' s' -> 0 <= currentByte l' < 2 * words.
Proof.
  induction n as [|n IH]; intros l s Hw Hc; cbn [read_data].
  - split; [exact I|]. intros l' s' H. inversion H; subst. exact Hc.
  - destruct (data_byte_in_bounds words l s Hw Hc) as [B R]. split.
    + apply in_bounds_bind; [exact B|]. intros l1 s1 H1.
      apply IH; [exact Hw|]. eapply R. exact H1.
    + intros l' s' H. apply bind_inv in H as (l1 & s1 & H1 & H).
      apply R in H1. exact (proj2 (IH l1 s1 Hw H1) l' s' H).
Qed.

Lemma read_data_unknown (n : nat) (words : Z) (l : locals) (s : state) :
  unknown s -> currentByte l = 0 ->
  in_bounds (read_data n words l s)
  /\ forall l' s', read_data n words l s = Ret l' s' -> l' = l /\ s' = s.
Proof.
  intros Hu Hc. destruct n as [|n]; cbn [read_data].
  - split; [exact I|]. intros l' s' H. inversion H; subst. split; reflexivity.
  - destruct (data_byte_unknown words l s Hu Hc) as [B R]. split.
    + apply in_bounds_bind; [exact B|]. intros l1 s1 H1.
      exfalso. exact (R l1 s1 H1).
    + intros l' s' H. apply bind_inv in H as (l1 & s1 & H1 & _).
      exfalso. exact (R l1 s1 H1).
Qed.

Lemma read_record_in_bounds (words : Z) (l : locals) (s : state) :
  1 <= words <= 8 ->
  0 <= currentByte l < 2 * words ->
  in_bounds (read_record words l s)
  /\ forall l' s', read_record words l s = Ret l' s' -> 0 <= currentByte l' < 2 * words.
Proof.
  intros Hw Hc. unfold read_record.
  assert (Hh : forall lh sh, read_header l s = Ret lh sh ->
                             0 <= currentByte lh < 2 * words).
  { intros lh sh H. apply read_header_currentByte in H. lia. }
  split.
  - apply in_bounds_bind; [apply tidy_read_header|]. intros lh sh H. apply Hh in H.
    destruct (someth lh =? 2); [apply tidy_skip_record|].
    apply in_bounds_bind; [apply read_data_in_bounds; assumption|].
    intros l1 s1 _. apply tidy_read_checksum.
  - intros l' s' H. apply bind_inv in H as (lh & sh & H1 & H). apply Hh in H1.
    destruct (someth lh =? 2).
    + apply skip_record_currentByte in H. lia.
    + apply bind_inv in H as (l1 & s1 & H2 & H).
      apply (proj2 (read_data_in_bounds _ words lh sh Hw H1)) in H2.
      apply read_checksum_currentByte in H. lia.
Qed.

Lemma read_record_unknown (words : Z) (l : locals) (s : state) :
  unknown s -> currentByte l = 0 ->
  in_bounds (read_record words l s)
  /\ forall l' s', read_record words l s = Ret l' s' ->
                   unknown s' /\ currentByte l' = 0.
Proof.
  intros Hu Hc. unfold read_record.
  assert (Hh : forall lh sh, read_header l s = Ret lh sh ->
                             unknown sh /\ currentByte lh = 0).
  { intros lh sh H. split.
    - destruct (proj2 (tidy_read_header l s) lh sh H) as [T P].
      destruct Hu as [Ht Hp]. split; congruence.
    - apply read_header_currentByte in H. lia. }
  split.
  - apply in_bounds_bind; [apply tidy_read_header|]. intros lh sh H.
    apply Hh in H as [Hu' Hc'].
    destruct (someth lh =? 2); [apply tidy_skip_record|].
    apply in_bounds_bind; [apply read_data_unknown; assumption|].
    intros l1 s1 _. apply tidy_read_checksum.
  - intros l' s' H. apply bind_inv in H as (lh & sh & H1 & H).
    apply Hh in H1 as [Hu' Hc'].
    destruct (someth lh =? 2).
    + split.
      * destruct (proj2 (tidy_skip_record _ lh sh) l' s' H) as [T P].
        destruct Hu' as [Ht Hp]. split; congruence.
      * apply skip_record_currentByte in H. lia.
    + apply bind_inv in H as (l1 & s1 & H2 & H).
      apply (proj2 (read_data_unknown _ words lh sh Hu' Hc')) in H2 as [-> ->].
      split.
      * destruct (proj2 (tidy_read_checksum lh sh) l' s' H) as [T P].
        destruct Hu' as [Ht Hp]. split; congruence.
      * apply read_checksum_currentByte in H. lia.
Qed.

Lemma record_loop_in_bounds (n : nat) (words : Z) :
  forall (l : locals) (s : state),
    1 <= words <= 8 ->
    0 <= currentByte l < 2 * words ->
    in_bounds (record_loop n words l s).
Proof.
  induction n as [|n IH]; intros l s Hw Hc; cbn [record_loop];
    (destruct (fileEnd l); [exact I|]); [exact I|].
  destruct (read_record_in_bounds words l s Hw Hc) as [B R].
  apply in_bounds_bind; [exact B|]. intros l1 s1 H. apply IH; [exact Hw|].
  eapply R. exact H.
Qed.

Lemma record_loop_unknown (n : nat) (words : Z) :
  forall (l : locals) (s : state),
    unknown s -> currentByte l = 0 ->
    in_bounds (record_loop n words l s).
Proof.
  induction n as [|n IH]; intros l s Hu Hc; cbn [record_loop];
    (destruct (fileEnd l); [exact I|]); [exact I|].
  destruct (read_record_unknown words l s Hu Hc) as [B R].
  apply in_bounds_bind; [exact B|]. intros l1 s1 H.
  apply R in H as [Hu' Hc']. apply IH; assumption.
Qed.

(** [writeProgram] never indexes outside the 16 bytes of [data]: with the
    device type as [checkID] sets it (ATtiny4/5, 9/10, 20, 40), the byte
    index stays below the group size of 2, 4 or 8 bytes; with the type
    still zero (no device identified), the first data byte is already one
    too many. *)
Theorem writeProgram_in_bounds (s : state) :
  In (type s) [0; Tiny10; Tiny20; Tiny40; Tiny4_5] ->
  forall s', writeProgram s <> OutOfBounds s'.
Proof.
  intros Hty s' E.
  assert (B : in_bounds (writeProgram s)); [|rewrite E in B; exact B].
  clear s' E. unfold writeProgram.
  apply in_bounds_bind; [exact I|]. intros [] s0 H0. inversion H0; subst s0. clear H0.
  apply in_bounds_bind; [apply tidy_eraseChip|]. intros [] s1 H1.
  destruct (proj2 (tidy_eraseChip (set_progSize 0 s)) tt s1 H1) as [T P].
  assert (Hty1 : type s1 = type s) by (rewrite T; destruct s; reflexivity).
  assert (Hps1 : progSize s1 = 0) by (rewrite P; destruct s; reflexivity).
  apply in_bounds_bind; [exact I|]. intros ty s2 H2. inversion H2; subst ty s2. clear H2.
  apply in_bounds_bind; [exact I|]. intros n s2 H2. inversion H2; subst n s2. clear H2.
  apply in_bounds_bind; [|intros; exact I].
  rewrite Hty1.
  cbn [In] in Hty.
  destruct Hty as [Hty|[Hty|[Hty|[Hty|[Hty|[]]]]]]; rewrite <- Hty.
  - apply record_loop_unknown; [|reflexivity]. split; [congruence|exact Hps1].
  - apply record_loop_in_bounds; vm_compute; split; congruence.
  - apply record_loop_in_bounds; vm_compute; split; congruence.
  - apply record_loop_in_bounds; vm_compute; split; congruence.
  - apply record_loop_in_bounds; vm_compute; split; congruence.
Qed.

Lemma writeProgram_in_bounds_witness :
  writeProgram (session file513) <> OutOfBounds (session file513).
Proof.
  apply (writeProgram_in_bounds (session file513)).
  cbn [type session In]. right. right. right. right. left. reflexivity.
Defined.

(** ** What goes over the link *)
Lemma readIO_trace (address : Z) (g : nat) (d : Z) (rest : list Z) (s : state) :
  0 <= d < 256 ->
  miso s = answer g d ++ rest ->
  readIO address s =
  Ret d (set_mosi (mosi s ++ polls address g [d]) (set_miso rest s)).
Proof.
  intros Hd Hm. unfold readIO. rewrite bind_eq, tpi_send_byte_eq. cbv beta iota.
  rewrite (tpi_receive_byte_answer g d rest) by (assumption || (destruct s; exact Hm)).
  destruct s as [ser mi mo ad ty ps da]. state_simpl.
  unfold polls. cbn [flat_map]. rewrite app_nil_r, <- app_assoc. reflexivity.
Qed.

Lemma polls_app (a : Z) (g : nat) (x y : list Z) :
  polls a g (x ++ y) = polls a g x ++ polls a g y.
Proof. unfold polls. apply flat_map_app. Qed.

Lemma nvm_busy_wait_trace (g : nat) (busy : list Z) :
  forall (fuel : nat) (rest : list Z) (s : state),
    Forall busy_status busy ->
    (length busy < fuel)%nat ->
    miso s = status_answers g busy ++ rest ->
    nvm_busy_wait fuel s =
    Ret tt (set_mosi (mosi s ++ polls NVMCSR g (busy ++ [0])) (set_miso rest s)).
Proof.
  induction busy as [|b busy IH]; intros fuel rest s Hb Hf Hm.
  - destruct fuel as [|fuel]; [cbn in Hf; lia|]. cbn [nvm_busy_wait].
    unfold status_answers in Hm. cbn [flat_map app] in Hm.
    rewrite bind_eq, (readIO_trace NVMCSR g 0 rest s ltac:(lia) Hm). reflexivity.
  - destruct fuel as [|fuel]; [cbn in Hf; lia|]. cbn [nvm_busy_wait length] in *.
    apply Forall_cons_iff in Hb as [Hb0 Hb].
    unfold status_answers in Hm. cbn [flat_map] in Hm. rewrite <- !app_assoc in Hm.
    rewrite bind_eq,
      (readIO_trace NVMCSR g b _ s ltac:(unfold busy_status in Hb0; lia) Hm).
    rewrite (busy_bit_set b Hb0).
    rewrite (IH fuel rest); try assumption; try lia.
    + destruct s as [ser mi mo ad ty ps da]. state_simpl.
      change ((b :: busy) ++ [0]) with ([b] ++ (busy ++ [0])).
      rewrite (polls_app NVMCSR g [b]), <- app_assoc. reflexivity.
    + destruct s; unfold status_answers; cbn; rewrite <- app_assoc; reflexivity.
Qed.

Lemma nvm_wait_trace (g : nat) (busy rest : list Z) (s : state) :
  Forall busy_status busy ->
  miso s = status_answers g busy ++ rest ->
  nvm_wait s =
  Ret tt (set_mosi (mosi s ++ polls NVMCSR g (busy ++ [0])) (set_miso rest s)).
Proof.
  intros Hb Hm. unfold nvm_wait. apply nvm_busy_wait_trace; [exact Hb| |exact Hm].
  rewrite Hm, length_app. pose proof (status_answers_length g busy). lia.
Qed.

Lemma eraseChip_trace (g : nat) (busy rest : list Z) (s : state) :
  Forall busy_status busy ->
  miso s = status_answers g busy ++ rest ->
  eraseChip s =
  Ret tt (mkState (serial s) rest
            (mosi s ++ erase_frames ++ polls NVMCSR g (busy ++ [0]))
            0x4001 (type s) (progSize s) (data s)).
Proof.
  intros Hbusy Hm. unfold eraseChip.
  destruct s as [ser mi mo ad ty ps da]. cbn [miso] in Hm. subst mi.
  rewrite bind_eq, setPointer_eq. cbv beta iota. state_simpl.
  rewrite bind_eq, writeIO_eq. cbv beta iota. state_simpl.
  do 8 (rewrite bind_eq, tpi_send_byte_eq; cbv beta iota; state_simpl).
  rewrite (nvm_wait_trace g busy rest) by (assumption || reflexivity).
  state_simpl. unfold erase_frames, pointer_frames.
  fold (SOUT NVMCMD).
  repeat rewrite <- app_assoc.
  repeat (rewrite <- frames_app; cbn [app]).
  reflexivity.
Qed.

Lemma write_words_trace (n : nat) :
  forall (c : nat) (s : state),
    (c + 2 * n <= 16)%nat -> length (data s) = 16%nat ->
    write_words n (Z.of_nat c) s =
    Ret tt (set_mosi (mosi s ++ word_frames (firstn (2 * n) (skipn c (data s)))) s).
Proof.
  induction n as [|n IH]; intros c s Hc Hd.
  - destruct s as [ser mi mo ad ty ps da]. cbn. rewrite app_nil_r. reflexivity.
  - replace (2 * S n)%nat with (S (S (2 * n))) by lia.
    rewrite firstn_skipn_S by lia. rewrite firstn_skipn_S by lia.
    cbn [write_words word_frames].
    destruct s as [ser mi mo ad ty ps da]. cbn [data] in *.
    rewrite bind_eq, tpi_send_byte_eq. cbv beta iota. state_simpl.
    rewrite bind_eq. unfold data_get at 1.
    replace ((0 <=? Z.of_nat c) && (Z.of_nat c <? 16)) with true
      by (symmetry; apply andb_true_intro; split; [apply Z.leb_le|apply Z.ltb_lt]; lia).
    cbv beta iota. state_simpl. rewrite Nat2Z.id.
    rewrite bind_eq, tpi_send_byte_eq. cbv beta iota. state_simpl.
    rewrite bind_eq, tpi_send_byte_eq. cbv beta iota. state_simpl.
    rewrite bind_eq. unfold data_get at 1.
    replace ((0 <=? Z.of_nat c + 1) && (Z.of_nat c + 1 <? 16)) with true
      by (symmetry; apply andb_true_intro; split; [apply Z.leb_le|apply Z.ltb_lt]; lia).
    cbv beta iota. state_simpl.
    replace (Z.to_nat (Z.of_nat c + 1)) with (S c) by lia.
    rewrite bind_eq, tpi_send_byte_eq. cbv beta iota. state_simpl.
    rewrite bind_eq. unfold SPI_transfer_ at 1, modify at 1. cbv beta iota. state_simpl.
    rewrite bind_eq. unfold SPI_transfer_ at 1, modify at 1. cbv beta iota. state_simpl.
    replace (Z.of_nat c + 2) with (Z.of_nat (S (S c))) by lia.
    rewrite IH by (cbn [data]; lia). state_simpl.
    repeat rewrite <- app_assoc.
    repeat (rewrite <- frames_app; cbn [app]).
    reflexivity.
Qed.

Lemma loads_cons (g : nat) (b : Z) (bytes : list Z) :
  loads g (b :: bytes) = frames [SLDp] ++ repeat 0xff (length (answer g b)) ++ loads g bytes.
Proof. unfold loads. cbn [flat_map]. rewrite <- app_assoc. reflexivity. Qed.

Lemma verify_words_trace (g : nat) (n : nat) :
  forall (c : nat) (s : state) (rest : list Z),
    (c + n <= 16)%nat -> length (data s) = 16%nat ->
    Forall (fun b => 0 <= b < 256) (firstn n (skipn c (data s))) ->
    miso s = flat_map (answer g) (firstn n (skipn c (data s))) ++ rest ->
    verify_words n (Z.of_nat c) s =
    Ret tt (set_mosi (mosi s ++ loads g (firstn n (skipn c (data s))))
                     (set_miso rest s)).
Proof.
  induction n as [|n IH]; intros c s rest Hc Hd Hb Hm.
  - cbn in Hm. destruct s as [ser mi mo ad ty ps da].
    cbn [miso] in Hm. subst mi. cbn. rewrite app_nil_r. reflexivity.
  - rewrite firstn_skipn_S in Hb, Hm |- * by lia.
    apply Forall_cons_iff in Hb as [Hb0 Hb].
    cbn [flat_map] in Hm. rewrite <- app_assoc in Hm.
    cbn [verify_words].
    destruct s as [ser mi mo ad ty ps da]. cbn [miso data] in *. subst mi.
    rewrite bind_eq, tpi_send_byte_eq. cbv beta iota. state_simpl.
    rewrite bind_eq.
    rewrite (tpi_receive_byte_answer g (nth c da 0)
               (flat_map (answer g) (firstn n (skipn (S c) da)) ++ rest))
      by (assumption || reflexivity).
    cbv beta iota. state_simpl.
    rewrite bind_eq. unfold data_get at 1.
    replace ((0 <=? Z.of_nat c) && (Z.of_nat c <? 16)) with true
      by (symmetry; apply andb_true_intro; split; [apply Z.leb_le|apply Z.ltb_lt]; lia).
    cbv beta iota. state_simpl. rewrite Nat2Z.id.
    rewrite Z.eqb_refl. cbn [negb].
    replace (Z.of_nat c + 1) with (Z.of_nat (S c)) by lia.
    rewrite (IH (S c) _ rest) by (cbn [data miso]; assumption || lia || reflexivity).
    state_simpl. rewrite loads_cons. repeat rewrite <- app_assoc. reflexivity.
Qed.

(** The first byte that is loaded back different from the buffer ends the
    verification. *)
Lemma verify_words_mismatch (g : nat) (n : nat) :
  forall (k c : nat) (b : Z) (s : state) (rest : list Z),
    (k < n)%nat -> (c + n <= 16)%nat -> length (data s) = 16%nat ->
    Forall (fun b => 0 <= b < 256) (firstn k (skipn c (data s))) ->
    0 <= b < 256 -> b <> nth (c + k) (data s) 0 ->
    miso s = flat_map (answer g) (firstn k (skipn c (data s))) ++ answer g b ++ rest ->
    verify_words n (Z.of_nat c) s =
    Abort (program_error (adrs s) (nth (c + k) (data s) 0) b)
          (set_mosi (mosi s ++ loads g (firstn k (skipn c (data s)) ++ [b]))
                    (set_miso rest s)).
Proof.
  induction n as [|n IH]; intros k c b s rest Hk Hc Hd Hbs Hb Hne Hm; [lia|].
  cbn [verify_words].
  destruct s as [ser mi mo ad ty ps da]. cbn [miso data adrs] in *. subst mi.
  rewrite bind_eq, tpi_send_byte_eq. cbv beta iota. state_simpl.
  rewrite bind_eq.
  destruct k as [|k].
  - cbn [firstn flat_map app]. rewrite Nat.add_0_r in *.
    rewrite (tpi_receive_byte_answer g b rest) by (assumption || reflexivity).
    cbv beta iota. state_simpl.
    rewrite bind_eq. unfold data_get at 1.
    replace ((0 <=? Z.of_nat c) && (Z.of_nat c <? 16)) with true
      by (symmetry; apply andb_true_intro; split; [apply Z.leb_le|apply Z.ltb_lt]; lia).
    cbv beta iota. state_simpl. rewrite Nat2Z.id.
    apply Z.eqb_neq in Hne. rewrite Hne. cbn [negb].
    rewrite bind_eq. unfold get at 1. cbv beta iota. state_simpl.
    unfold abort, loads. cbn [flat_map].
    rewrite app_nil_r. repeat rewrite <- app_assoc. reflexivity.
  - rewrite firstn_skipn_S in Hbs |- * by lia.
    apply Forall_cons_iff in Hbs as [Hb0 Hbs].
    cbn [flat_map app]. rewrite <- app_assoc.
    rewrite (tpi_receive_byte_answer g (nth c da 0)
               (flat_map (answer g) (firstn k (skipn (S c) da)) ++ answer g b ++ rest))
      by (assumption || reflexivity).
    cbv beta iota. state_simpl.
    rewrite bind_eq. unfold data_get at 1.
    replace ((0 <=? Z.of_nat c) && (Z.of_nat c <? 16)) with true
      by (symmetry; apply andb_true_intro; split; [apply Z.leb_le|apply Z.ltb_lt]; lia).
    cbv beta iota. state_simpl. rewrite Nat2Z.id.
    rewrite Z.eqb_refl. cbn [negb].
    replace (Z.of_nat c + 1) with (Z.of_nat (S c)) by lia.
    replace (c + S k)%nat with (S c + k)%nat in * by lia.
    rewrite (IH k (S c) b _ rest)
      by (cbn [data miso]; assumption || lia || reflexivity).
    state_simpl. rewrite loads_cons. repeat rewrite <- app_assoc. reflexivity.
Qed.

Lemma u16_u16 (x : Z) : u16 (u16 x) = u16 x.
Proof. unfold u16. apply Z.mod_mod. lia. Qed.

(** [program_group] up to the verification: the pointer, the word-write
    command, the words, the status polls, the no-operation command and
    the pointer again. *)
Lemma program_group_to_verify (g : nat) (busy : list Z) (words : Z) (l : locals)
      (s : state) (mrest : list Z) :
  Forall busy_status busy ->
  0 <= words <= 8 ->
  length (data s) = 16%nat ->
  miso s = status_answers g busy ++ mrest ->
  program_group words l s =
  (verify_words (Z.to_nat (2 * words)) 0 ;;
   modify (fun s => set_adrs (u16 (adrs s + 2 * words)) s) ;;
   ret (set_currentByte 0 l))
    (mkState (serial s) mrest
       (mosi s ++ pointer_frames (u16 (adrs s))
               ++ frames [SOUT NVMCMD; NVM_WORD_WRITE]
               ++ word_frames (firstn (Z.to_nat (2 * words)) (data s))
               ++ polls NVMCSR g (busy ++ [0])
               ++ frames [SOUT NVMCMD; NVM_NOP] ++ [0xff; 0xff]
               ++ pointer_frames (u16 (adrs s)))
       (u16 (adrs s)) (type s) (progSize s) (data s)).
Proof.
  intros Hbusy Hw Hd Hm. unfold program_group.
  destruct s as [ser mi mo ad ty ps da]. cbn [miso data adrs serial mosi type progSize] in *.
  subst mi.
  rewrite bind_eq. unfold get at 1. cbv beta iota. state_simpl.
  rewrite bind_eq, setPointer_eq. cbv beta iota. state_simpl.
  rewrite bind_eq, writeIO_eq. cbv beta iota. state_simpl.
  rewrite bind_eq.
  change 0 with (Z.of_nat 0) at 1.
  rewrite write_words_trace by (cbn [data]; lia).
  cbv beta iota. state_simpl. cbn [skipn].
  replace (2 * Z.to_nat words)%nat with (Z.to_nat (2 * words)) by lia.
  rewrite bind_eq.
  rewrite (nvm_wait_trace g busy mrest) by (assumption || reflexivity).
  cbv beta iota. state_simpl.
  rewrite bind_eq, writeIO_eq. cbv beta iota. state_simpl.
  rewrite bind_eq. unfold SPI_transfer_ at 1, modify at 1. cbv beta iota. state_simpl.
  rewrite bind_eq. unfold SPI_transfer_ at 1, modify at 1. cbv beta iota. state_simpl.
  rewrite bind_eq. unfold get at 1. cbv beta iota. state_simpl.
  rewrite bind_eq, setPointer_eq. cbv beta iota. state_simpl.
  rewrite u16_u16.
  unfold pointer_frames. fold (SOUT NVMCMD).
  repeat rewrite <- app_assoc. cbn [app]. reflexivity.
Qed.

(** [program_group] on a target that answers: the frames sent and the
    state afterwards. *)
Lemma program_group_run (g : nat) (busy : list Z) (words : Z) (l : locals)
      (s : state) (rest : list Z) :
  Forall busy_status busy ->
  0 <= words <= 8 ->
  length (data s) = 16%nat ->
  Forall (fun b => 0 <= b < 256) (firstn (Z.to_nat (2 * words)) (data s)) ->
  miso s = group_answers g busy (firstn (Z.to_nat (2 * words)) (data s)) ++ rest ->
  program_group words l s =
  Ret (set_currentByte 0 l)
      (mkState (serial s) rest
         (mosi s ++ group_frames g busy (u16 (adrs s))
                      (firstn (Z.to_nat (2 * words)) (data s)))
         (u16 (u16 (adrs s) + 2 * words)) (type s) (progSize s) (data s)).
Proof.
  intros Hbusy Hw Hd Hb Hm. unfold group_answers in Hm. rewrite <- app_assoc in Hm.
  rewrite (program_group_to_verify g busy words l s _ Hbusy Hw Hd Hm).
  rewrite bind_eq. change 0 with (Z.of_nat 0) at 1.
  rewrite (verify_words_trace g _ 0 _ rest);
    [|lia|exact Hd|exact Hb|reflexivity].
  cbv beta iota. state_simpl. cbn [skipn].
  rewrite bind_eq. unfold modify at 1. cbv beta iota. state_simpl.
  unfold ret, group_frames. repeat rewrite <- app_assoc. reflexivity.
Qed.

(** What goes over the link when a group is programmed: the pointer is set
    to the address in [adrs], the word-write command is given, the words
    are stored low byte first with two idle bytes after each, the status is
    polled until the busy bit is clear, the command is reset, and the group
    is loaded back from the same address and compared; then [adrs] is
    advanced by the size of the group. *)
Theorem program_group_sequence (g : nat) (busy : list Z) (words : Z) (l : locals)
        (s : state) (rest : list Z) :
  Forall busy_status busy ->
  0 <= words <= 8 ->
  length (data s) = 16%nat ->
  Forall (fun b => 0 <= b < 256) (firstn (Z.to_nat (2 * words)) (data s)) ->
  miso s = group_answers g busy (firstn (Z.to_nat (2 * words)) (data s)) ++ rest ->
  program_group words l s =
  Ret (set_currentByte 0 l)
      (mkState (serial s) rest
         (mosi s ++ group_frames g busy (u16 (adrs s))
                      (firstn (Z.to_nat (2 * words)) (data s)))
         (u16 (u16 (adrs s) + 2 * words)) (type s) (progSize s) (data s)).
Proof. exact (program_group_run g busy words l s rest). Qed.

Lemma program_group_sequence_witness :
  program_group 1 writeProgram_locals
    (mkState [] (group_answers 0 [0x80] [0x12; 0x34] ++ []) [] 0x4010 Tiny10 2
             (0x12 :: 0x34 :: repeat 0xFF 14)) =
  Ret writeProgram_locals
      (mkState [] [] (group_frames 0 [0x80] 0x4010 [0x12; 0x34]) 0x4012 Tiny10 2
               (0x12 :: 0x34 :: repeat 0xFF 14)).
Proof.
  apply (program_group_sequence 0 [0x80] 1 writeProgram_locals
           (mkState [] (group_answers 0 [0x80] [0x12; 0x34] ++ []) [] 0x4010 Tiny10 2
                    (0x12 :: 0x34 :: repeat 0xFF 14)) []).
  - repeat constructor; unfold busy_status; lia.
  - lia.
  - reflexivity.
  - repeat constructor; lia.
  - reflexivity.
Defined.

(** A byte that is loaded back different from the buffer ends the loading
    with the program error, which names the address of the group (and not
    of the byte), the byte expected and the byte read; the bytes of the
    group after it are not loaded. *)
Theorem verify_mismatch_reported (g : nat) (busy : list Z) (words : Z) (l : locals)
        (s : state) (k : nat) (b : Z) (rest : list Z) :
  Forall busy_status busy ->
  0 <= words <= 8 ->
  length (data s) = 16%nat ->
  (k < Z.to_nat (2 * words))%nat ->
  Forall (fun b => 0 <= b < 256) (firstn k (data s)) ->
  0 <= b < 256 -> b <> nth k (data s) 0 ->
  miso s = status_answers g busy ++ flat_map (answer g) (firstn k (data s))
             ++ answer g b ++ rest ->
  exists mo',
    program_group words l s =
    Abort (program_error (u16 (adrs s)) (nth k (data s) 0) b)
          (mkState (serial s) rest mo' (u16 (adrs s)) (type s) (progSize s) (data s)).
Proof.
  intros Hbusy Hw Hd Hk Hbs Hb Hne Hm.
  rewrite (program_group_to_verify g busy words l s _ Hbusy Hw Hd Hm).
  rewrite bind_eq. change 0 with (Z.of_nat 0) at 1.
  rewrite (verify_words_mismatch g _ k 0 b _ rest);
    [|exact Hk|lia|exact Hd|exact Hbs|exact Hb|exact Hne|reflexivity].
  state_simpl. eexists. reflexivity.
Qed.

Lemma verify_mismatch_reported_witness :
  exists mo',
    program_group 1 writeProgram_locals
      (mkState [] (status_answers 0 [] ++ flat_map (answer 0) [0x12] ++ answer 0 0x30 ++ [])
               [] 0x4010 Tiny10 2 (0x12 :: 0x34 :: repeat 0xFF 14)) =
    Abort (program_error 0x4010 0x34 0x30)
          (mkState [] [] mo' 0x4010 Tiny10 2 (0x12 :: 0x34 :: repeat 0xFF 14)).
Proof.
  apply (verify_mismatch_reported 0 [] 1 writeProgram_locals
           (mkState [] (status_answers 0 [] ++ flat_map (answer 0) [0x12]
                          ++ answer 0 0x30 ++ [])
                    [] 0x4010 Tiny10 2 (0x12 :: 0x34 :: repeat 0xFF 14)) 1 0x30 []).
  - constructor.
  - lia.
  - reflexivity.
  - cbn. lia.
  - repeat constructor; lia.
  - lia.
  - cbn. lia.
  - reflexivity.
Defined.

(** ** The erase comes first *)
(** After the erase sequence [writeProgram] goes on with the records. *)
Lemma writeProgram_erased (g : nat) (busy mrest : list Z) (s : state) :
  Forall busy_status busy ->
  miso s = status_answers g busy ++ mrest ->
  writeProgram s =
  (record_loop (S (length (serial s))) (words_of (type s)) writeProgram_locals ;;
   ret true)
    (mkState (serial s) mrest (mosi s ++ erase_frames ++ polls NVMCSR g (busy ++ [0]))
             0x4001 (type s) 0 (data s)).
Proof.
  intros Hbusy Hm.
  assert (E : eraseChip (set_progSize 0 s) =
              Ret tt (mkState (serial s) mrest
                        (mosi s ++ erase_frames ++ polls NVMCSR g (busy ++ [0]))
                        0x4001 (type s) 0 (data s))).
  { rewrite (eraseChip_trace g busy mrest) by (assumption || (destruct s; exact Hm)).
    destruct s; reflexivity. }
  rewrite (writeProgram_after_erase s _ E). reflexivity.
Qed.

(** [writeProgram] erases the chip before it takes a character of the
    file.  When no file arrives, or when the file does not start with a
    colon within its first two characters, the timeout or the format
    error is reported after the erase sequence has gone to the target,
    and nothing else: the chip is left erased. *)
Theorem erase_precedes_input (g : nat) (busy mrest : list Z) (s : state) :
  Forall busy_status busy ->
  miso s = status_answers g busy ++ mrest ->
  let erased :=
    mkState (serial s) mrest (mosi s ++ erase_frames ++ polls NVMCSR g (busy ++ [0]))
            0x4001 (type s) 0 (data s) in
  (serial s = [] -> writeProgram s = Abort (ERROR_data TimeOut) erased)
  /\ (forall c, serial s = [c] -> to_char c <> 58 ->
      writeProgram s = Hang SerialWait (set_serial [] erased))
  /\ (forall c c' rest,
         serial s = c :: c' :: rest -> to_char c <> 58 -> to_char c' <> 58 ->
         writeProgram s = Abort (ERROR_data HexError) (set_serial rest erased)).
Proof.
  intros Hbusy Hm erased.
  pose proof (writeProgram_erased g busy mrest s Hbusy Hm) as W.
  fold erased in W.
  split; [|split].
  - intros Hs. rewrite W. unfold erased. rewrite Hs. reflexivity.
  - intros c Hs Hc. rewrite W. unfold erased. rewrite Hs.
    apply Z.eqb_neq in Hc.
    cbn [record_loop writeProgram_locals fileEnd].
    unfold bind at 1. unfold bind at 1.
    unfold read_record, read_header.
    unfold bind at 1. unfold bind at 1. unfold wait_available at 1. state_simpl.
    unfold bind at 1. unfold expect_colon at 1.
    unfold bind at 1. unfold Sread at 1. state_simpl.
    rewrite Hc. cbn [negb]. reflexivity.
  - intros c c' rest Hs Hc Hc'. rewrite W. unfold erased. rewrite Hs.
    apply Z.eqb_neq in Hc. apply Z.eqb_neq in Hc'.
    cbn [record_loop writeProgram_locals fileEnd].
    unfold bind at 1. unfold bind at 1.
    unfold read_record, read_header.
    unfold bind at 1. unfold bind at 1. unfold wait_available at 1. state_simpl.
    unfold bind at 1. unfold expect_colon at 1.
    unfold bind at 1. unfold Sread at 1. state_simpl.
    rewrite Hc. cbn [negb].
    unfold bind at 1. unfold Sread at 1. state_simpl.
    rewrite Hc'. cbn [negb]. reflexivity.
Qed.

Lemma erase_precedes_input_witness :
  writeProgram (mkState [] (status_answers 2 [0x80] ++ []) [] 0 Tiny20 7 (repeat 0 16)) =
  Abort (ERROR_data TimeOut)
    (mkState [] [] ([] ++ erase_frames ++ polls NVMCSR 2 ([0x80] ++ [0])) 0x4001 Tiny20 0
             (repeat 0 16)).
Proof.
  apply (proj1 (erase_precedes_input 2 [0x80] []
                  (mkState [] (status_answers 2 [0x80] ++ []) [] 0 Tiny20 7
                           (repeat 0 16))
                  ltac:(repeat constructor; unfold busy_status; lia) eq_refl)).
  reflexivity.
Defined.

(** ** No device identified *)
(** With [type] still zero (no signature was recognised), the capacity
    the loader compares with is zero: the first data byte of the file ends
    the loading with the "too large" error, after the chip erase and before
    anything is programmed. *)
Theorem unknown_chip_too_large (g : nat) (busy mrest lead : list Z)
        (off ty b : Z) (payload : list Z) (ck : Z) (rest : list Z) (s : state) :
  type s = 0 ->
  Forall busy_status busy ->
  miso s = status_answers g busy ++ mrest ->
  stray lead ->
  0 <= off < 65536 -> 0 <= ty < 256 -> ty <> 2 ->
  0 <= b < 256 -> (length payload < 255)%nat ->
  serial s = lead ++ record_chars (Z.of_nat (length (b :: payload))) off ty
                       (b :: payload) ck ++ rest ->
  exists s',
    writeProgram s = Abort (ERROR_data TooLarge) s'
    /\ progSize s' = 1
    /\ mosi s' = mosi s ++ erase_frames ++ polls NVMCSR g (busy ++ [0])
    /\ miso s' = mrest.
Proof.
  intros Hty Hbusy Hm Hlead Hoff Hrt Hne Hb Hlen Hs.
  rewrite (writeProgram_erased g busy mrest s Hbusy Hm).
  rewrite Hty.
  cbn [record_loop writeProgram_locals fileEnd].
  fold writeProgram_locals.
  unfold bind at 1. unfold bind at 1.
  match goal with
  | |- context [read_record ?w ?l ?s0] =>
      destruct (read_header_record l lead (Z.of_nat (length (b :: payload))) off ty
                  (b :: payload) ck rest s0 Hlead) as (t & a & Hh);
        [cbn [length]; lia|exact Hoff|exact Hrt|exact Hs|]
  end.
  unfold read_record. rewrite (bind_ret _ _ _ _ _ Hh).
  unfold record_locals at 1. cbn [someth].
  apply Z.eqb_neq in Hne. rewrite Hne.
  unfold record_locals at 1. cbn [linelength].
  rewrite Nat2Z.id. cbn [length read_data].
  unfold bind at 1. unfold bind at 1.
  state_simpl. cbn [flat_map hex2 app].
  rewrite data_byte_eq.
  assert (Hc : currentByte
                 (record_locals writeProgram_locals
                    (Z.of_nat (S (length payload))) off ty t a) = 0).
  { unfold record_locals, writeProgram_locals. cbn [currentByte].
    destruct (negb (Z.of_nat (S (length payload)) =? 0) && (off =? 0)); reflexivity. }
  rewrite Hc. change ((0 <=? 0) && (0 <? 16)) with true. cbv zeta iota.
  change (u16 (0 + 1) >? capacity 0) with true. cbv iota.
  eexists. split; [reflexivity|]. repeat split.
Qed.

Lemma unknown_chip_too_large_witness :
  exists s',
    writeProgram (mkState ([] ++ record_chars 1 0 0 [0xC0] 0x3F ++ [])
                          (status_answers 0 [] ++ []) [] 0 0 0 (repeat 0 16)) =
    Abort (ERROR_data TooLarge) s'
    /\ progSize s' = 1
    /\ mosi s' = [] ++ erase_frames ++ polls NVMCSR 0 ([] ++ [0])
    /\ miso s' = [].
Proof.
  apply (unknown_chip_too_large 0 [] [] [] 0 0 0xC0 [] 0x3F []
           (mkState ([] ++ record_chars 1 0 0 [0xC0] 0x3F ++ [])
                    (status_answers 0 [] ++ []) [] 0 0 0 (repeat 0 16))).
  - reflexivity.
  - constructor.
  - reflexivity.
  - left. reflexivity.
  - lia.
  - lia.
  - lia.
  - lia.
  - cbn. lia.
  - reflexivity.
Defined.

(** ** The reset pins *)
(** [hvReset] writes to [SS] on every call: in high-voltage mode after the
    write to the pin [HVReset] and with the same level, which is the
    inverted one when the 12 V are switched on by a high level; otherwise
    with the level asked for, the constant [SSN] being low.  So the pulse
    of [quickReset] has the same shape on both pins. *)
Theorem hvReset_writes_SS (HVP HVON highLow : Z) :
  (HVP <> 0 ->
   hvReset HVP HVON highLow =
   [digitalWrite (Pin 9) (if HVON =? 0 then highLow else not_ highLow);
    digitalWrite SS (if HVON =? 0 then highLow else not_ highLow)])
  /\ (HVP = 0 -> hvReset HVP HVON highLow = [digitalWrite SS highLow])
  /\ (HVP <> 0 -> HVON <> 0 ->
      levels SS (quickReset HVP HVON) = [0; 1; 0]
      /\ levels (Pin 9) (quickReset HVP HVON) = [0; 1; 0])
  /\ (HVP = 0 ->
      levels SS (quickReset HVP HVON) = [1; 0; 1]
      /\ levels (Pin 9) (quickReset HVP HVON) = []).
Proof.
  split; [|split; [|split]].
  - intros H. unfold hvReset. apply Z.eqb_neq in H. rewrite H. cbn [negb].
    destruct (HVON =? 0); reflexivity.
  - intros H. subst HVP. reflexivity.
  - intros H H'. unfold quickReset, hvReset.
    apply Z.eqb_neq in H. apply Z.eqb_neq in H'. rewrite H, H'. split; reflexivity.
  - intros H. subst HVP. split; reflexivity.
Qed.

Lemma hvReset_writes_SS_witness :
  hvReset 1 HIGH LOW = [digitalWrite (Pin 9) 1; digitalWrite SS 1].
Proof.
  apply (proj1 (hvReset_writes_SS 1 HIGH LOW)). discriminate.
Defined.

(** ** Printing in hex *)
Lemma same_eq (x y : list Z) : same x y = true -> x = y.
Proof.
  revert y. induction x as [|a x IH]; intros [|b y] H; try discriminate.
  - reflexivity.
  - cbn [same] in H. apply andb_prop in H as [H1 H2].
    apply Z.eqb_eq in H1. subst b. f_equal. apply IH. exact H2.
Qed.

Lemma outHex2_check_all : forallb (fun i => outHex2_check (Z.of_nat i)) (seq 0 256) = true.
Proof. vm_compute. reflexivity. Qed.

Lemma outHex4_check_all :
  forallb (fun i => forallb (fun j => outHex4_check (Z.of_nat i) (Z.of_nat j)) (seq 0 256))
          (seq 0 256) = true.
Proof. vm_compute. reflexivity. Qed.

Lemma outHex_two (b : Z) : 0 <= b < 256 -> console (outHex b 2) = hex2 b.
Proof.
  intros H. apply same_eq. exact (byte_cases outHex2_check outHex2_check_all b H).
Qed.

Lemma outHex_four (a : Z) :
  0 <= a < 65536 -> console (outHex a 4) = hex2 (a / 256) ++ hex2 (a mod 256).
Proof.
  intros H.
  assert (Hh : 0 <= a / 256 < 256).
  { split; [apply Z.div_pos; lia|apply Z.div_lt_upper_bound; lia]. }
  assert (Hl : 0 <= a mod 256 < 256) by (apply Z.mod_pos_bound; lia).
  pose proof (byte_cases
                (fun hi => forallb (fun j => outHex4_check hi (Z.of_nat j)) (seq 0 256))
                outHex4_check_all (a / 256) Hh) as C. cbv beta in C.
  pose proof (byte_cases (outHex4_check (a / 256)) C (a mod 256) Hl) as C'.
  unfold outHex4_check in C'. apply same_eq in C'.
  rewrite <- C'. do 2 f_equal. pose proof (Z.div_mod a 256 ltac:(lia)). lia.
Qed.

Lemma hex_digit_char (n : Z) : 0 <= n < 16 -> to_char (hex_digit n) = hex_digit n.
Proof.
  intros H. apply to_char_small. unfold hex_digit. destruct (n <? 10); lia.
Qed.

(** [outHex] prints a byte asked for with two nibbles as exactly two hex
    digits and an address asked for with four nibbles as exactly four,
    leading zeros included, and [asciiHexToUShort] reads the value back
    from what was printed. *)
Theorem outHex_fixed_width :
  (forall b, 0 <= b < 256 ->
             console (outHex b 2) = hex2 b
             /\ fst (asciiHexToUShort (console (outHex b 2) ++ [0])) = b)
  /\ (forall a, 0 <= a < 65536 ->
                console (outHex a 4) = hex2 (a / 256) ++ hex2 (a mod 256)
                /\ fst (asciiHexToUShort (console (outHex a 4) ++ [0])) = a).
Proof.
  split.
  - intros b H. rewrite outHex_two by exact H. split; [reflexivity|].
    assert (H1 : 0 <= b / 16 < 16).
    { split; [apply Z.div_pos; lia|apply Z.div_lt_upper_bound; lia]. }
    assert (H2 : 0 <= b mod 16 < 16) by (apply Z.mod_pos_bound; lia).
    pose proof (hex_field_hex b H) as E. unfold hex_field in E.
    rewrite !hex_digit_char in E by assumption. exact E.
  - intros a H. rewrite outHex_four by exact H. split; [reflexivity|].
    assert (Hh : 0 <= a / 256 < 256).
    { split; [apply Z.div_pos; lia|apply Z.div_lt_upper_bound; lia]. }
    assert (Hl : 0 <= a mod 256 < 256) by (apply Z.mod_pos_bound; lia).
    pose proof (addr_field_hex a H) as E. unfold addr_field in E.
    rewrite !hex_digit_char in E;
      try (apply Z.mod_pos_bound; lia);
      try (split; [apply Z.div_pos; lia|apply Z.div_lt_upper_bound; lia]).
    exact E.
Qed.

Lemma outHex_fixed_width_witness :
  console (outHex 0x0A 2) = chars "0A"
  /\ fst (asciiHexToUShort (console (outHex 0x3F40 4) ++ [0])) = 0x3F40.
Proof.
  split.
  - apply (proj1 (proj1 outHex_fixed_width 0x0A ltac:(lia))).
  - apply (proj2 (proj2 outHex_fixed_width 0x3F40 ltac:(lia))).
Defined.

(** ** Running a call that uses the link and the console *)
Lemma bindP_run {A B : Type} (m : P A) (k : A -> P B) (log log' : list event)
      (s s' : state) (a : A) :
  m log s = Ret (a, log') s' -> bindP m k log s = k a log' s'.
Proof. intros H. unfold bindP. rewrite bind_eq, H. reflexivity. Qed.

Lemma lift_run {A : Type} (m : M A) (log : list event) (s s' : state) (a : A) :
  m s = Ret a s' -> lift m log s = Ret (a, log) s'.
Proof. intros H. unfold lift. rewrite bind_eq, H. reflexivity. Qed.

Lemma bindP_lift {A B : Type} (m : M A) (k : A -> P B) (log : list event)
      (s s' : state) (a : A) :
  m s = Ret a s' -> bindP (lift m) k log s = k a log s'.
Proof. intros H. apply bindP_run. apply lift_run. exact H. Qed.

Lemma bindP_emit {B : Type} (evs : list event) (k : unit -> P B) (log : list event)
      (s : state) :
  bindP (emit evs) k log s = k tt (log ++ evs) s.
Proof. reflexivity. Qed.

Lemma bindP_retP {A B : Type} (a : A) (k : A -> P B) (log : list event) (s : state) :
  bindP (retP a) k log s = k a log s.
Proof. reflexivity. Qed.

Lemma bindP_assoc {A B C : Type} (m : P A) (k : A -> P B) (h : B -> P C)
      (log : list event) (s : state) :
  bindP (bindP m k) h log s = bindP m (fun a => bindP (k a) h) log s.
Proof. unfold bindP. apply bind_assoc. Qed.

Lemma bindP_stop {A B : Type} (m : P A) (k : A -> P B) (log : list event)
      (s s' : state) (w : wait) :
  m log s = Hang w s' -> bindP m k log s = Hang w s'.
Proof. intros H. unfold bindP. rewrite bind_eq, H. reflexivity. Qed.

Lemma lift_stop {A : Type} (m : M A) (log : list event) (s s' : state) (w : wait) :
  m s = Hang w s' -> lift m log s = Hang w s'.
Proof. intros H. unfold lift. rewrite bind_eq, H. reflexivity. Qed.

Lemma SPI_transfer__eq (x : Z) (s : state) :
  SPI_transfer_ x s = Ret tt (set_mosi (mosi s ++ [x]) s).
Proof. reflexivity. Qed.

Lemma writeCSS_eq (address value : Z) (s : state) :
  writeCSS address value s =
  Ret tt (set_mosi (mosi s ++ frames [Z.lor 0xC0 address; value]) s).
Proof.
  unfold writeCSS. rewrite bind_eq, tpi_send_byte_eq. cbv beta iota.
  rewrite tpi_send_byte_eq. destruct s as [ser mi mo ad ty ps da]. state_simpl.
  rewrite <- app_assoc, <- frames_app. reflexivity.
Qed.

Lemma readCSS_trace (address : Z) (g : nat) (d : Z) (rest : list Z) (s : state) :
  0 <= d < 256 ->
  miso s = answer g d ++ rest ->
  readCSS address s =
  Ret d (set_mosi (mosi s ++ css_polls address g [d]) (set_miso rest s)).
Proof.
  intros Hd Hm. unfold readCSS. rewrite bind_eq, tpi_send_byte_eq. cbv beta iota.
  rewrite (tpi_receive_byte_answer g d rest) by (assumption || (destruct s; exact Hm)).
  destruct s as [ser mi mo ad ty ps da]. state_simpl.
  unfold css_polls. cbn [flat_map]. rewrite app_nil_r, <- app_assoc. reflexivity.
Qed.

Lemma css_polls_app (a : Z) (g : nat) (x y : list Z) :
  css_polls a g (x ++ y) = css_polls a g x ++ css_polls a g y.
Proof. unfold css_polls. apply flat_map_app. Qed.

Lemma nvm_enable_wait_trace (g : nat) (sts : list Z) :
  forall (fuel : nat) (r : Z) (rest : list Z) (s : state),
    Forall not_enabled sts ->
    0 <= r < 256 -> Z.land r 0x02 <> 0 ->
    (length sts < fuel)%nat ->
    miso s = flat_map (answer g) sts ++ answer g r ++ rest ->
    nvm_enable_wait fuel s =
    Ret tt (set_mosi (mosi s ++ css_polls 0x00 g (sts ++ [r])) (set_miso rest s)).
Proof.
  induction sts as [|v sts IH]; intros fuel r rest s Hs Hr Hr2 Hf Hm.
  - destruct fuel as [|fuel]; [cbn in Hf; lia|]. cbn [nvm_enable_wait].
    cbn [flat_map app] in Hm.
    rewrite bind_eq, (readCSS_trace 0x00 g r rest s Hr Hm).
    assert (E : (Z.land r 0x02 <? 1) = false).
    { apply Z.ltb_ge. pose proof (Z.land_nonneg r 0x02). lia. }
    rewrite E. reflexivity.
  - destruct fuel as [|fuel]; [cbn in Hf; lia|]. cbn [nvm_enable_wait length] in *.
    apply Forall_cons_iff in Hs as [[Hv Hv2] Hs].
    cbn [flat_map] in Hm. rewrite <- !app_assoc in Hm.
    rewrite bind_eq, (readCSS_trace 0x00 g v _ s Hv Hm).
    rewrite Hv2. change (0 <? 1) with true. cbv iota.
    rewrite (IH fuel r rest); try assumption; try lia.
    + destruct s as [ser mi mo ad ty ps da]. state_simpl.
      change ((v :: sts) ++ [r]) with ([v] ++ (sts ++ [r])).
      rewrite (css_polls_app 0x00 g [v]), <- app_assoc. reflexivity.
    + destruct s; reflexivity.
Qed.

Lemma answers_length (g : nat) (sts : list Z) :
  (length sts <= length (flat_map (answer g) sts))%nat.
Proof.
  induction sts as [|v sts IH]; [cbn; lia|].
  cbn [flat_map length]. rewrite length_app. pose proof (answer_length g v). lia.
Qed.

(** [start_tpi] brings the target into programming mode: it sets up the
    SPI peripheral, asserts the reset, clocks three idle bytes, writes the
    guard time 0x04 to the control register 0x02, sends the key opcode and
    the eight bytes of the key 0x1289AB45CDD888FF least significant first,
    and reads the status register 0x00 until its bit 1 is set; the answers
    of the target are used up exactly. *)
Theorem start_tpi_enables (HVP HVON : Z) (g : nat) (sts : list Z) (r : Z)
        (rest : list Z) (log : list event) (s : state) :
  Forall not_enabled sts ->
  0 <= r < 256 -> Z.land r 0x02 <> 0 ->
  miso s = flat_map (answer g) sts ++ answer g r ++ rest ->
  start_tpi HVP HVON log s =
  Ret (tt,
       log ++ [Serial_println (chars "Initializing...");
               SPI_begin; SPI_setBitOrder_LSBFIRST; SPI_setDataMode_SPI_MODE0;
               SPI_setClockDivider_SPI_CLOCK_DIV32]
           ++ hvReset HVP HVON LOW
           ++ [delay 1]
           ++ [Serial_println (chars "NVM enabled")])
      (mkState (serial s) rest
         (mosi s ++ [0xff; 0xff; 0xff]
                 ++ frames [0xC2; 0x04]
                 ++ frames [SKEY; 0xFF; 0x88; 0xD8; 0xCD; 0x45; 0xAB; 0x89; 0x12]
                 ++ css_polls 0x00 g (sts ++ [r]))
         (adrs s) (type s) (progSize s) (data s)).
Proof.
  intros Hs Hr Hr2 Hm. unfold start_tpi.
  destruct s as [ser mi mo ad ty ps da]. cbn [miso] in Hm. subst mi.
  rewrite !bindP_emit.
  do 3 (erewrite bindP_lift by apply SPI_transfer__eq; state_simpl).
  erewrite bindP_lift by apply writeCSS_eq. state_simpl.
  erewrite bindP_lift.
  2:{ apply (send_skey_bytes 8); [lia|discriminate|intros _; vm_compute; discriminate|
                                  vm_compute; reflexivity]. }
  state_simpl.
  erewrite bindP_lift.
  2:{ cbn beta. state_simpl.
      apply (nvm_enable_wait_trace g sts _ r rest); try assumption; [|reflexivity].
      rewrite !length_app. pose proof (answers_length g sts). lia. }
  state_simpl. unfold emit, ret.
  repeat rewrite <- app_assoc. reflexivity.
Qed.

Lemma start_tpi_enables_witness :
  exists log',
    start_tpi 1 HIGH []
      (mkState [] (flat_map (answer 3) [0x00; 0x80] ++ answer 3 0x02 ++ [])
               [] 0 0 0 (repeat 0 16)) =
    Ret (tt, log')
      (mkState [] []
         ([] ++ [0xff; 0xff; 0xff]
             ++ frames [0xC2; 0x04]
             ++ frames [SKEY; 0xFF; 0x88; 0xD8; 0xCD; 0x45; 0xAB; 0x89; 0x12]
             ++ css_polls 0x00 3 ([0x00; 0x80] ++ [0x02]))
         0 0 0 (repeat 0 16)).
Proof.
  eexists.
  apply (start_tpi_enables 1 HIGH 3 [0x00; 0x80] 0x02 [] []
           (mkState [] (flat_map (answer 3) [0x00; 0x80] ++ answer 3 0x02 ++ [])
                    [] 0 0 0 (repeat 0 16))).
  - repeat constructor; lia.
  - lia.
  - discriminate.
  - reflexivity.
Defined.

(** ** The configuration byte *)
Lemma dumpConfig_run (g : nat) (b : Z) (rest : list Z) (log : list event) (s : state) :
  0 <= b < 256 ->
  miso s = answer g b ++ rest ->
  dumpConfig log s =
  Ret (b, log ++ config_report b)
      (mkState (serial s) rest (mosi s ++ config_read g b) 0x3F40
               (type s) (progSize s) (data s)).
Proof.
  intros Hb Hm. unfold dumpConfig.
  destruct s as [ser mi mo ad ty ps da]. cbn [miso] in Hm. subst mi.
  erewrite bindP_lift by reflexivity. state_simpl.
  erewrite bindP_lift by reflexivity. state_simpl.
  erewrite bindP_lift by apply setPointer_eq. state_simpl.
  rewrite bindP_emit.
  erewrite bindP_lift by apply tpi_send_byte_eq. state_simpl.
  erewrite bindP_lift by (apply (tpi_receive_byte_answer g b rest); [exact Hb|reflexivity]).
  state_simpl.
  rewrite !bindP_emit. unfold retP, ret.
  f_equal.
  - unfold config_report. repeat rewrite <- app_assoc. reflexivity.
  - f_equal. unfold config_read, pointer_frames, loads. cbn [flat_map].
    rewrite app_nil_r. repeat rewrite <- app_assoc. reflexivity.
Qed.

Lemma section_erase_wait_trace (g : nat) (busy : list Z) :
  forall (fuel : nat) (rest : list Z) (s : state),
    Forall busy_status busy ->
    (length busy < fuel)%nat ->
    miso s = status_answers g busy ++ rest ->
    section_erase_wait fuel s =
    Ret tt (set_mosi (mosi s ++ erase_polls g busy) (set_miso rest s)).
Proof.
  induction busy as [|b busy IH]; intros fuel rest s Hb Hf Hm.
  - destruct fuel as [|fuel]; [cbn in Hf; lia|]. cbn [section_erase_wait].
    unfold status_answers in Hm. cbn [flat_map app] in Hm.
    rewrite bind_eq, (readIO_trace NVMCSR g 0 rest s ltac:(lia) Hm). reflexivity.
  - destruct fuel as [|fuel]; [cbn in Hf; lia|]. cbn [section_erase_wait length] in *.
    apply Forall_cons_iff in Hb as [Hb0 Hb].
    unfold status_answers in Hm. cbn [flat_map] in Hm. rewrite <- !app_assoc in Hm.
    rewrite bind_eq,
      (readIO_trace NVMCSR g b _ s ltac:(unfold busy_status in Hb0; lia) Hm).
    rewrite (busy_bit_set b Hb0).
    rewrite bind_eq, writeIO_eq. cbv beta iota.
    rewrite (IH fuel rest); try assumption; try lia.
    + destruct s as [ser mi mo ad ty ps da]. state_simpl.
      unfold erase_polls. cbn [flat_map]. fold (SOUT NVMCMD).
      repeat rewrite <- app_assoc. reflexivity.
    + destruct s; unfold status_answers; cbn; rewrite <- app_assoc; reflexivity.
Qed.

Lemma Sread_eq (c : Z) (ser : list Z) (s : state) :
  serial s = c :: ser -> Sread s = Ret (to_char c) (set_serial ser s).
Proof. intros H. unfold Sread. rewrite H. reflexivity. Qed.

Ltac pstep :=
  lazymatch goal with
  | |- bindP (bindP _ _) _ _ _ = _ => rewrite bindP_assoc
  | |- bindP (emit _) _ _ _ = _ => rewrite bindP_emit
  | |- bindP (retP _) _ _ _ = _ => rewrite bindP_retP
  | |- bindP (lift (setPointer _)) _ _ _ = _ =>
      erewrite bindP_lift by apply setPointer_eq; state_simpl
  | |- bindP (lift (tpi_send_byte _)) _ _ _ = _ =>
      erewrite bindP_lift by apply tpi_send_byte_eq; state_simpl
  | |- bindP (lift (writeIO _ _)) _ _ _ = _ =>
      erewrite bindP_lift by apply writeIO_eq; state_simpl
  | |- bindP (lift (SPI_transfer_ _)) _ _ _ = _ =>
      erewrite bindP_lift by apply SPI_transfer__eq; state_simpl
  | |- bindP (lift Sread) _ _ _ = _ =>
      erewrite bindP_lift by (apply Sread_eq; reflexivity); state_simpl
  end.

Ltac psteps := repeat pstep.

Ltac preceive g b rest Hb :=
  lazymatch goal with
  | |- bindP (lift tpi_receive_byte) ?k ?l ?s0 = _ =>
      rewrite (bindP_lift tpi_receive_byte k l s0 _ b
                 (tpi_receive_byte_answer g b rest s0 Hb eq_refl));
      state_simpl
  end.

Ltac pwait g busy rest Hbusy :=
  lazymatch goal with
  | |- bindP (lift nvm_wait) ?k ?l ?s0 = _ =>
      rewrite (bindP_lift nvm_wait k l s0 _ tt (nvm_wait_trace g busy rest s0 Hbusy eq_refl));
      state_simpl
  end.

Ltac pconfig g b rest Hb :=
  lazymatch goal with
  | |- bindP dumpConfig ?k ?l ?s0 = _ =>
      rewrite (bindP_run _ _ _ _ _ _ _ (dumpConfig_run g b rest l s0 Hb eq_refl));
      state_simpl
  end.

Lemma section_erase_trace (g : nat) (busy rest : list Z) (s : state) :
  Forall busy_status busy ->
  miso s = status_answers g busy ++ rest ->
  (fun s => section_erase_wait (S (length (miso s))) s) s =
  Ret tt (set_mosi (mosi s ++ erase_polls g busy) (set_miso rest s)).
Proof.
  intros Hb Hm. cbv beta. apply section_erase_wait_trace; [exact Hb| |exact Hm].
  rewrite Hm, length_app. pose proof (status_answers_length g busy). lia.
Qed.

Ltac perase g busy rest Hbusy :=
  lazymatch goal with
  | |- bindP (lift ?m) ?k ?l ?s0 = _ =>
      rewrite (bindP_lift m k l s0 _ tt (section_erase_trace g busy rest s0 Hbusy eq_refl));
      state_simpl
  end.

Ltac trace_eq :=
  f_equal; unfold section_erase_frames, pointer_frames; fold (SOUT NVMCMD);
  repeat rewrite <- app_assoc;
  repeat (rewrite <- frames_app; cbn [app]);
  reflexivity.

Ltac letter :=
  repeat match goal with
         | |- context [to_char ?c] =>
             let v := eval vm_compute in (to_char c) in
             change (to_char c) with v
         end;
  cbn [Z.eqb Pos.eqb orb andb negb].

Ltac run_set g b0 b b' busy2 rest Hb0 Hb Hb' Hbusy2 :=
  pconfig g b0 (answer g b ++ status_answers g busy2 ++ answer g b' ++ rest) Hb0;
  psteps;
  preceive g b (status_answers g busy2 ++ answer g b' ++ rest) Hb;
  psteps; letter; psteps;
  pwait g busy2 (answer g b' ++ rest) Hbusy2;
  psteps;
  pconfig g b' rest Hb';
  reflexivity.

Ltac run_clear g b0 b b' busy1 busy2 rest Hb0 Hb Hb' Hbusy1 Hbusy2 :=
  pconfig g b0 (answer g b ++ status_answers g busy1 ++ status_answers g busy2
                  ++ answer g b' ++ rest) Hb0;
  psteps;
  preceive g b (status_answers g busy1 ++ status_answers g busy2
                  ++ answer g b' ++ rest) Hb;
  psteps; letter; psteps;
  perase g busy1 (status_answers g busy2 ++ answer g b' ++ rest) Hbusy1;
  psteps;
  pwait g busy2 (answer g b' ++ rest) Hbusy2;
  psteps;
  pconfig g b' rest Hb';
  reflexivity.

Lemma fuse_check_all : forallb (fun i => fuse_check (Z.of_nat i)) (seq 0 256) = true.
Proof. vm_compute. reflexivity. Qed.

(** [setConfig] with one of the letters c, w and r: the configuration byte
    is read, for clearing a fuse the section is erased first, and the
    word stored is the byte read with the bit of the letter cleared (to
    set the fuse) or set (to clear it) and the other seven bits as they
    were, followed by 0xFF; then the status is polled, the command reset
    and the configuration read again. *)
Theorem setConfig_changes_one_bit (val : bool) (comnd mask : Z) (g : nat)
        (b0 b b' : Z) (busy1 busy2 : list Z) (ser rest : list Z)
        (log : list event) (s : state) :
  fuse comnd mask ->
  0 <= b0 < 256 -> 0 <= b < 256 -> 0 <= b' < 256 ->
  Forall busy_status busy1 -> Forall busy_status busy2 ->
  serial s = comnd :: ser ->
  miso s = answer g b0 ++ answer g b
             ++ (if val then [] else status_answers g busy1)
             ++ status_answers g busy2 ++ answer g b' ++ rest ->
  let stored := if val then Z.land b (0xFF - mask) else Z.lor b mask in
  (exists log' s',
      setConfig val log s = Ret (tt, log') s'
      /\ s' = mkState ser rest
                (mosi s ++ config_read g b0
                   ++ pointer_frames 0x3F40 ++ frames [SLD]
                   ++ repeat 0xff (length (answer g b))
                   ++ pointer_frames 0x3F40
                   ++ (if val then [] else section_erase_frames g busy1)
                   ++ frames [SOUT NVMCMD; NVM_WORD_WRITE; SSTp; stored; SSTp; 0xFF]
                   ++ polls NVMCSR g (busy2 ++ [0])
                   ++ frames [SOUT NVMCMD; NVM_NOP] ++ [0xff; 0xff]
                   ++ config_read g b')
                0x3F40 (type s) (progSize s) (data s))
  /\ Z.land stored (0xFF - mask) = Z.land b (0xFF - mask)
  /\ Z.land stored mask = (if val then 0 else mask).
Proof.
  intros Hf Hb0 Hb Hb' Hbusy1 Hbusy2 Hs Hm stored. split.
  - unfold setConfig.
    destruct s as [ser0 mi mo ad ty ps da]. cbn [miso serial] in Hm, Hs. subst mi ser0.
    destruct Hf as [[-> ->]|[[-> ->]|[-> ->]]]; destruct val; subst stored;
      cbn [app] in *; eexists; eexists;
      (split;
       [first [ run_set g b0 b b' busy2 rest Hb0 Hb Hb' Hbusy2
              | run_clear g b0 b b' busy1 busy2 rest Hb0 Hb Hb' Hbusy1 Hbusy2 ]
       |trace_eq]).
  - pose proof (byte_cases fuse_check fuse_check_all b Hb) as C.
    unfold fuse_check in C. cbn [forallb] in C. rewrite andb_true_r in C.
    repeat match goal with
           | H : _ && _ = true |- _ => apply andb_prop in H as [? ?]
           end.
    repeat match goal with
           | H : (_ =? _) = true |- _ => apply Z.eqb_eq in H
           end.
    destruct Hf as [[-> ->]|[[-> ->]|[-> ->]]]; destruct val; subst stored;
      split; assumption.
Qed.

Lemma setConfig_changes_one_bit_witness :
  exists log' s',
    setConfig false []
      (mkState [119; 65]
         (answer 0 0xFD ++ answer 0 0xFD
            ++ status_answers 0 [0x80] ++ status_answers 0 [] ++ answer 0 0xFF ++ [])
         [] 0 1 0 (repeat 0 16)) = Ret (tt, log') s'
    /\ s' = mkState [65] []
              ([] ++ config_read 0 0xFD
                 ++ pointer_frames 0x3F40 ++ frames [SLD]
                 ++ repeat 0xff (length (answer 0 0xFD))
                 ++ pointer_frames 0x3F40
                 ++ section_erase_frames 0 [0x80]
                 ++ frames [SOUT NVMCMD; NVM_WORD_WRITE; SSTp; 0xFF; SSTp; 0xFF]
                 ++ polls NVMCSR 0 ([] ++ [0])
                 ++ frames [SOUT NVMCMD; NVM_NOP] ++ [0xff; 0xff]
                 ++ config_read 0 0xFF)
              0x3F40 1 0 (repeat 0 16).
Proof.
  apply (proj1 (setConfig_changes_one_bit false 119 0x02 0 0xFD 0xFD 0xFF [0x80] []
                  [65] [] []
                  (mkState [119; 65]
                     (answer 0 0xFD ++ answer 0 0xFD
                        ++ status_answers 0 [0x80] ++ status_answers 0 []
                        ++ answer 0 0xFF ++ [])
                     [] 0 1 0 (repeat 0 16))
                  ltac:(right; left; split; reflexivity)
                  ltac:(lia) ltac:(lia) ltac:(lia)
                  ltac:(repeat constructor; unfold busy_status; lia)
                  ltac:(constructor) eq_refl eq_refl)).
Defined.

(** [setConfig] with any other character (x, but also the upper-case C, W
    and R, which the command loop would take): nothing is erased and no
    word is stored, the configuration is not read again; the word-write
    command is given all the same, the status polled and the command
    reset. *)
Theorem setConfig_cancel (val : bool) (c : Z) (g : nat) (b0 b : Z) (busy : list Z)
        (ser rest : list Z) (log : list event) (s : state) :
  to_char c <> 99 -> to_char c <> 119 -> to_char c <> 114 ->
  0 <= b0 < 256 -> 0 <= b < 256 ->
  Forall busy_status busy ->
  serial s = c :: ser ->
  miso s = answer g b0 ++ answer g b ++ status_answers g busy ++ rest ->
  exists log' s',
    setConfig val log s = Ret (tt, log') s'
    /\ s' = mkState ser rest
              (mosi s ++ config_read g b0
                 ++ pointer_frames 0x3F40 ++ frames [SLD]
                 ++ repeat 0xff (length (answer g b))
                 ++ pointer_frames 0x3F40
                 ++ frames [SOUT NVMCMD; NVM_WORD_WRITE]
                 ++ polls NVMCSR g (busy ++ [0])
                 ++ frames [SOUT NVMCMD; NVM_NOP] ++ [0xff; 0xff])
              0x3F40 (type s) (progSize s) (data s).
Proof.
  intros Hc Hw Hr Hb0 Hb Hbusy Hs Hm. unfold setConfig.
  destruct s as [ser0 mi mo ad ty ps da]. cbn [miso serial] in Hm, Hs. subst mi ser0.
  apply Z.eqb_neq in Hc. apply Z.eqb_neq in Hw. apply Z.eqb_neq in Hr.
  destruct (to_char c =? 120) eqn:Hx; eexists; eexists;
    (split;
     [pconfig g b0 (answer g b ++ status_answers g busy ++ rest) Hb0;
      psteps;
      preceive g b (status_answers g busy ++ rest) Hb;
      psteps;
      rewrite Hc, Hw, Hr, ?Hx; cbn [orb andb negb]; rewrite ?andb_false_r;
      psteps;
      pwait g busy rest Hbusy;
      psteps;
      reflexivity
     |trace_eq]).
Qed.

Lemma setConfig_cancel_witness :
  exists log' s',
    setConfig true []
      (mkState [67] (answer 0 0xFF ++ answer 0 0xFF ++ status_answers 0 [] ++ [])
               [] 0 1 0 (repeat 0 16)) = Ret (tt, log') s'
    /\ s' = mkState [] []
              ([] ++ config_read 0 0xFF
                 ++ pointer_frames 0x3F40 ++ frames [SLD]
                 ++ repeat 0xff (length (answer 0 0xFF))
                 ++ pointer_frames 0x3F40
                 ++ frames [SOUT NVMCMD; NVM_WORD_WRITE]
                 ++ polls NVMCSR 0 ([] ++ [0])
                 ++ frames [SOUT NVMCMD; NVM_NOP] ++ [0xff; 0xff])
              0x3F40 1 0 (repeat 0 16).
Proof.
  apply (setConfig_cancel true 67 0 0xFF 0xFF [] [] [] []
           (mkState [67] (answer 0 0xFF ++ answer 0 0xFF ++ status_answers 0 [] ++ [])
                    [] 0 1 0 (repeat 0 16))).
  - vm_compute. discriminate.
  - vm_compute. discriminate.
  - vm_compute. discriminate.
  - lia.
  - lia.
  - constructor.
  - reflexivity.
  - reflexivity.
Defined.

(** ** The memory dump *)
Lemma entries_app (len a : Z) (x y : list Z) :
  entries len a (x ++ y) = entries len a x ++ entries len (a + Z.of_nat (length x)) y.
Proof.
  revert a. induction x as [|b x IH]; intros a.
  - cbn. rewrite Z.add_0_r. reflexivity.
  - cbn [app entries length]. rewrite IH, <- app_assoc.
    do 3 f_equal. lia.
Qed.

Lemma loads_app (g : nat) (x y : list Z) : loads g (x ++ y) = loads g x ++ loads g y.
Proof. unfold loads. apply flat_map_app. Qed.

Ltac pstate :=
  lazymatch goal with
  | |- bindP (lift (get _)) _ _ _ = _ => erewrite bindP_lift by reflexivity; state_simpl
  | |- bindP (lift (modify _)) _ _ _ = _ => erewrite bindP_lift by reflexivity; state_simpl
  end.

Ltac prun := repeat first [pstep | pstate].

(** One turn of the loop that does not reach the reserved memory. *)
Lemma dumpMemory_loop_step (g : nat) (len b : Z) (rest : list Z) (fuel : nat)
      (log : list event) (s : state) :
  0 <= adrs s < len -> len < 65536 -> adrs s + 1 <> 0x60 ->
  0 <= b < 256 ->
  miso s = answer g b ++ rest ->
  dumpMemory_loop (S fuel) len log s =
  dumpMemory_loop fuel len (log ++ dump_entry len (adrs s) b)
    (mkState (serial s) rest (mosi s ++ loads g [b]) (adrs s + 1)
             (type s) (progSize s) (data s)).
Proof.
  intros Ha Hl Hn Hb Hm.
  destruct s as [ser mi mo ad ty ps da]. cbn [miso adrs serial mosi type progSize data] in *.
  subst mi.
  cbn [dumpMemory_loop]. pstate.
  replace (ad <? len) with true by (symmetry; apply Z.ltb_lt; lia).
  unfold dumpMemory_step. prun.
  preceive g b rest Hb. prun.
  rewrite u16_small by lia.
  replace (ad + 1 =? 96) with false by (symmetry; apply Z.eqb_neq; exact Hn).
  rewrite bindP_retP.
  unfold loads. cbn [flat_map]. rewrite app_nil_r, <- app_assoc. reflexivity.
Qed.

(** The turn that reaches the reserved memory: the pointer is set to
    0x3F00. *)
Lemma dumpMemory_loop_jump (g : nat) (len b : Z) (rest : list Z) (fuel : nat)
      (log : list event) (s : state) :
  adrs s = 0x5F -> 0x5F < len ->
  0 <= b < 256 ->
  miso s = answer g b ++ rest ->
  dumpMemory_loop (S fuel) len log s =
  dumpMemory_loop fuel len (log ++ dump_entry len 0x5F b)
    (mkState (serial s) rest (mosi s ++ loads g [b] ++ pointer_frames 0x3F00) 0x3F00
             (type s) (progSize s) (data s)).
Proof.
  intros Ha Hl Hb Hm.
  destruct s as [ser mi mo ad ty ps da]. cbn [miso adrs serial mosi type progSize data] in *.
  subst mi ad.
  cbn [dumpMemory_loop]. pstate.
  replace (95 <? len) with true by (symmetry; apply Z.ltb_lt; lia).
  unfold dumpMemory_step. prun.
  preceive g b rest Hb. prun.
  change (u16 (95 + 1) =? 96) with true. cbv iota.
  prun.
  unfold loads, pointer_frames. cbn [flat_map].
  rewrite app_nil_r. repeat rewrite <- app_assoc. reflexivity.
Qed.

Lemma dumpMemory_loop_run (g : nat) (len : Z) (bytes : list Z) :
  forall (fuel : nat) (rest : list Z) (log : list event) (s : state),
    0 <= adrs s -> adrs s + Z.of_nat (length bytes) <= len -> len < 65536 ->
    adrs s + Z.of_nat (length bytes) < 0x60 \/ 0x60 <= adrs s ->
    Forall (fun b => 0 <= b < 256) bytes ->
    miso s = flat_map (answer g) bytes ++ rest ->
    dumpMemory_loop (length bytes + fuel) len log s =
    dumpMemory_loop fuel len (log ++ entries len (adrs s) bytes)
      (mkState (serial s) rest (mosi s ++ loads g bytes)
               (adrs s + Z.of_nat (length bytes)) (type s) (progSize s) (data s)).
Proof.
  induction bytes as [|b bytes IH]; intros fuel rest log s Ha Hl Hlen Hz Hb Hm.
  - destruct s as [ser mi mo ad ty ps da]. cbn in Hm. subst mi.
    cbn [length entries Nat.add]. unfold loads. cbn [flat_map].
    rewrite !app_nil_r. cbn [adrs mosi serial type progSize data].
    rewrite Z.add_0_r. reflexivity.
  - apply Forall_cons_iff in Hb as [Hb0 Hb].
    cbn [length] in *. cbn [flat_map] in Hm. rewrite <- app_assoc in Hm.
    cbn [Nat.add].
    rewrite (dumpMemory_loop_step g len b (flat_map (answer g) bytes ++ rest));
      [|lia|lia|lia|exact Hb0|exact Hm].
    rewrite (IH fuel rest); cbn [adrs miso]; [|lia|lia|lia|lia|exact Hb|reflexivity].
    cbn [entries serial mosi type progSize data].
    rewrite <- !app_assoc.
    change (b :: bytes) with ([b] ++ bytes). rewrite loads_app.
    do 2 f_equal. lia.
Qed.

Lemma dumpMemory_loop_end (fuel : nat) (len : Z) (log : list event) (s : state) :
  len <= adrs s ->
  dumpMemory_loop fuel len log s = Ret (tt, log) s.
Proof.
  intros H. destruct s as [ser mi mo ad ty ps da]. cbn [adrs] in H.
  destruct fuel; cbn [dumpMemory_loop]; pstate;
    (replace (ad <? len) with false by (symmetry; apply Z.ltb_ge; lia)); reflexivity.
Qed.

Lemma dump_end_eq (ty : Z) :
  In ty [0; Tiny10; Tiny20; Tiny40; Tiny4_5] ->
  u16 ((if negb (ty =? Tiny4_5) then u16 (s16 (0x400 * ty)) else 0x200) + 0x4000)
  = dump_end ty
  /\ 0x4000 <= dump_end ty <= 0x5000.
Proof.
  cbn [In]. intros [H|[H|[H|[H|[H|[]]]]]]; subst ty; vm_compute; repeat split; discriminate.
Qed.

Lemma dumpMemory_loop_all (g : nat) (len : Z) (lo hi rest : list Z)
      (log : list event) (s : state) :
  adrs s = 0 ->
  0x4000 <= len <= 0x5000 ->
  length lo = 96%nat -> Z.of_nat (length hi) = len - 0x3F00 ->
  Forall (fun b => 0 <= b < 256) lo -> Forall (fun b => 0 <= b < 256) hi ->
  miso s = flat_map (answer g) lo ++ flat_map (answer g) hi ++ rest ->
  dumpMemory_loop (Z.to_nat 65536) len log s =
  Ret (tt, log ++ entries len 0 lo ++ entries len 0x3F00 hi)
      (mkState (serial s) rest
         (mosi s ++ loads g lo ++ pointer_frames 0x3F00 ++ loads g hi)
         len (type s) (progSize s) (data s)).
Proof.
  intros Ha Hlen Hlo Hhi Hblo Hbhi Hm.
  destruct (exists_last (l := lo)) as (lo' & b & E).
  { intros ->. discriminate Hlo. }
  subst lo. rewrite length_app in Hlo. cbn [length] in Hlo.
  apply Forall_app in Hblo as [Hblo Hb]. apply Forall_cons_iff in Hb as [Hb _].
  rewrite flat_map_app in Hm. cbn [flat_map] in Hm. rewrite app_nil_r in Hm.
  rewrite <- !app_assoc in Hm.
  replace (Z.to_nat 65536)
    with (length lo' + S (length hi + (Z.to_nat 65536 - 96 - length hi)))%nat by lia.
  destruct s as [ser mi mo ad ty ps da]. cbn [adrs miso serial mosi type progSize data] in *.
  subst ad mi.
  rewrite (dumpMemory_loop_run g len lo' _ (answer g b ++ flat_map (answer g) hi ++ rest));
    cbn [adrs miso]; [|lia|lia|lia|lia|exact Hblo|reflexivity].
  cbn [serial mosi type progSize data].
  rewrite (dumpMemory_loop_jump g len b (flat_map (answer g) hi ++ rest));
    cbn [adrs miso]; [|lia|lia|exact Hb|reflexivity].
  cbn [serial mosi type progSize data].
  rewrite (dumpMemory_loop_run g len hi _ rest);
    cbn [adrs miso]; [|lia|lia|lia|lia|exact Hbhi|reflexivity].
  cbn [serial mosi type progSize data].
  rewrite dumpMemory_loop_end by (cbn [adrs]; lia).
  f_equal.
  - f_equal. rewrite entries_app. cbn [entries].
    replace (0 + Z.of_nat (length lo')) with 95 by lia.
    rewrite app_nil_r. repeat rewrite <- app_assoc. reflexivity.
  - f_equal; [|lia].
    rewrite loads_app. repeat rewrite <- app_assoc. reflexivity.
Qed.

(** An address outside the areas shown prints nothing; inside, the line
    ends with the two hex digits of the byte and a space. *)
Lemma dump_entry_console (len a b : Z) :
  0 <= b < 256 ->
  if shown len a
  then exists pre, console (dump_entry len a b) = pre ++ hex2 b ++ chars " "
  else dump_entry len a b = [].
Proof.
  intros Hb. unfold dump_entry. destruct (shown len a); [|reflexivity].
  unfold console. rewrite !flat_map_app. fold (console (outHex b 2)).
  rewrite (outHex_two b Hb). cbn [flat_map written]. rewrite app_nil_r.
  eexists. rewrite <- app_assoc. reflexivity.
Qed.

(** [dumpMemory] reads the memory of the target in two runs of loads with
    post-increment: the 96 bytes from 0x0000 and, after setting the pointer
    to 0x3F00, the bytes from there to the end of the program memory
    (0x4000 + 512 bytes for an ATtiny4/5, 0x4000 + 1024 x type otherwise);
    the reserved memory between is not read.  It ends with [adrs] at the
    end of the memory, has used up one answer per byte, and has printed
    for every byte read what [dump_entry] gives for its address: nothing
    for an address outside the areas shown, and otherwise a piece of the
    listing that ends with the two hex digits of the byte. *)
Theorem dumpMemory_reads (g : nat) (lo hi rest : list Z) (log : list event) (s : state) :
  In (type s) [0; Tiny10; Tiny20; Tiny40; Tiny4_5] ->
  length lo = 96%nat ->
  Z.of_nat (length hi) = dump_end (type s) - 0x3F00 ->
  Forall (fun b => 0 <= b < 256) lo -> Forall (fun b => 0 <= b < 256) hi ->
  miso s = flat_map (answer g) lo ++ flat_map (answer g) hi ++ rest ->
  dumpMemory log s =
  Ret (tt,
       log ++ [Serial_println (chars "Current memory state:")]
           ++ entries (dump_end (type s)) 0 lo
           ++ entries (dump_end (type s)) 0x3F00 hi
           ++ [Serial_println (chars " ")])
      (mkState (serial s) rest
         (mosi s ++ pointer_frames 0 ++ loads g lo ++ pointer_frames 0x3F00 ++ loads g hi)
         (dump_end (type s)) (type s) (progSize s) (data s))
  /\ forall a b, 0 <= b < 256 ->
                 if shown (dump_end (type s)) a
                 then exists pre,
                     console (dump_entry (dump_end (type s)) a b) =
                     pre ++ hex2 b ++ chars " "
                 else dump_entry (dump_end (type s)) a b = [].
Proof.
  intros Hty Hlo Hhi Hblo Hbhi Hm.
  split; [|intros a b Hb; apply dump_entry_console; exact Hb].
  destruct (dump_end_eq (type s) Hty) as [El Hl].
  unfold dumpMemory.
  destruct s as [ser mi mo ad ty ps da]. cbn [adrs miso serial mosi type progSize data] in *.
  subst mi.
  prun. cbv zeta. rewrite El.
  erewrite bindP_run.
  2:{ apply (dumpMemory_loop_all g (dump_end ty) lo hi rest);
        cbn [adrs miso]; try assumption; reflexivity. }
  cbn [serial mosi type progSize data].
  unfold emit, ret. f_equal.
  - f_equal. repeat rewrite <- app_assoc. reflexivity.
  - f_equal. unfold pointer_frames. repeat rewrite <- app_assoc. reflexivity.
Qed.

Lemma dumpMemory_reads_witness :
  dumpMemory []
    (mkState [] (flat_map (answer 0) (repeat 0x11 96)
                   ++ flat_map (answer 0) (repeat 0x22 768) ++ [])
             [] 7 Tiny4_5 0 []) =
  Ret (tt,
       [] ++ [Serial_println (chars "Current memory state:")]
          ++ entries (dump_end Tiny4_5) 0 (repeat 0x11 96)
          ++ entries (dump_end Tiny4_5) 0x3F00 (repeat 0x22 768)
          ++ [Serial_println (chars " ")])
      (mkState [] []
         ([] ++ pointer_frames 0 ++ loads 0 (repeat 0x11 96) ++ pointer_frames 0x3F00
             ++ loads 0 (repeat 0x22 768))
         (dump_end Tiny4_5) Tiny4_5 0 []).
Proof.
  apply (fun H1 H2 H3 H4 H5 H6 =>
           proj1 (dumpMemory_reads 0 (repeat 0x11 96) (repeat 0x22 768) [] []
                    (mkState [] (flat_map (answer 0) (repeat 0x11 96)
                                   ++ flat_map (answer 0) (repeat 0x22 768) ++ [])
                             [] 7 Tiny4_5 0 []) H1 H2 H3 H4 H5 H6)).
  - cbn [type In]. right. right. right. right. left. reflexivity.
  - reflexivity.
  - vm_compute. reflexivity.
  - apply Forall_forall. intros b Hb. apply repeat_spec in Hb. lia.
  - apply Forall_forall. intros b Hb. apply repeat_spec in Hb. lia.
  - reflexivity.
Defined.

(** ** A group that is filled by more than one record *)

(** A data byte that does not complete the group goes to the buffer, and
    nothing goes over the link. *)
Lemma data_byte_buffers (words : Z) (l : locals) (s : state) (acc : list Z) (b : Z)
      (rest : list Z) :
  1 <= words <= 8 ->
  loader_inv (Z.to_nat (2 * words)) l s acc ->
  (S (length acc) < Z.to_nat (2 * words))%nat ->
  0 <= b < 256 ->
  0 <= progSize s -> progSize s + 1 <= capacity (type s) -> capacity (type s) < 65535 ->
  serial s = hex2 b ++ rest ->
  exists l',
    data_byte words l s =
    Ret l' (mkState rest (miso s) (mosi s) (adrs s) (type s) (progSize s + 1)
                    (upd (length acc) b (data s)))
    /\ loader_inv (Z.to_nat (2 * words)) l'
         (mkState rest (miso s) (mosi s) (adrs s) (type s) (progSize s + 1)
                  (upd (length acc) b (data s)))
         (acc ++ [b])
    /\ checkSum l' = u8 (checkSum l + b).
Proof.
  intros Hw (I1 & I2 & I3 & I4 & I5 & I6) Hlt Hb Hps Hcap Hcap' Hs.
  destruct s as [ser mi mo ad ty ps da]. cbn [serial miso data progSize type mosi adrs] in *.
  subst ser. unfold hex2. cbn [app].
  rewrite data_byte_eq.
  replace ((0 <=? currentByte l) && (currentByte l <? 16)) with true
    by (symmetry; apply andb_true_intro; split; [apply Z.leb_le|apply Z.ltb_lt]; lia).
  cbv zeta. rewrite hex_field_hex, (u8_small b) by exact Hb.
  rewrite (u16_small (ps + 1)) by lia.
  replace (ps + 1 >? capacity ty) with false
    by (symmetry; rewrite Z.gtb_ltb; apply Z.ltb_ge; lia).
  rewrite I2, Nat2Z.id. rewrite nth_upd by lia.
  cbn [fileEnd]. rewrite I1.
  rewrite bind_eq. unfold ret at 1. cbv beta iota. cbn [currentByte].
  rewrite (u16_small (Z.of_nat (length acc) + 1)) by lia.
  replace (Z.of_nat (length acc) + 1 =? 2 * words) with false
    by (symmetry; apply Z.eqb_neq; lia).
  unfold ret. eexists. split; [reflexivity|]. split; [|reflexivity].
  unfold loader_inv. cbn [fileEnd currentByte data].
  rewrite upd_length, length_app. cbn [length].
  rewrite Nat.add_1_r, firstn_upd by lia. rewrite I3.
  repeat split; try assumption; try lia.
  apply Forall_app. split; [exact I6|]. constructor; [exact Hb|constructor].
Qed.

(** The data byte that completes the group: the group is programmed at
    the address in [adrs] and verified. *)
Lemma data_byte_completes (g : nat) (busy : list Z) (words : Z) (l : locals)
      (s : state) (acc : list Z) (b : Z) (rest mrest : list Z) :
  Forall busy_status busy ->
  1 <= words <= 8 ->
  loader_inv (Z.to_nat (2 * words)) l s acc ->
  S (length acc) = Z.to_nat (2 * words) ->
  0 <= b < 256 ->
  0 <= progSize s -> progSize s + 1 <= capacity (type s) -> capacity (type s) < 65535 ->
  serial s = hex2 b ++ rest ->
  miso s = group_answers g busy (acc ++ [b]) ++ mrest ->
  exists l',
    data_byte words l s =
    Ret l' (mkState rest mrest
              (mosi s ++ group_frames g busy (u16 (adrs s)) (acc ++ [b]))
              (u16 (u16 (adrs s) + 2 * words)) (type s) (progSize s + 1)
              (upd (length acc) b (data s)))
    /\ loader_inv (Z.to_nat (2 * words)) l'
         (mkState rest mrest
            (mosi s ++ group_frames g busy (u16 (adrs s)) (acc ++ [b]))
            (u16 (u16 (adrs s) + 2 * words)) (type s) (progSize s + 1)
            (upd (length acc) b (data s)))
         []
    /\ checkSum l' = u8 (checkSum l + b).
Proof.
  intros Hbusy Hw (I1 & I2 & I3 & I4 & I5 & I6) HG Hb Hps Hcap Hcap' Hs Hm.
  destruct s as [ser mi mo ad ty ps da]. cbn [serial miso data progSize type mosi adrs] in *.
  subst ser. unfold hex2. cbn [app].
  rewrite data_byte_eq.
  replace ((0 <=? currentByte l) && (currentByte l <? 16)) with true
    by (symmetry; apply andb_true_intro; split; [apply Z.leb_le|apply Z.ltb_lt]; lia).
  cbv zeta. rewrite hex_field_hex, (u8_small b) by exact Hb.
  rewrite (u16_small (ps + 1)) by lia.
  replace (ps + 1 >? capacity ty) with false
    by (symmetry; rewrite Z.gtb_ltb; apply Z.ltb_ge; lia).
  rewrite I2, Nat2Z.id. rewrite nth_upd by lia.
  cbn [fileEnd]. rewrite I1.
  rewrite bind_eq. unfold ret at 1. cbv beta iota. cbn [currentByte].
  rewrite (u16_small (Z.of_nat (length acc) + 1)) by lia.
  replace (Z.of_nat (length acc) + 1 =? 2 * words) with true
    by (symmetry; apply Z.eqb_eq; lia).
  assert (Hf : firstn (Z.to_nat (2 * words)) (upd (length acc) b da) = acc ++ [b]).
  { rewrite <- HG, firstn_upd by lia. rewrite I3. reflexivity. }
  assert (Hacc : Forall (fun b => 0 <= b < 256) (acc ++ [b])).
  { apply Forall_app. split; [exact I6|]. constructor; [exact Hb|constructor]. }
  rewrite (program_group_run g busy words _ _ mrest Hbusy);
    cbn [data miso]; rewrite ?upd_length, ?Hf; try assumption; try lia.
  state_simpl. locals_simpl. eexists. split; [reflexivity|]. split; [|reflexivity].
  unfold loader_inv. cbn [fileEnd currentByte data length firstn].
  rewrite upd_length. repeat split; try assumption; try lia. constructor.
Qed.

(** The data bytes of a record that complete the group being filled: the
    bytes already buffered and the bytes of the record are programmed as
    one group at the address in [adrs]. *)
Lemma read_data_fills (g : nat) (busy : list Z) (words : Z) (payload : list Z) :
  forall (l : locals) (s : state) (acc rest mrest : list Z),
    Forall busy_status busy ->
    1 <= words <= 8 ->
    loader_inv (Z.to_nat (2 * words)) l s acc ->
    Forall (fun b => 0 <= b < 256) payload ->
    payload <> [] ->
    (length acc + length payload)%nat = Z.to_nat (2 * words) ->
    0 <= progSize s ->
    progSize s + Z.of_nat (length payload) <= capacity (type s) ->
    capacity (type s) < 65535 ->
    serial s = flat_map hex2 payload ++ rest ->
    miso s = group_answers g busy (acc ++ payload) ++ mrest ->
    exists l' da',
      read_data (length payload) words l s =
      Ret l' (mkState rest mrest
                (mosi s ++ group_frames g busy (u16 (adrs s)) (acc ++ payload))
                (u16 (u16 (adrs s) + 2 * words)) (type s)
                (progSize s + Z.of_nat (length payload)) da')
      /\ currentByte l' = 0 /\ fileEnd l' = false
      /\ checkSum l' = u8 (checkSum l + fold_right Z.add 0 payload).
Proof.
  induction payload as [|b payload IH];
    intros l s acc rest mrest Hbusy Hw Hinv Hp Hne HG Hps Hcap Hcap' Hs Hm;
    [congruence|].
  apply Forall_cons_iff in Hp as [Hb Hp].
  change (flat_map hex2 (b :: payload)) with (hex2 b ++ flat_map hex2 payload) in Hs.
  rewrite <- app_assoc in Hs.
  cbn [length] in HG, Hcap |- *. rewrite Nat2Z.inj_succ in Hcap |- *.
  cbn [read_data fold_right].
  destruct payload as [|b' payload].
  - cbn [length Z.of_nat flat_map app] in *.
    destruct (data_byte_completes g busy words l s acc b _ mrest Hbusy Hw Hinv
                ltac:(lia) Hb Hps ltac:(lia) Hcap' Hs Hm)
      as (l1 & E & (I1 & I2 & _) & C).
    rewrite bind_eq, E. cbn [read_data]. unfold ret.
    exists l1. eexists. split; [reflexivity|].
    cbn [length Z.of_nat] in I2. rewrite Z.add_0_r. repeat split; assumption.
  - destruct (data_byte_buffers words l s acc b _ Hw Hinv
                ltac:(cbn [length] in HG; lia) Hb Hps
                ltac:(cbn [length] in Hcap; lia) Hcap' Hs)
      as (l1 & E & Hinv1 & C).
    rewrite bind_eq, E.
    specialize (IH l1 _ (acc ++ [b]) rest mrest Hbusy Hw Hinv1 Hp ltac:(discriminate)).
    rewrite length_app in IH. cbn [length serial miso mosi adrs type progSize] in IH.
    rewrite <- app_assoc in IH. cbn [app] in IH.
    specialize (IH ltac:(cbn [length] in HG |- *; lia) ltac:(lia)
                   ltac:(cbn [length] in Hcap |- *; lia) Hcap' eq_refl Hm).
    destruct IH as (l' & da' & E' & Cb & Fe & C').
    exists l', da'. cbn [length]. rewrite E'. split; [|split; [exact Cb|split; [exact Fe|]]].
    + do 2 f_equal. cbn [length]. lia.
    + rewrite C', C, u8_add_l. f_equal. lia.
Qed.

(** The bytes left in the buffer by an earlier record are programmed at
    the address of the record that completes their group: the record
    header sets [adrs] to its own offset, so a record at offset [off] whose
    data complete the group sends the buffered bytes [acc] and its own
    bytes to the target as one group at [off + 0x4000], wherever the
    earlier record placed [acc]. *)
Theorem pending_bytes_follow_record (g : nat) (busy : list Z) (words : Z) (l : locals)
        (s : state) (acc lead : list Z) (off : Z) (payload rest mrest : list Z) :
  Forall busy_status busy ->
  1 <= words <= 8 ->
  loader_inv (Z.to_nat (2 * words)) l s acc ->
  stray lead ->
  0 < off < 65536 ->
  Forall (fun b => 0 <= b < 256) payload ->
  payload <> [] ->
  (length acc + length payload)%nat = Z.to_nat (2 * words) ->
  0 <= progSize s ->
  progSize s + Z.of_nat (length payload) <= capacity (type s) ->
  capacity (type s) < 65535 ->
  serial s = lead ++ valid_record off 0 payload ++ rest ->
  miso s = group_answers g busy (acc ++ payload) ++ mrest ->
  exists l' da',
    read_record words l s =
    Ret l' (mkState rest mrest
              (mosi s ++ group_frames g busy (u16 (off + 0x4000)) (acc ++ payload))
              (u16 (u16 (off + 0x4000) + 2 * words)) (type s)
              (progSize s + Z.of_nat (length payload)) da')
    /\ currentByte l' = 0 /\ fileEnd l' = false.
Proof.
  intros Hbusy Hw Hinv Hlead Hoff Hp Hne HG Hps Hcap Hcap' Hs Hm.
  unfold valid_record in Hs.
  set (ck := twos_complement (record_sum (Z.of_nat (length payload)) off 0 payload)) in *.
  assert (Hck : 0 <= ck < 256) by apply twos_complement_range.
  assert (Hd : length (data s) = 16%nat) by apply Hinv.
  assert (Hlen : (length payload < 256)%nat) by lia.
  destruct (record_to_checksum words l s lead off 0 payload ck rest)
    as [Hr Hc]; try assumption; try lia.
  destruct (read_header_record l lead (Z.of_nat (length payload)) off 0 payload ck rest s)
    as (t & a & Hh); try assumption; try lia.
  assert (Hto : read_to_checksum words l s =
                read_data (length payload) words
                  (record_locals l (Z.of_nat (length payload)) off 0 t a)
                  (set_adrs (u16 (off + 0x4000))
                     (set_serial (flat_map hex2 payload ++ hex2 ck ++ rest) s))).
  { unfold read_to_checksum. rewrite (bind_ret _ _ _ _ _ Hh).
    unfold record_locals at 1. cbn [linelength]. rewrite Nat2Z.id. reflexivity. }
  assert (Hinv0 : loader_inv (Z.to_nat (2 * words))
                    (record_locals l (Z.of_nat (length payload)) off 0 t a)
                    (set_adrs (u16 (off + 0x4000))
                       (set_serial (flat_map hex2 payload ++ hex2 ck ++ rest) s))
                    acc).
  { destruct Hinv as (I1 & I2 & I3 & I4 & I5 & I6).
    destruct s as [ser mi mo ad ty ps da]. state_simpl.
    unfold loader_inv, record_locals. cbn [fileEnd currentByte data] in *.
    change (0 =? 1) with false. cbv iota.
    replace (off =? 0) with false by (symmetry; apply Z.eqb_neq; lia).
    rewrite andb_false_r. repeat split; assumption. }
  pose proof (read_data_fills g busy words payload _ _ acc (hex2 ck ++ rest) mrest
                Hbusy Hw Hinv0 Hp Hne HG) as Hrun.
  destruct s as [ser mi mo ad ty ps da].
  cbn [type progSize serial miso mosi adrs set_adrs set_serial] in *.
  specialize (Hrun Hps Hcap Hcap' eq_refl Hm).
  destruct Hrun as (l1 & da1 & E & Cb & Fe & _).
  rewrite u16_u16 in E.
  rewrite Hr, bind_eq, Hto, E. rewrite Hto in Hc. destruct (Hc _ _ E) as [_ Hk].
  rewrite Hk. fold ck. rewrite Z.eqb_refl. state_simpl.
  eexists. exists da1. split; [reflexivity|]. cbn [currentByte fileEnd]. split; assumption.
Qed.

Lemma pending_bytes_follow_record_witness :
  exists l' da',
    read_record 1 (set_currentByte 1 writeProgram_locals)
      (mkState (valid_record 0x0011 0 [0x34] ++ [])
               (group_answers 0 [] ([0x12] ++ [0x34]) ++ []) [] 0x4010 Tiny10 1
               (0x12 :: repeat 0xFF 15)) =
    Ret l' (mkState [] []
              ([] ++ group_frames 0 [] (u16 (0x0011 + 0x4000)) ([0x12] ++ [0x34]))
              (u16 (u16 (0x0011 + 0x4000) + 2 * 1)) Tiny10
              (1 + Z.of_nat (length [0x34])) da')
    /\ currentByte l' = 0 /\ fileEnd l' = false.
Proof.
  apply (pending_bytes_follow_record 0 [] 1 (set_currentByte 1 writeProgram_locals)
           (mkState (valid_record 0x0011 0 [0x34] ++ [])
                    (group_answers 0 [] ([0x12] ++ [0x34]) ++ []) [] 0x4010 Tiny10 1
                    (0x12 :: repeat 0xFF 15))
           [0x12] [] 0x0011 [0x34] [] []).
  - constructor.
  - lia.
  - unfold loader_inv. cbn. repeat split; try lia. repeat constructor; lia.
  - left. reflexivity.
  - lia.
  - repeat constructor; lia.
  - discriminate.
  - reflexivity.
  - cbn. lia.
  - vm_compute. discriminate.
  - vm_compute. reflexivity.
  - reflexivity.
  - reflexivity.
Defined.
